(** * Ranking, final-submission preparation and reconciliation

    A shallow embedding of [services/ranking_service.py] (classes
    [AnswerRanker], [QuestionProcessor] and [RankingService]) and of
    the final-submission half of [database/db_handler.py] (class
    [DatabaseHandler]), with the properties the specification states
    about them and further properties read off the code.

    Conventions of the embedding:
    - a Python [int] is a [Z]; a Python [str] is a [string] whose
      characters are read as code points of the ASCII range, which fixes
      what [strip] removes and what [lower] rewrites;
    - an answer dict is the record [Answer] of the five keys the code
      reads and writes; a key the code reads with [get(k, default)] and
      that is absent is represented by that default;
    - [AnswerRanker] writes [rank] and [score] into the dicts it is given,
      so its embedding threads a store of answer objects and works on
      lists of references into it; a list of answers, as decoded from
      a JSON response, is the list of its distinct objects;
    - the key names [AnswerFields.*] come from a module of constants that
      is not among the sources; they are the keys [answer], [isCorrect],
      [responseCount], [rank] and [score] that [db_handler.py] spells
      out for the same dicts;
    - the final-submission functions build fresh dicts from the ones they
      read, so their embedding works on values;
    - the HTTP collaborator ([utils.api_handler], [utils.data_formatters])
      is not part of the embedded code: its answers are parameters. *)

From Stdlib Require Import ZArith Ascii String List Bool Permutation Sorted Lia.
From stdpp Require Import base decidable option list sorting gmap strings.

Open Scope string_scope.
Open Scope list_scope.
Open Scope Z_scope.

(** ** Python string methods used by the code *)

Module PyStr.

(** [str.isspace] on one character: TAB, LF, VT, FF, CR, the four
    separators FS, GS, RS, US, and the space. *)
Definition isspace (c : ascii) : bool :=
  let n := N_of_ascii c in
  ((9 <=? n) && (n <=? 13) || (28 <=? n) && (n <=? 32))%N.

Fixpoint lstrip (s : string) : string :=
  match s with
  | EmptyString => EmptyString
  | String c s' => if isspace c then lstrip s' else s
  end.

(** [rstrip] keeps a space only when something that is not a space
    follows it. *)
Fixpoint rstrip (s : string) : string :=
  match s with
  | EmptyString => EmptyString
  | String c s' =>
      match rstrip s' with
      | EmptyString => if isspace c then EmptyString else String c EmptyString
      | r => String c r
      end
  end.

Definition strip (s : string) : string := rstrip (lstrip s).

Definition lower_char (c : ascii) : ascii :=
  let n := N_of_ascii c in
  if ((65 <=? n) && (n <=? 90))%N then ascii_of_N (n + 32) else c.

Fixpoint lower (s : string) : string :=
  match s with
  | EmptyString => EmptyString
  | String c s' => String (lower_char c) (lower s')
  end.

(** Truth value of a string: [not s] holds for the empty string only. *)
Definition truthy (s : string) : bool :=
  match s with EmptyString => false | _ => true end.

End PyStr.

(** ** Data *)

(** An answer dict: keys [answer], [isCorrect], [responseCount], [rank],
    [score]. *)
Record Answer : Type := mkAnswer {
  answer : string;
  isCorrect : bool;
  responseCount : Z;
  rank : Z;
  score : Z
}.

#[global] Instance Answer_eq_dec : EqDecision Answer.
Proof. solve_decision. Defined.

Definition set_rank (r : Z) (a : Answer) : Answer :=
  {| answer := answer a; isCorrect := isCorrect a;
     responseCount := responseCount a; rank := r; score := score a |}.

Definition set_score (s : Z) (a : Answer) : Answer :=
  {| answer := answer a; isCorrect := isCorrect a;
     responseCount := responseCount a; rank := rank a; score := s |}.

(** Two answer dicts that agree on every key but [rank] and [score]. *)
Definition same_content (a b : Answer) : Prop :=
  answer a = answer b ∧ isCorrect a = isCorrect b
  ∧ responseCount a = responseCount b.

(** ** [list.sort] and [sorted]

    Python's sort is stable: elements whose keys compare equal keep their
    relative order, also under [reverse=True].  [py_sort le] is the
    stable sort for the order [le] on elements: an element is placed in
    front of the first element it is [le] to, scanning the input from its
    end. *)

Section PySort.
Context {A : Type} (le : A -> A -> bool).

Fixpoint py_insert (x : A) (l : list A) : list A :=
  match l with
  | [] => [x]
  | y :: l' => if le x y then x :: l else y :: py_insert x l'
  end.

Definition py_sort (l : list A) : list A := foldr py_insert [] l.
End PySort.

(** ** The answer ranker ([services/ranking_service.py]) *)

Module AnswerRanker.

(** References to answer objects, and the store that holds them. *)
Definition ref : Type := nat.
Definition store : Type := ref -> Answer.

Definition write (h : store) (r : ref) (a : Answer) : store :=
  fun r' => if Nat.eqb r' r then a else h r'.

(** A Python list of answer dicts: its dicts are distinct objects, the
    dict at position [i] being the object [i], and the list holds the
    references 0, 1, ... in this order. *)
Definition objects (l : list Answer) : store :=
  fun r => nth r l (mkAnswer EmptyString false 0 0 0).

Definition refs (l : list Answer) : list ref := seq 0 (length l).

Section WithScoring.
(** [self.scoring_values], from [Config.SCORING_VALUES]. *)
Variable scoring_values : list Z.

Definition _separate_answers (h : store) (answers : list ref)
  : list ref * list ref :=
  (List.filter (fun a => isCorrect (h a)) answers,
   List.filter (fun a => negb (isCorrect (h a))) answers).

(** [self.scoring_values[i] if i < len(self.scoring_values) else 0]. *)
Definition score_for (i : nat) : Z :=
  if (i <? length scoring_values)%nat then nth i scoring_values 0 else 0.

(** The loop [for i, answer in enumerate(correct_answers)], entered at
    index [i] with the counters [answers_ranked], [answers_scored]. *)
Fixpoint rank_loop (i : nat) (l : list ref) (h : store)
    (answers_ranked answers_scored : nat) : store * nat * nat :=
  match l with
  | [] => (h, answers_ranked, answers_scored)
  | a :: l' =>
      let rank := Z.of_nat i + 1 in
      let score := score_for i in
      let h1 := write h a (set_rank rank (h a)) in
      let h2 := write h1 a (set_score score (h1 a)) in
      rank_loop (S i) l' h2 (S answers_ranked)
        (if 0 <? score then S answers_scored else answers_scored)
  end.

(** The order of [sort(key=responseCount, reverse=True)]: [x] may
    stand before [y] when its count is not smaller. *)
Definition by_count_desc (h : store) (x y : ref) : bool :=
  responseCount (h y) <=? responseCount (h x).

Definition _rank_correct_answers (h : store) (correct_answers : list ref)
  : store * list ref * nat * nat :=
  match correct_answers with
  | [] => (h, [], 0%nat, 0%nat)
  | _ =>
      let sorted := py_sort (by_count_desc h) correct_answers in
      let '(h', answers_ranked, answers_scored) :=
        rank_loop 0 sorted h 0 0 in
      (h', sorted, answers_ranked, answers_scored)
  end.

Fixpoint _reset_incorrect_answers (h : store) (incorrect_answers : list ref)
  : store :=
  match incorrect_answers with
  | [] => h
  | a :: l' =>
      let h1 := write h a (set_rank 0 (h a)) in
      let h2 := write h1 a (set_score 0 (h1 a)) in
      _reset_incorrect_answers h2 l'
  end.

Definition rank_answers (h : store) (answers : list ref)
  : store * list ref * nat * nat :=
  match answers with
  | [] => (h, answers, 0%nat, 0%nat)
  | _ =>
      let '(correct_answers, incorrect_answers) :=
        _separate_answers h answers in
      let '(h1, ranked_correct, answers_ranked, answers_scored) :=
        _rank_correct_answers h correct_answers in
      let h2 := _reset_incorrect_answers h1 incorrect_answers in
      (h2, ranked_correct ++ incorrect_answers, answers_ranked, answers_scored)
  end.
End WithScoring.

End AnswerRanker.

(** ** Questions and final records ([database/db_handler.py])

    A question dict and a final-collection record share their keys; the
    record of the model has them all.  [_id] is [None] when the key is
    absent or null, and so is [_existing_id], the key that
    reconciliation attaches to a changed record. *)
Record Question : Type := mkQuestion {
  _id : option string;
  question : string;
  questionType : string;
  questionCategory : string;
  questionLevel : string;
  timesSkipped : Z;
  timesAnswered : Z;
  answers : list Answer;
  _existing_id : option string
}.

#[global] Instance Question_eq_dec : EqDecision Question.
Proof. solve_decision. Defined.

Definition set_existing_id (i : option string) (q : Question) : Question :=
  {| _id := _id q; question := question q; questionType := questionType q;
     questionCategory := questionCategory q; questionLevel := questionLevel q;
     timesSkipped := timesSkipped q; timesAnswered := timesAnswered q;
     answers := answers q; _existing_id := i |}.

(** ** Eligibility and preparation rules *)

Module Eligibility.

(** The dict literal [final_answer] of both preparation functions:
    trimmed text, the three integers, and the correctness given. *)
Definition final_answer (correct : bool) (a : Answer) : Answer :=
  {| answer := PyStr.strip (answer a);
     responseCount := responseCount a;
     isCorrect := correct;
     rank := rank a;
     score := score a |}.

(** The filter of [_prepare_input_question_for_final]. *)
Definition ranked_correct (a : Answer) : bool :=
  isCorrect a && (0 <? rank a) && (0 <? score a).

(** The formatting loop of [_prepare_input_question_for_final]: it
    leaves with [(False, [])] at the first empty text. *)
Fixpoint input_format_loop (top : list Answer) (final_answers : list Answer)
  : bool * list Answer :=
  match top with
  | [] => (true, final_answers)
  | a :: top' =>
      let fa := final_answer true a in
      if negb (PyStr.truthy (answer fa)) then (false, [])
      else input_format_loop top' (final_answers ++ [fa])
  end.

(** The order of [sort(key=rank)].  The key is read with the default
    999, which no answer that passed the filter can take: the filter
    has read its rank as positive with the default 0. *)
Definition by_rank (x y : Answer) : bool := rank x <=? rank y.

Definition _prepare_input_question_for_final (all_answers : list Answer)
  : bool * list Answer :=
  let correct_answers := List.filter ranked_correct all_answers in
  if (length correct_answers <? 3)%nat then (false, [])
  else
    let sorted := py_sort by_rank correct_answers in
    let top_3_answers := firstn 3 sorted in
    input_format_loop top_3_answers [].

(** The text loop of [_prepare_mcq_question_for_final]: [None] when an
    answer text is empty, else the lower-cased trimmed texts. *)
Fixpoint mcq_text_loop (l : list Answer) (answer_texts : list string)
  : option (list string) :=
  match l with
  | [] => Some answer_texts
  | a :: l' =>
      let answer_text := PyStr.strip (answer a) in
      if negb (PyStr.truthy answer_text) then None
      else mcq_text_loop l' (answer_texts ++ [PyStr.lower answer_text])
  end.

Definition _prepare_mcq_question_for_final (all_answers : list Answer)
  : bool * list Answer :=
  if negb (length all_answers =? 4)%nat then (false, [])
  else
    let correct_answers := List.filter isCorrect all_answers in
    if negb (length correct_answers =? 1)%nat then (false, [])
    else
      match mcq_text_loop all_answers [] with
      | None => (false, [])
      | Some answer_texts =>
          if negb (size (list_to_set answer_texts : gset string)
                   =? length answer_texts)%nat
          then (false, [])
          else (true, List.map (fun a => final_answer (isCorrect a) a) all_answers)
      end.

Definition _validate_and_prepare_answers_for_final
    (q : Question) (question_type : string) : bool * list Answer :=
  let all_answers := answers q in
  if String.eqb question_type "input" then
    _prepare_input_question_for_final all_answers
  else if String.eqb question_type "mcq" then
    _prepare_mcq_question_for_final all_answers
  else (false, []).

(** [not x] on a list. *)
Definition is_empty {A} (l : list A) : bool :=
  match l with [] => true | _ => false end.

(** One turn of the loop of [_prepare_questions_for_final_submission]:
    the record appended for [q], if any. *)
Definition prepare_one (q : Question) : option Question :=
  let question_type := PyStr.lower (questionType q) in
  if negb (String.eqb question_type "input") then None
  else if is_empty (answers q) then None
  else
    let '(should_include, final_answers) :=
      _validate_and_prepare_answers_for_final q question_type in
    if should_include && negb (is_empty final_answers) then
      Some {| _id := None;
              question := question q;
              questionType := questionType q;
              questionCategory := questionCategory q;
              questionLevel := questionLevel q;
              timesSkipped := timesSkipped q;
              timesAnswered := timesAnswered q;
              answers := final_answers;
              _existing_id := None |}
    else None.

Fixpoint prepare_loop (questions : list Question) (final_questions : list Question)
  : list Question :=
  match questions with
  | [] => final_questions
  | q :: questions' =>
      match prepare_one q with
      | Some fq => prepare_loop questions' (final_questions ++ [fq])
      | None => prepare_loop questions' final_questions
      end
  end.

Definition _prepare_questions_for_final_submission (questions : list Question)
  : list Question :=
  prepare_loop questions [].

End Eligibility.

(** ** Reconciliation *)

Module Reconcile.

Definition normalize_answer_for_comparison (a : Answer) : Answer :=
  {| answer := PyStr.lower (PyStr.strip (answer a));
     isCorrect := isCorrect a;
     rank := rank a;
     score := score a;
     responseCount := responseCount a |}.

(** Order of the sort key [(x['answer'], x['rank'])]: tuples compare
    lexicographically, strings by code points. *)
Definition key_le (x y : Answer) : bool :=
  String.ltb (answer x) (answer y)
  || (String.eqb (answer x) (answer y) && (rank x <=? rank y)).

Definition _answers_have_changed (new_question existing_question : Question)
  : bool :=
  let new_answers := answers new_question in
  let existing_answers := answers existing_question in
  if negb (length new_answers =? length existing_answers)%nat then true
  else
    let new_normalized :=
      py_sort key_le (List.map normalize_answer_for_comparison new_answers) in
    let existing_normalized :=
      py_sort key_le (List.map normalize_answer_for_comparison existing_answers) in
    if negb (bool_decide (new_normalized = existing_normalized)) then true
    else false.

(** The key of the lookup: [.get('question', '').strip().lower()]. *)
Definition question_key (q : Question) : string :=
  PyStr.lower (PyStr.strip (question q)).

(** The first loop of [_categorize_questions_for_submission]. *)
Fixpoint build_lookup (existing_final_questions : list Question)
    (existing_lookup : gmap string Question) : gmap string Question :=
  match existing_final_questions with
  | [] => existing_lookup
  | existing :: rest =>
      let question_text := question_key existing in
      if PyStr.truthy question_text
      then build_lookup rest (<[question_text := existing]> existing_lookup)
      else build_lookup rest existing_lookup
  end.

(** The second loop, with its three lists.  The assignment of
    [_existing_id] changes the local record itself; of the list
    [final_questions] only the length is read afterwards. *)
Fixpoint categorize_loop (existing_lookup : gmap string Question)
    (final_questions : list Question)
    (new_questions updated_questions unchanged_questions : list Question)
  : list Question * list Question * list Question :=
  match final_questions with
  | [] => (new_questions, updated_questions, unchanged_questions)
  | q :: rest =>
      let question_text := question_key q in
      match existing_lookup !! question_text with
      | Some existing_question =>
          if _answers_have_changed q existing_question then
            let q' := set_existing_id (_id existing_question) q in
            categorize_loop existing_lookup rest
              new_questions (updated_questions ++ [q']) unchanged_questions
          else
            categorize_loop existing_lookup rest
              new_questions updated_questions (unchanged_questions ++ [q])
      | None =>
          categorize_loop existing_lookup rest
            (new_questions ++ [q]) updated_questions unchanged_questions
      end
  end.

Definition _categorize_questions_for_submission
    (final_questions existing_final_questions : list Question)
  : list Question * list Question * list Question :=
  let existing_lookup := build_lookup existing_final_questions ∅ in
  categorize_loop existing_lookup final_questions [] [] [].

(** The remote record that a local record [q] is compared with: the
    last of the remote records that have the key of [q], when this key
    is not empty. *)
Definition counterpart (existing_final_questions : list Question)
    (q e : Question) : Prop :=
  question_key q ≠ EmptyString
  ∧ ∃ l1 l2, existing_final_questions = l1 ++ e :: l2
             ∧ question_key e = question_key q
             ∧ ∀ e', e' ∈ l2 → question_key e' ≠ question_key q.

(** The three buckets as the specification words them: the bucket of
    one local record, given the lookup.  [Changed] carries the
    identifier of the remote record. *)
Inductive Bucket : Type :=
| New
| Changed (existing_id : option string)
| Unchanged.

Definition classify (existing_lookup : gmap string Question) (q : Question)
  : Bucket :=
  match existing_lookup !! question_key q with
  | None => New
  | Some existing_question =>
      if _answers_have_changed q existing_question
      then Changed (_id existing_question)
      else Unchanged
  end.

Definition is_new (b : Bucket) : bool :=
  match b with New => true | _ => false end.

Definition is_unchanged (b : Bucket) : bool :=
  match b with Unchanged => true | _ => false end.

(** The record put in the changed list for a local record, if any. *)
Definition as_changed (existing_lookup : gmap string Question) (q : Question)
  : option Question :=
  match classify existing_lookup q with
  | Changed i => Some (set_existing_id i q)
  | _ => None
  end.

End Reconcile.

(** ** The remote store, as the code sees it

    [APIHandler.make_request] either raises or returns a response, of
    which the code reads [ResponseProcessor.is_success_response] and
    [ResponseProcessor.extract_questions_from_response].  The server is a
    parameter: a state of its own and a transition per request.  Every
    request made is appended to a log. *)

Module Remote.

Inductive Method : Type := GET | POST | PUT | PATCH.

(** [/api/v1/admin/survey/final] and [/api/v1/admin/survey/final/<id>]. *)
Inductive Endpoint : Type :=
| FinalCollection
| FinalItem (question_id : string).

(** A request; [payload] is the list under the key [questions], empty
    for a request without body. *)
Record Request : Type := mkRequest {
  method : Method;
  endpoint : Endpoint;
  payload : list Question
}.

Record Response : Type := mkResponse {
  is_success_response : bool;
  extract_questions_from_response : list Question
}.

Inductive Reply : Type :=
| Raised
| Replied (r : Response).

Section WithServer.
Variable Server : Type.
Variable serve : Request -> Server -> Reply * Server.

Record World : Type := mkWorld {
  server : Server;
  log : list Request
}.

(** Computations that talk to the store: they end with a value or
    with a raised exception. *)
Inductive Outcome (A : Type) : Type :=
| Ret (a : A)
| Exn.
Arguments Ret {A} a.
Arguments Exn {A}.

Definition M (A : Type) : Type := World -> Outcome A * World.

Definition ret {A} (a : A) : M A := fun w => (Ret a, w).

Definition bind {A B} (c : M A) (k : A -> M B) : M B :=
  fun w =>
    match c w with
    | (Ret a, w') => k a w'
    | (Exn, w') => (Exn, w')
    end.

(** [try: c except Exception: h]. *)
Definition try_except {A} (c : M A) (h : M A) : M A :=
  fun w =>
    match c w with
    | (Ret a, w') => (Ret a, w')
    | (Exn, w') => h w'
    end.

(** [c] adds to the log only requests that satisfy [P]. *)
Definition only_issues {A} (P : Request -> Prop) (c : M A) : Prop :=
  forall w, exists requests,
    log (snd (c w)) = log w ++ requests /\ Forall P requests.

Definition make_request (e : Endpoint) (m : Method) (data : list Question)
  : M Response :=
  fun w =>
    let req := {| method := m; endpoint := e; payload := data |} in
    let '(reply, s') := serve req (server w) in
    let w' := {| server := s'; log := log w ++ [req] |} in
    match reply with
    | Raised => (Exn, w')
    | Replied r => (Ret r, w')
    end.
End WithServer.

Arguments Ret {A} a.
Arguments Exn {A}.
Arguments ret {Server A} a.
Arguments bind {Server A B} c k.
Arguments try_except {Server A} c h.
Arguments make_request {Server} serve e m data.
Arguments only_issues {Server A} P c.
Arguments server {Server} w.
Arguments log {Server} w.
Arguments mkWorld {Server} server log.

(** The requests of the update path. *)
Definition is_update (req : Request) : bool :=
  match method req with
  | PUT | PATCH => true
  | _ => false
  end.

End Remote.

(** ** Final submission with updates *)

Module Submission.
Import Remote Reconcile.

Notation "'let!' x ':=' c 'in' k" := (bind c (fun x => k))
  (at level 10, x name, c at level 100, k at level 200).

(** The key [details] of a result dict. *)
Record Details : Type := mkDetails {
  new_submitted : nat;
  updated : nat;
  unchanged : nat
}.

(** The result dicts, without their human-readable [message] and
    [error]; [total_processed] and [details] are [None] in the dicts that
    have no such key. *)
Record Result : Type := mkResult {
  submitted_count : nat;
  total_processed : option nat;
  success : bool;
  details : option Details
}.

(** The requests of the fetch and of the create call. *)
Definition fetch_request : Request :=
  {| method := GET; endpoint := FinalCollection; payload := [] |}.

Definition create_request (questions : list Question) : Request :=
  {| method := POST; endpoint := FinalCollection; payload := questions |}.

(** What a reply to the fetch amounts to: the records of a successful
    response, [None] for any other response and for an exception. *)
Definition fetched (reply : Reply) : option (list Question) :=
  match reply with
  | Replied r =>
      if is_success_response r
      then Some (extract_questions_from_response r) else None
  | Raised => None
  end.

Section WithServer.
Variable Server : Type.
Variable serve : Request -> Server -> Reply * Server.

(** The world once the store has served [req]. *)
Definition after (req : Request) (w : World Server) : World Server :=
  {| server := (serve req (server w)).2; log := log w ++ [req] |}.

Definition _get_existing_final_questions : M Server (option (list Question)) :=
  try_except
    (let! response := make_request serve FinalCollection GET [] in
     if is_success_response response
     then ret (Some (extract_questions_from_response response))
     else ret None)
    (ret None).

Definition _submit_new_final_questions (new_questions : list Question)
  : M Server Result :=
  let! response := make_request serve FinalCollection POST new_questions in
  if is_success_response response
  then ret {| submitted_count := length new_questions;
              total_processed := None; success := true; details := None |}
  else ret {| submitted_count := 0;
              total_processed := None; success := false; details := None |}.

(** The inner loop [for method in ["PUT", "PATCH"]] for one endpoint;
    [true] is the [return True] of the function. *)
Fixpoint try_methods (e : Endpoint) (methods : list Method)
    (update_payload : list Question) : M Server bool :=
  match methods with
  | [] => ret false
  | m :: methods' =>
      let! ok :=
        try_except
          (let! response := make_request serve e m update_payload in
           ret (is_success_response response))
          (ret false) in
      if ok then ret true else try_methods e methods' update_payload
  end.

Fixpoint try_endpoints (endpoints : list Endpoint)
    (update_payload : list Question) : M Server bool :=
  match endpoints with
  | [] => ret false
  | e :: endpoints' =>
      let! ok := try_methods e [PUT; PATCH] update_payload in
      if ok then ret true else try_endpoints endpoints' update_payload
  end.

Definition _update_single_final_question (question_id : string)
    (update_payload : list Question) : M Server bool :=
  try_endpoints [FinalItem question_id; FinalCollection] update_payload.

Fixpoint update_loop (updated_questions : list Question)
    (successful_updates : nat) : M Server nat :=
  match updated_questions with
  | [] => ret successful_updates
  | q :: rest =>
      match _existing_id q with
      | Some question_id =>
          if PyStr.truthy question_id then
            let! ok := _update_single_final_question question_id [q] in
            update_loop rest
              (if ok then S successful_updates else successful_updates)
          else update_loop rest successful_updates
      | None => update_loop rest successful_updates
      end
  end.

Definition _update_existing_final_questions (updated_questions : list Question)
  : M Server Result :=
  let! successful_updates := update_loop updated_questions 0%nat in
  ret {| submitted_count := successful_updates;
         total_processed := None;
         success := (0 <? successful_updates)%nat;
         details := None |}.

Definition _handle_final_submission_with_updates (final_questions : list Question)
  : M Server Result :=
  try_except
    (let! existing_final_questions := _get_existing_final_questions in
     match existing_final_questions with
     | None => _submit_new_final_questions final_questions
     | Some existing =>
         let '(new_questions, updated_questions, unchanged_questions) :=
           _categorize_questions_for_submission final_questions existing in
         let! submitted1 :=
           (if Eligibility.is_empty new_questions then ret 0%nat
            else
              let! new_result := _submit_new_final_questions new_questions in
              if success new_result then ret (submitted_count new_result)
              else ret 0%nat) in
         let! submitted2 :=
           (if Eligibility.is_empty updated_questions then ret submitted1
            else
              let! update_result :=
                _update_existing_final_questions updated_questions in
              if success update_result
              then ret (submitted1 + submitted_count update_result)%nat
              else ret submitted1) in
         ret {| submitted_count := submitted2;
                total_processed := Some (length final_questions);
                success :=
                  (0 <? submitted2)%nat || (0 <? length unchanged_questions)%nat;
                details :=
                  Some {| new_submitted := length new_questions;
                          updated := length updated_questions;
                          unchanged := length unchanged_questions |} |}
     end)
    (ret {| submitted_count := 0;
            total_processed := Some (length final_questions);
            success := false;
            details := None |}).
End WithServer.

Arguments after {Server} serve req w.
Arguments _get_existing_final_questions {Server} serve.
Arguments _submit_new_final_questions {Server} serve new_questions.
Arguments try_methods {Server} serve e methods update_payload.
Arguments try_endpoints {Server} serve endpoints update_payload.
Arguments _update_single_final_question {Server} serve question_id update_payload.
Arguments update_loop {Server} serve updated_questions successful_updates.
Arguments _update_existing_final_questions {Server} serve updated_questions.
Arguments _handle_final_submission_with_updates {Server} serve final_questions.

End Submission.

(** ** The question processor ([services/ranking_service.py])

    [QuestionProcessor] and [RankingService] handle one question at a
    time; the answers of a question are a list of dicts of its own, so
    the ranker is seen here by value: the list of dicts it is called
    with, the list of dicts it returns. *)

Definition set_answers (l : list Answer) (q : Question) : Question :=
  {| _id := _id q; question := question q; questionType := questionType q;
     questionCategory := questionCategory q; questionLevel := questionLevel q;
     timesSkipped := timesSkipped q; timesAnswered := timesAnswered q;
     answers := l; _existing_id := _existing_id q |}.

Module QuestionProcessor.
Import AnswerRanker.

(** The order of the ranker's sort, on the dicts themselves. *)
Definition count_desc (x y : Answer) : bool :=
  responseCount y <=? responseCount x.

(** The dict after the assignments of a rank and of a score. *)
Definition with_rank_score (r s : Z) (a : Answer) : Answer :=
  set_score s (set_rank r a).

Section WithScoring.
Variable scoring_values : list Z.

(** [self.answer_ranker.rank_answers(question['answers'])]: the dicts
    of the list are the objects 0, 1, ...; the result lists them as the
    ranker left them. *)
Definition rank_values (l : list Answer) : list Answer * nat * nat :=
  let '(h', out, answers_ranked, answers_scored) :=
    rank_answers scoring_values (objects l) (refs l) in
  (List.map h' out, answers_ranked, answers_scored).

Definition _should_process_question (q : Question) : bool :=
  if Eligibility.is_empty (answers q) then false
  else
    let has_correct_answers := existsb isCorrect (answers q) in
    if negb has_correct_answers then false else true.

Definition process_question (q : Question) : Question * nat * nat :=
  if negb (_should_process_question q) then (q, 0%nat, 0%nat)
  else
    let '(ranked_answers, answers_ranked, answers_scored) :=
      rank_values (answers q) in
    (set_answers ranked_answers q, answers_ranked, answers_scored).
End WithScoring.

End QuestionProcessor.

(** ** The ranking service ([services/ranking_service.py])

    [DataValidator.validate_question] belongs to a module that is not
    among the sources: it is a parameter. *)

Module RankingService.
Import QuestionProcessor.

(** The dict that [_process_single_question_in_batch] returns; its keys
    [question], [answers_ranked] and [answers_scored] exist only when
    [processed] is true. *)
Record BatchItem : Type := mkBatchItem {
  processed : bool;
  validation_failed : bool;
  processed_question : option Question;
  item_answers_ranked : nat;
  item_answers_scored : nat
}.

(** The dict that [_process_questions_batch] returns. *)
Record Batch : Type := mkBatch {
  processed_questions : list Question;
  processed_count : nat;
  skipped_count : nat;
  validation_failed_count : nat;
  total_answers_ranked : nat;
  total_answers_scored : nat
}.

(** An entry of [by_type] in the summary. *)
Record TypeStats : Type := mkTypeStats {
  total : nat;
  ready : nat;
  needs_more : nat;
  note : string
}.

(** The dict that [get_final_submission_summary] returns.  The key of
    [by_type] is the type label as the question carries it. *)
Record FinalSummary : Type := mkFinalSummary {
  total_questions : nat;
  total_input_questions : nat;
  total_mcq_questions : nat;
  ready_for_final : nat;
  needs_more_answers : nat;
  non_eligible_questions : nat;
  by_type : gmap string TypeStats
}.

Section WithConfig.
Variable scoring_values : list Z.
Variable validate_question : Question -> bool.

Definition _process_single_question_in_batch (q : Question) : BatchItem :=
  if Eligibility.is_empty (answers q) then
    {| processed := false; validation_failed := false;
       processed_question := None;
       item_answers_ranked := 0; item_answers_scored := 0 |}
  else
    let has_correct := existsb isCorrect (answers q) in
    if negb has_correct then
      {| processed := false; validation_failed := false;
         processed_question := None;
         item_answers_ranked := 0; item_answers_scored := 0 |}
    else
      let '(processed_q, answers_ranked, answers_scored) :=
        process_question scoring_values q in
      if negb (validate_question processed_q) then
        {| processed := false; validation_failed := true;
           processed_question := None;
           item_answers_ranked := 0; item_answers_scored := 0 |}
      else
        {| processed := true; validation_failed := false;
           processed_question := Some processed_q;
           item_answers_ranked := answers_ranked;
           item_answers_scored := answers_scored |}.

(** The loop of [_process_questions_batch]. *)
Fixpoint batch_loop (questions : list Question) (b : Batch) : Batch :=
  match questions with
  | [] => b
  | q :: rest =>
      let result := _process_single_question_in_batch q in
      if processed result then
        batch_loop rest
          {| processed_questions :=
               processed_questions b
               ++ match processed_question result with
                  | Some pq => [pq]
                  | None => []
                  end;
             processed_count := S (processed_count b);
             skipped_count := skipped_count b;
             validation_failed_count := validation_failed_count b;
             total_answers_ranked :=
               (total_answers_ranked b + item_answers_ranked result)%nat;
             total_answers_scored :=
               (total_answers_scored b + item_answers_scored result)%nat |}
      else if validation_failed result then
        batch_loop rest
          {| processed_questions := processed_questions b;
             processed_count := processed_count b;
             skipped_count := skipped_count b;
             validation_failed_count := S (validation_failed_count b);
             total_answers_ranked := total_answers_ranked b;
             total_answers_scored := total_answers_scored b |}
      else
        batch_loop rest
          {| processed_questions := processed_questions b;
             processed_count := processed_count b;
             skipped_count := S (skipped_count b);
             validation_failed_count := validation_failed_count b;
             total_answers_ranked := total_answers_ranked b;
             total_answers_scored := total_answers_scored b |}
  end.

Definition _process_questions_batch (questions : list Question) : Batch :=
  batch_loop questions
    {| processed_questions := []; processed_count := 0; skipped_count := 0;
       validation_failed_count := 0;
       total_answers_ranked := 0; total_answers_scored := 0 |}.
End WithConfig.

Definition _validate_input_question_for_final (all_answers : list Answer) : bool :=
  let valid_correct_answers :=
    length (List.filter Eligibility.ranked_correct all_answers) in
  if (valid_correct_answers <? 3)%nat then false else true.

Definition _validate_question_for_final_submission (q : Question) : bool :=
  let question_type := PyStr.lower (questionType q) in
  if negb (String.eqb question_type "input") then false
  else if Eligibility.is_empty (answers q) then false
  else _validate_input_question_for_final (answers q).

(** [summary["by_type"][question_type][key] += 1] and the assignment of
    the note. *)
Definition bump_total (st : TypeStats) : TypeStats :=
  {| total := S (total st); ready := ready st;
     needs_more := needs_more st; note := note st |}.

Definition bump_ready (st : TypeStats) : TypeStats :=
  {| total := total st; ready := S (ready st);
     needs_more := needs_more st; note := note st |}.

Definition bump_needs_more (st : TypeStats) : TypeStats :=
  {| total := total st; ready := ready st;
     needs_more := S (needs_more st); note := note st |}.

Definition set_note (n : string) (st : TypeStats) : TypeStats :=
  {| total := total st; ready := ready st;
     needs_more := needs_more st; note := n |}.

(** One turn of the loop of [get_final_submission_summary].  A question
    without the key [questionType] is filed under the label [Unknown]
    by this loop and reads as the empty label elsewhere; neither is
    [input] or [mcq] once lower-cased, so the counters do not depend on
    the label of such a question. *)
Definition summary_step (summary : FinalSummary) (q : Question) : FinalSummary :=
  let question_type := questionType q in
  let by_type0 :=
    match by_type summary !! question_type with
    | Some _ => by_type summary
    | None =>
        <[question_type :=
            {| total := 0; ready := 0; needs_more := 0; note := EmptyString |}]>
          (by_type summary)
    end in
  let by_type1 := alter bump_total question_type by_type0 in
  if String.eqb (PyStr.lower question_type) "input" then
    if _validate_question_for_final_submission q then
      {| total_questions := total_questions summary;
         total_input_questions := S (total_input_questions summary);
         total_mcq_questions := total_mcq_questions summary;
         ready_for_final := S (ready_for_final summary);
         needs_more_answers := needs_more_answers summary;
         non_eligible_questions := non_eligible_questions summary;
         by_type := alter bump_ready question_type by_type1 |}
    else
      let correct_count :=
        length (List.filter (fun a => isCorrect a && (0 <? rank a)) (answers q)) in
      if (0 <? correct_count)%nat && (correct_count <? 3)%nat then
        {| total_questions := total_questions summary;
           total_input_questions := S (total_input_questions summary);
           total_mcq_questions := total_mcq_questions summary;
           ready_for_final := ready_for_final summary;
           needs_more_answers := S (needs_more_answers summary);
           non_eligible_questions := non_eligible_questions summary;
           by_type := alter bump_needs_more question_type by_type1 |}
      else
        {| total_questions := total_questions summary;
           total_input_questions := S (total_input_questions summary);
           total_mcq_questions := total_mcq_questions summary;
           ready_for_final := ready_for_final summary;
           needs_more_answers := needs_more_answers summary;
           non_eligible_questions := non_eligible_questions summary;
           by_type := by_type1 |}
  else if String.eqb (PyStr.lower question_type) "mcq" then
    {| total_questions := total_questions summary;
       total_input_questions := total_input_questions summary;
       total_mcq_questions := S (total_mcq_questions summary);
       ready_for_final := ready_for_final summary;
       needs_more_answers := needs_more_answers summary;
       non_eligible_questions := S (non_eligible_questions summary);
       by_type :=
         alter (set_note "Ranked only (final endpoint rejects MCQ with 400 error)")
           question_type by_type1 |}
  else
    {| total_questions := total_questions summary;
       total_input_questions := total_input_questions summary;
       total_mcq_questions := total_mcq_questions summary;
       ready_for_final := ready_for_final summary;
       needs_more_answers := needs_more_answers summary;
       non_eligible_questions := S (non_eligible_questions summary);
       by_type :=
         alter (set_note "Not submitted to final (Input only based on debug evidence)")
           question_type by_type1 |}.

Definition get_final_submission_summary (questions : list Question)
  : FinalSummary :=
  fold_left summary_step questions
    {| total_questions := length questions;
       total_input_questions := 0; total_mcq_questions := 0;
       ready_for_final := 0; needs_more_answers := 0;
       non_eligible_questions := 0; by_type := ∅ |}.

End RankingService.

(** ** The entry of the final submission ([database/db_handler.py]) *)

Module FinalSubmission.
Import Remote Submission.

Section WithServer.
Variable Server : Type.
Variable serve : Request -> Server -> Reply * Server.

Definition submit_final_questions (questions : list Question)
  : M Server Result :=
  try_except
    (let final_questions :=
       Eligibility._prepare_questions_for_final_submission questions in
     if Eligibility.is_empty final_questions then
       ret {| submitted_count := 0;
              total_processed := Some (length questions);
              success := false;
              details := None |}
     else _handle_final_submission_with_updates serve final_questions)
    (ret {| submitted_count := 0;
            total_processed := Some (length questions);
            success := false;
            details := None |}).
End WithServer.

Arguments submit_final_questions {Server} serve questions.

End FinalSubmission.

(** ** The ranking run ([services/ranking_service.py])

    The methods of [RankingService] that call the database handler it
    was built with.  The handler is a parameter: a state of its own and
    one transition for each of the three methods called, which returns a
    value or raises.  Every call is appended to a log. *)

Module RankingRun.
Import RankingService.

Inductive DbCall : Type :=
| FetchAllQuestions
| BulkUpdateQuestions (questions : list Question)
| SubmitFinalQuestions (questions : list Question).

(** The keys of the result of [bulk_update_questions] that are read. *)
Record UpdateResult : Type := mkUpdateResult {
  updated_count : nat;
  failed_count : nat
}.

(** The result of [process_all_questions]; the key [validation_failed]
    is absent from the result of a run that found no question. *)
Record RankingResult : Type := mkRankingResult {
  result_total_questions : nat;
  result_processed_count : nat;
  result_skipped_count : nat;
  result_updated_count : nat;
  result_failed_count : nat;
  result_answers_ranked : nat;
  result_answers_scored : nat;
  result_validation_failed : option nat
}.

(** The result of [process_all_questions_with_final_submission],
    without [final_submission_message]; [final_submission_details] is
    [None] for the empty dict. *)
Record RunResult : Type := mkRunResult {
  ranking : RankingResult;
  final_submitted_count : nat;
  final_submission_success : bool;
  final_ready_count : nat;
  final_needs_more_count : nat;
  final_submission_details : option Submission.Details
}.

Section WithHandler.
Variable scoring_values : list Z.
Variable validate_question : Question -> bool.
Variable Db : Type.
Variable fetch_all_questions : Db -> option (list Question) * Db.
Variable bulk_update_questions : list Question -> Db -> option UpdateResult * Db.
Variable submit_final_questions :
  list Question -> Db -> option Submission.Result * Db.

Record State : Type := mkState {
  db : Db;
  calls : list DbCall
}.

Definition Run (A : Type) : Type := State -> Remote.Outcome A * State.

Definition ret {A} (a : A) : Run A := fun st => (Remote.Ret a, st).

Definition bind {A B} (c : Run A) (k : A -> Run B) : Run B :=
  fun st =>
    match c st with
    | (Remote.Ret a, st') => k a st'
    | (Remote.Exn, st') => (Remote.Exn, st')
    end.

(** A call of a method of the handler. *)
Definition call {A} (c : DbCall) (f : Db -> option A * Db) : Run A :=
  fun st =>
    let '(r, d) := f (db st) in
    let st' := {| db := d; calls := calls st ++ [c] |} in
    match r with
    | Some a => (Remote.Ret a, st')
    | None => (Remote.Exn, st')
    end.

Notation "'let!' x ':=' c 'in' k" := (bind c (fun x => k))
  (at level 10, x name, c at level 100, k at level 200).

Definition _fetch_questions : Run (list Question) :=
  call FetchAllQuestions fetch_all_questions.

Definition _create_empty_result : RankingResult :=
  {| result_total_questions := 0; result_processed_count := 0;
     result_skipped_count := 0; result_updated_count := 0;
     result_failed_count := 0; result_answers_ranked := 0;
     result_answers_scored := 0; result_validation_failed := None |}.

Definition _update_processed_questions (processed_questions : list Question)
  : Run UpdateResult :=
  if Eligibility.is_empty processed_questions then
    ret {| updated_count := 0; failed_count := 0 |}
  else
    call (BulkUpdateQuestions processed_questions)
         (bulk_update_questions processed_questions).

Definition _combine_results (processing_result : Batch)
    (update_result : UpdateResult) (total_questions : nat) : RankingResult :=
  {| result_total_questions := total_questions;
     result_processed_count := processed_count processing_result;
     result_skipped_count := skipped_count processing_result;
     result_updated_count := updated_count update_result;
     result_failed_count := failed_count update_result;
     result_answers_ranked := total_answers_ranked processing_result;
     result_answers_scored := total_answers_scored processing_result;
     result_validation_failed :=
       Some (validation_failed_count processing_result) |}.

(** The handler of an exception logs it and raises it again. *)
Definition process_all_questions : Run RankingResult :=
  let! questions := _fetch_questions in
  if Eligibility.is_empty questions then ret _create_empty_result
  else
    let processing_result :=
      _process_questions_batch scoring_values validate_question questions in
    let! update_result :=
      _update_processed_questions (processed_questions processing_result) in
    ret (_combine_results processing_result update_result (length questions)).

Definition process_all_questions_with_final_submission : Run RunResult :=
  let! ranking_result := process_all_questions in
  if (0 <? result_updated_count ranking_result)%nat then
    let! updated_questions := _fetch_questions in
    let final_summary := get_final_submission_summary updated_questions in
    let! final_result :=
      (if (0 <? ready_for_final final_summary)%nat then
         call (SubmitFinalQuestions updated_questions)
              (submit_final_questions updated_questions)
       else
         ret {| Submission.submitted_count := 0;
                Submission.total_processed := Some (length updated_questions);
                Submission.success := false;
                Submission.details := None |}) in
    ret {| ranking := ranking_result;
           final_submitted_count := Submission.submitted_count final_result;
           final_submission_success := Submission.success final_result;
           final_ready_count := ready_for_final final_summary;
           final_needs_more_count := needs_more_answers final_summary;
           final_submission_details := Submission.details final_result |}
  else
    ret {| ranking := ranking_result;
           final_submitted_count := 0;
           final_submission_success := false;
           final_ready_count := 0;
           final_needs_more_count := 0;
           final_submission_details := None |}.
End WithHandler.

Arguments db {Db} s.
Arguments calls {Db} s.
Arguments mkState {Db} db calls.
Arguments process_all_questions
  scoring_values validate_question {Db} fetch_all_questions bulk_update_questions.
Arguments process_all_questions_with_final_submission
  scoring_values validate_question {Db}
  fetch_all_questions bulk_update_questions submit_final_questions.

End RankingRun.

(** ** Sample data *)

Module Sample.

(** The end-to-end scenario of the specification: four correct answers
    with response counts 10, 7, 7, 2, and one incorrect answer that
    carries a stale rank and score, ranked with the scoring table
    [100; 80; 60]. *)

Definition scoring : list Z := [100; 80; 60].

Definition records : list Answer :=
  [ mkAnswer "Paris" true 7 0 0;
    mkAnswer "Rome" false 3 9 9;
    mkAnswer "Lyon" true 10 0 0;
    mkAnswer " Nice " true 7 0 0;
    mkAnswer "Metz" true 2 0 0 ].

Definition store : AnswerRanker.store := AnswerRanker.objects records.

Definition refs : list AnswerRanker.ref := AnswerRanker.refs records.

(** An MCQ question that meets every condition of the MCQ rule. *)
Definition mcq : Question :=
  {| _id := Some "q-mcq"; question := "Capital of France?";
     questionType := "MCQ"; questionCategory := "Geography";
     questionLevel := "Beginner"; timesSkipped := 1; timesAnswered := 12;
     answers := [ mkAnswer " Paris" true 9 1 100;
                  mkAnswer "Rome" false 1 0 0;
                  mkAnswer "Lyon " false 2 0 0;
                  mkAnswer "Metz" false 0 0 0 ];
     _existing_id := None |}.

(** The same question with a second answer marked correct. *)
Definition mcq_two_correct : Question :=
  {| _id := Some "q-mcq2"; question := "Capital of France?";
     questionType := "mcq"; questionCategory := "Geography";
     questionLevel := "Beginner"; timesSkipped := 1; timesAnswered := 12;
     answers := [ mkAnswer " Paris" true 9 1 100;
                  mkAnswer "Rome" true 1 2 80;
                  mkAnswer "Lyon " false 2 0 0;
                  mkAnswer "Metz" false 0 0 0 ];
     _existing_id := None |}.

(** An Input question whose answers are the ranked records above. *)
Definition input : Question :=
  {| _id := Some "q-input"; question := " Name a French city ";
     questionType := "Input"; questionCategory := "Geography";
     questionLevel := "Beginner"; timesSkipped := 0; timesAnswered := 26;
     answers := [ mkAnswer "Lyon" true 10 1 100;
                  mkAnswer "Paris" true 7 2 80;
                  mkAnswer " Nice " true 7 3 60;
                  mkAnswer "Metz" true 2 4 0;
                  mkAnswer "Rome" false 3 0 0 ];
     _existing_id := None |}.

(** A final record whose question text is blank, and a remote copy
    of it. *)
Definition blank_local : Question :=
  {| _id := None; question := "   ";
     questionType := "Input"; questionCategory := "Geography";
     questionLevel := "Beginner"; timesSkipped := 0; timesAnswered := 26;
     answers := [ mkAnswer "Lyon" true 10 1 100;
                  mkAnswer "Paris" true 7 2 80;
                  mkAnswer "Nice" true 7 3 60 ];
     _existing_id := None |}.

Definition blank_remote : Question :=
  {| _id := Some "r-blank"; question := "   ";
     questionType := "Input"; questionCategory := "Geography";
     questionLevel := "Beginner"; timesSkipped := 0; timesAnswered := 26;
     answers := answers blank_local;
     _existing_id := None |}.

(** A final record and the remote record of the same question:
    the same answers up to letter case and blanks, in another order. *)
Definition city_local : Question :=
  {| _id := None; question := "Name a French city";
     questionType := "Input"; questionCategory := "Geography";
     questionLevel := "Beginner"; timesSkipped := 0; timesAnswered := 26;
     answers := [ mkAnswer "Lyon" true 10 1 100;
                  mkAnswer "Paris" true 7 2 80;
                  mkAnswer "Nice" true 7 3 60 ];
     _existing_id := None |}.

Definition city_remote : Question :=
  {| _id := Some "r-city"; question := " name a french CITY ";
     questionType := "Input"; questionCategory := "Geography";
     questionLevel := "Beginner"; timesSkipped := 0; timesAnswered := 20;
     answers := [ mkAnswer " PARIS" true 7 2 80;
                  mkAnswer "nice " true 7 3 60;
                  mkAnswer "lyon" true 10 1 100 ];
     _existing_id := None |}.

(** Two answers with the same text and the same rank but different
    scores, and the remote record that lists them the other way
    round. *)
Definition tie_local : Question :=
  {| _id := None; question := "Name a river";
     questionType := "Input"; questionCategory := "Geography";
     questionLevel := "Beginner"; timesSkipped := 0; timesAnswered := 9;
     answers := [ mkAnswer "Loire" true 5 1 100;
                  mkAnswer "loire " true 4 1 80;
                  mkAnswer "Seine" true 3 2 60 ];
     _existing_id := None |}.

Definition tie_remote : Question :=
  {| _id := Some "r-river"; question := "Name a river";
     questionType := "Input"; questionCategory := "Geography";
     questionLevel := "Beginner"; timesSkipped := 0; timesAnswered := 9;
     answers := [ mkAnswer "loire " true 4 1 80;
                  mkAnswer "Loire" true 5 1 100;
                  mkAnswer "Seine" true 3 2 60 ];
     _existing_id := None |}.

(** An older remote record of the same question, with other answers. *)
Definition city_remote_stale : Question :=
  {| _id := Some "r-city-old"; question := "Name a French city";
     questionType := "Input"; questionCategory := "Geography";
     questionLevel := "Beginner"; timesSkipped := 0; timesAnswered := 3;
     answers := [ mkAnswer "Paris" true 2 1 100;
                  mkAnswer "Nice" true 1 2 80;
                  mkAnswer "Lille" true 1 3 60 ];
     _existing_id := None |}.

(** A store that holds a final collection: it answers the fetch with
    its records, takes what a create call sends and accepts every
    update. *)
Definition serve (req : Remote.Request) (collection : list Question)
  : Remote.Reply * list Question :=
  match Remote.method req with
  | Remote.GET => (Remote.Replied (Remote.mkResponse true collection), collection)
  | Remote.POST =>
      (Remote.Replied (Remote.mkResponse true []),
       collection ++ Remote.payload req)
  | _ => (Remote.Replied (Remote.mkResponse true []), collection)
  end.

(** The same store when its fetch endpoint is out of order. *)
Definition serve_fetch_down (req : Remote.Request) (collection : list Question)
  : Remote.Reply * list Question :=
  match Remote.method req with
  | Remote.GET => (Remote.Raised, collection)
  | _ => serve req collection
  end.

Definition world (collection : list Question) : Remote.World (list Question) :=
  Remote.mkWorld collection [].

End Sample.

(** ** The update attempts and the size of a conversation *)

Module Attempts.
Import Remote.

(** The requests that [_update_single_final_question] may make, in the
    order of its two loops. *)
Definition update_attempts (question_id : string)
    (update_payload : list Question) : list Request :=
  [ mkRequest PUT (FinalItem question_id) update_payload;
    mkRequest PATCH (FinalItem question_id) update_payload;
    mkRequest PUT FinalCollection update_payload;
    mkRequest PATCH FinalCollection update_payload ].

(** A reply that the code takes for a success. *)
Definition accepted (reply : Reply) : bool :=
  match reply with
  | Replied r => is_success_response r
  | Raised => false
  end.

(** [c] makes at most [n] requests. *)
Definition issues_at_most {Server A} (n : nat) (c : M Server A) : Prop :=
  forall w, exists requests,
    log (snd (c w)) = log w ++ requests /\ (length requests <= n)%nat.

(** [c] ends with a value: no exception leaves it. *)
Definition never_raises {Server A} (c : M Server A) : Prop :=
  forall w, exists a, fst (c w) = Ret a.

(** Every value that [c] returns satisfies [Q]. *)
Definition returns {Server A} (c : M Server A) (Q : A -> Prop) : Prop :=
  forall w, match fst (c w) with Ret a => Q a | Exn => True end.

End Attempts.

(** ** More sample data *)

Module SampleRuns.

(** The records of [Sample.records] as they come back after an earlier
    run: the same texts, flags and counts, with the ranks and scores of
    that run. *)
Definition records_reranked : list Answer :=
  [ mkAnswer "Paris" true 7 2 80;
    mkAnswer "Rome" false 3 0 0;
    mkAnswer "Lyon" true 10 1 100;
    mkAnswer " Nice " true 7 3 60;
    mkAnswer "Metz" true 2 4 0 ].

(** The final record of [Sample.input]. *)
Definition input_final : Question :=
  {| _id := None; question := " Name a French city ";
     questionType := "Input"; questionCategory := "Geography";
     questionLevel := "Beginner"; timesSkipped := 0; timesAnswered := 26;
     answers := [ mkAnswer "Lyon" true 10 1 100;
                  mkAnswer "Paris" true 7 2 80;
                  mkAnswer "Nice" true 7 3 60 ];
     _existing_id := None |}.

End SampleRuns.

(** * Properties *)

(** ** The stable sort *)

Section PySortFacts.
Context {A : Type} (le : A -> A -> bool).

Lemma py_insert_Permutation x l : py_insert le x l ≡ₚ x :: l.
Proof.
  induction l as [|y l IH]; simpl; [done|].
  destruct (le x y); [done|].
  rewrite IH. apply perm_swap.
Qed.

Lemma py_sort_Permutation l : py_sort le l ≡ₚ l.
Proof.
  induction l as [|x l IH]; simpl; [done|].
  rewrite py_insert_Permutation. by f_equiv.
Qed.

Lemma py_sort_length l : length (py_sort le l) = length l.
Proof. apply Permutation_length, py_sort_Permutation. Qed.

Lemma py_sort_elem_of x l : x ∈ py_sort le l ↔ x ∈ l.
Proof. by rewrite py_sort_Permutation. Qed.

Lemma py_sort_NoDup l : NoDup l → NoDup (py_sort le l).
Proof. by rewrite py_sort_Permutation. Qed.

(** Insertion keeps the relative order of the elements already there. *)
Lemma py_insert_sublist k x l : k `sublist_of` l → k `sublist_of` py_insert le x l.
Proof.
  revert k. induction l as [|y l IH]; intros k Hk; simpl.
  - by apply sublist_cons.
  - destruct (le x y); [by apply sublist_cons|].
    inversion Hk; subst.
    + apply sublist_skip. by apply IH.
    + apply sublist_cons. by apply IH.
Qed.

(** The inserted element lands in front of every element it is [le] to. *)
Lemma py_insert_before x y l :
  y ∈ l → le x y = true → [x; y] `sublist_of` py_insert le x l.
Proof.
  induction l as [|z l IH]; intros Hy Hle; simpl.
  - by apply elem_of_nil in Hy.
  - destruct (le x z) eqn:Hxz.
    + apply sublist_skip. by apply singleton_sublist_l.
    + apply elem_of_cons in Hy as [->|Hy]; [congruence|].
      apply sublist_cons. by apply IH.
Qed.

(** Stability: [x] before [y] in the input and [le x y] give [x] before
    [y] in the output. *)
Lemma py_sort_stable x y l :
  [x; y] `sublist_of` l → le x y = true → [x; y] `sublist_of` py_sort le l.
Proof.
  induction l as [|z l IH]; intros Hsub Hle; simpl.
  - inversion Hsub.
  - inversion Hsub; subst.
    + apply py_insert_before; [|done].
      apply py_sort_elem_of. by apply singleton_sublist_l.
    + apply py_insert_sublist. by apply IH.
Qed.

Hypothesis le_total : ∀ x y, le x y = true ∨ le y x = true.
Hypothesis le_trans : ∀ x y z, le x y = true → le y z = true → le x z = true.

Lemma py_insert_sorted x l :
  StronglySorted (λ a b, le a b = true) l →
  StronglySorted (λ a b, le a b = true) (py_insert le x l).
Proof.
  induction 1 as [|y l Hs IH Hall]; simpl.
  - repeat constructor.
  - destruct (le x y) eqn:Hxy.
    + constructor; [by constructor|].
      constructor; [done|].
      eapply Forall_impl; [exact Hall|]. intros z Hz. by eapply le_trans.
    + constructor; [done|].
      rewrite py_insert_Permutation. constructor; [|done].
      destruct (le_total x y); congruence.
Qed.

Lemma py_sort_sorted l : StronglySorted (λ a b, le a b = true) (py_sort le l).
Proof.
  induction l as [|x l IH]; simpl; [constructor|].
  by apply py_insert_sorted.
Qed.

(** Two inputs with the same elements sort to the same list when the
    order tells the elements of the input apart. *)
Lemma py_sort_unique l1 l2 :
  l1 ≡ₚ l2 →
  (∀ x y, x ∈ l1 → y ∈ l1 → le x y = true → le y x = true → x = y) →
  py_sort le l1 = py_sort le l2.
Proof.
  intros Hperm Hanti.
  apply (StronglySorted_unique_strong (λ a b, le a b = true)).
  - intros x y Hx Hy.
    apply (proj1 (py_sort_elem_of x l1)) in Hx.
    apply (proj1 (py_sort_elem_of y l2)) in Hy.
    rewrite <- Hperm in Hy. by apply Hanti.
  - apply py_sort_sorted.
  - apply py_sort_sorted.
  - by rewrite !py_sort_Permutation.
Qed.
End PySortFacts.

(** The order of strings. *)
Lemma string_compare_refl s : String.compare s s = Eq.
Proof.
  induction s as [|a s IH]; simpl; [done|].
  unfold Ascii.compare. by rewrite N.compare_refl.
Qed.

Lemma string_compare_lt_trans s1 : ∀ s2 s3,
  String.compare s1 s2 = Lt → String.compare s2 s3 = Lt →
  String.compare s1 s3 = Lt.
Proof.
  induction s1 as [|a s1 IH]; intros [|b s2] [|c s3]; simpl; try done.
  unfold Ascii.compare.
  destruct (N.compare_spec (N_of_ascii a) (N_of_ascii b)) as [E1|L1|G1];
    destruct (N.compare_spec (N_of_ascii b) (N_of_ascii c)) as [E2|L2|G2];
    try done; intros H1 H2.
  - rewrite E1, E2, N.compare_refl. by eapply IH.
  - rewrite E1. apply N.compare_lt_iff in L2. by rewrite L2.
  - rewrite <- E2. apply N.compare_lt_iff in L1. by rewrite L1.
  - assert (N_of_ascii a < N_of_ascii c)%N as L by lia.
    apply N.compare_lt_iff in L. by rewrite L.
Qed.

(** Two positions witness a two-element sublist. *)
Lemma sublist_pair_lookup {A} (x y : A) (l : list A) :
  [x; y] `sublist_of` l ↔
  ∃ i j, (i < j)%nat ∧ l !! i = Some x ∧ l !! j = Some y.
Proof.
  split.
  - intros H. apply sublist_cons_l in H as (k1 & k2 & -> & H).
    apply sublist_cons_l in H as (k3 & k4 & -> & _).
    exists (length k1), (length k1 + S (length k3))%nat.
    split; [lia|]. split.
    + by rewrite list_lookup_middle.
    + rewrite lookup_app_r by lia.
      replace (length k1 + S (length k3) - length k1)%nat with (S (length k3)) by lia.
      simpl. by rewrite list_lookup_middle.
  - intros (i & j & Hij & Hi & Hj).
    apply take_drop_middle in Hi. rewrite <- Hi.
    apply sublist_inserts_l, sublist_skip.
    apply singleton_sublist_l.
    apply list_elem_of_lookup. exists (j - S i)%nat.
    rewrite lookup_drop. rewrite <- Hj. f_equal. lia.
Qed.

(** Counting through [List.filter] is invariant under permutation. *)
Lemma filter_length_Permutation {A} (f : A → bool) (l l' : list A) :
  l ≡ₚ l' → length (List.filter f l) = length (List.filter f l').
Proof.
  induction 1 as [|x l l' _ IH|x y l|l l' l'' _ IH1 _ IH2]; simpl.
  - done.
  - destruct (f x); simpl; congruence.
  - destruct (f x), (f y); simpl; done.
  - congruence.
Qed.

Lemma filter_length_ext_index {A} (f : A → bool) (g : nat → bool) (l : list A) i :
  (∀ j a, l !! j = Some a → f a = g (i + j)%nat) →
  length (List.filter f l) = length (List.filter g (seq i (length l))).
Proof.
  revert i. induction l as [|x l IH]; intros i H; simpl; [done|].
  rewrite (H 0%nat x eq_refl), Nat.add_0_r.
  assert (length (List.filter f l) = length (List.filter g (seq (S i) (length l)))) as E.
  { apply IH. intros j a Hj. rewrite (H (S j) a Hj). f_equal. lia. }
  destruct (g i); simpl; congruence.
Qed.

Lemma filter_all_false {A} (f : A → bool) (l : list A) :
  (∀ a, a ∈ l → f a = false) → List.filter f l = [].
Proof.
  induction l as [|x l IH]; intros H; simpl; [done|].
  rewrite (H x) by apply list_elem_of_here.
  apply IH. intros a Ha. apply H. by apply list_elem_of_further.
Qed.

Lemma filter_all_true {A} (f : A → bool) (l : list A) :
  (∀ a, a ∈ l → f a = true) → List.filter f l = l.
Proof.
  induction l as [|x l IH]; intros H; simpl; [done|].
  rewrite (H x) by apply list_elem_of_here.
  f_equal. apply IH. intros a Ha. apply H. by apply list_elem_of_further.
Qed.

Lemma elem_of_List_filter {A} (f : A → bool) (l : list A) x :
  x ∈ List.filter f l ↔ x ∈ l ∧ f x = true.
Proof. rewrite !list_elem_of_In. apply filter_In. Qed.

Lemma NoDup_List_filter {A} (f : A → bool) (l : list A) :
  NoDup l → NoDup (List.filter f l).
Proof.
  induction 1 as [|x l Hx Hl IH]; simpl; [constructor|].
  destruct (f x); [|done].
  constructor; [|done]. rewrite elem_of_List_filter. tauto.
Qed.

(** The two halves of a partition by a boolean are a permutation of the
    whole. *)
Lemma filter_partition_Permutation {A} (f : A → bool) (l : list A) :
  List.filter f l ++ List.filter (λ a, negb (f a)) l ≡ₚ l.
Proof.
  induction l as [|x l IH]; simpl; [done|].
  destruct (f x); simpl.
  - by f_equiv.
  - rewrite <- Permutation_middle. by f_equiv.
Qed.

Lemma StronglySorted_mono {A} (R R' : relation A) (l : list A) :
  (∀ x y, R x y → R' x y) → StronglySorted R l → StronglySorted R' l.
Proof.
  intros HR. induction 1 as [|a l _ IH Hall]; constructor; [done|].
  eapply Forall_impl; [exact Hall|]. intros y. apply HR.
Qed.

Lemma StronglySorted_lookup_lt {A} (R : relation A) (l : list A) :
  StronglySorted R l →
  ∀ i j x y, (i < j)%nat → l !! i = Some x → l !! j = Some y → R x y.
Proof.
  induction 1 as [|a l _ IH Hall]; intros i j x y Hij Hi Hj; [done|].
  destruct j as [|j]; [lia|]. simpl in Hj.
  destruct i as [|i]; simpl in Hi.
  - injection Hi as ->. rewrite Forall_forall in Hall.
    apply Hall. by eapply list_elem_of_lookup_2.
  - apply (IH i j); [lia|done..].
Qed.

(** ** The answer ranker *)

Module RankerProps.
Import AnswerRanker.

Lemma write_eq h r a : write h r a r = a.
Proof. unfold write. by rewrite Nat.eqb_refl. Qed.

Lemma write_ne h r a r' : r' ≠ r → write h r a r' = h r'.
Proof. unfold write. intros H. apply Nat.eqb_neq in H. by rewrite H. Qed.

Section WithScoring.
Variable scoring_values : list Z.

Lemma rank_loop_other l : ∀ i h r s a,
  a ∉ l → (rank_loop scoring_values i l h r s).1.1 a = h a.
Proof.
  induction l as [|x l IH]; intros i h r s a Ha; simpl; [done|].
  apply not_elem_of_cons in Ha as [Hne Ha].
  rewrite IH by done. rewrite !write_ne; done.
Qed.

Lemma rank_loop_at l : ∀ i h r s j a,
  NoDup l → l !! j = Some a →
  (rank_loop scoring_values i l h r s).1.1 a
  = set_score (score_for scoring_values (i + j))
      (set_rank (Z.of_nat (i + j) + 1) (h a)).
Proof.
  induction l as [|x l IH]; intros i h r s j a Hnd Hj; simpl; [done|].
  apply NoDup_cons in Hnd as [Hx Hnd].
  destruct j as [|j]; simpl in Hj.
  - injection Hj as ->. rewrite rank_loop_other by done.
    rewrite !write_eq, Nat.add_0_r. done.
  - assert (a ≠ x) as Hne.
    { intros ->. apply Hx. by eapply list_elem_of_lookup_2. }
    rewrite (IH _ _ _ _ j a) by done.
    rewrite !write_ne by done.
    by replace (S i + j)%nat with (i + S j)%nat by lia.
Qed.

Lemma rank_loop_ranked l : ∀ i h r s,
  (rank_loop scoring_values i l h r s).1.2 = (r + length l)%nat.
Proof.
  induction l as [|x l IH]; intros i h r s; simpl; [lia|].
  rewrite IH. lia.
Qed.

Lemma rank_loop_scored l : ∀ i h r s,
  (rank_loop scoring_values i l h r s).2
  = (s + length (List.filter (λ j, (0 <? score_for scoring_values j)%Z)
                   (seq i (length l))))%nat.
Proof.
  induction l as [|x l IH]; intros i h r s; simpl; [lia|].
  rewrite IH. destruct (0 <? score_for scoring_values i); simpl; lia.
Qed.

Lemma reset_other l : ∀ h a,
  a ∉ l → _reset_incorrect_answers h l a = h a.
Proof.
  induction l as [|x l IH]; intros h a Ha; simpl; [done|].
  apply not_elem_of_cons in Ha as [Hne Ha].
  rewrite IH by done. rewrite !write_ne; done.
Qed.

Lemma reset_at l : ∀ h a,
  a ∈ l → _reset_incorrect_answers h l a = set_score 0 (set_rank 0 (h a)).
Proof.
  induction l as [|x l IH]; intros h a Ha; simpl.
  - by apply elem_of_nil in Ha.
  - destruct (decide (a ∈ l)) as [Hin|Hnin].
    + rewrite IH by done.
      destruct (decide (a = x)) as [->|Hne].
      * by rewrite !write_eq.
      * by rewrite !write_ne.
    + apply elem_of_cons in Ha as [->|Ha]; [|done].
      rewrite reset_other by done. by rewrite !write_eq.
Qed.

(** What [rank_answers] returns, part by part. *)
Lemma rank_answers_unfold h answers :
  let correct := List.filter (λ a, isCorrect (h a)) answers in
  let incorrect := List.filter (λ a, negb (isCorrect (h a))) answers in
  let sorted := py_sort (by_count_desc h) correct in
  rank_answers scoring_values h answers
  = (_reset_incorrect_answers
       (rank_loop scoring_values 0 sorted h 0 0).1.1 incorrect,
     sorted ++ incorrect,
     (rank_loop scoring_values 0 sorted h 0 0).1.2,
     (rank_loop scoring_values 0 sorted h 0 0).2).
Proof.
  cbv zeta. unfold rank_answers. destruct answers as [|x l] eqn:E; [done|].
  rewrite <- E. unfold _separate_answers, _rank_correct_answers.
  destruct (List.filter (λ a, isCorrect (h a)) answers) as [|c cs] eqn:Ec.
  - done.
  - by destruct (rank_loop scoring_values 0 _ h 0 0) as [[h' r'] s'].
Qed.

Lemma same_content_set a r s : same_content (set_score s (set_rank r a)) a.
Proof. by repeat split. Qed.

Lemma same_content_trans a b c :
  same_content a b → same_content b c → same_content a c.
Proof. unfold same_content. intuition congruence. Qed.

Lemma write_content h x r s a :
  same_content
    (write (write h x (set_rank r (h x))) x
       (set_score s (write h x (set_rank r (h x)) x)) a)
    (h a).
Proof.
  destruct (decide (a = x)) as [->|Hne].
  - rewrite !write_eq. apply same_content_set.
  - rewrite !write_ne by done. by repeat split.
Qed.

Lemma rank_loop_content l : ∀ i h r s a,
  same_content ((rank_loop scoring_values i l h r s).1.1 a) (h a).
Proof.
  induction l as [|x l IH]; intros i h r s a; simpl; [by repeat split|].
  eapply same_content_trans; [apply IH|apply write_content].
Qed.

Lemma reset_content l : ∀ h a,
  same_content (_reset_incorrect_answers h l a) (h a).
Proof.
  induction l as [|x l IH]; intros h a; simpl; [by repeat split|].
  eapply same_content_trans; [apply IH|apply write_content].
Qed.

Lemma by_count_desc_total h x y :
  by_count_desc h x y = true ∨ by_count_desc h y x = true.
Proof. unfold by_count_desc. rewrite !Z.leb_le. lia. Qed.

Lemma by_count_desc_trans h x y z :
  by_count_desc h x y = true → by_count_desc h y z = true →
  by_count_desc h x z = true.
Proof. unfold by_count_desc. rewrite !Z.leb_le. lia. Qed.

(** The state of the store when [rank_answers] returns. *)
Lemma final_content h answers a :
  same_content ((rank_answers scoring_values h answers).1.1.1 a) (h a).
Proof.
  rewrite rank_answers_unfold. simpl.
  eapply same_content_trans; [apply reset_content|apply rank_loop_content].
Qed.

Lemma final_other h answers a :
  a ∉ answers → (rank_answers scoring_values h answers).1.1.1 a = h a.
Proof.
  intros Ha. rewrite rank_answers_unfold. simpl.
  rewrite reset_other, rank_loop_other; [done| |].
  - rewrite py_sort_elem_of, elem_of_List_filter. tauto.
  - rewrite elem_of_List_filter. tauto.
Qed.

Lemma final_incorrect h answers a :
  a ∈ answers → isCorrect (h a) = false →
  (rank_answers scoring_values h answers).1.1.1 a
  = set_score 0 (set_rank 0 (h a)).
Proof.
  intros Ha Hc. rewrite rank_answers_unfold. simpl.
  rewrite reset_at, rank_loop_other; [done| |].
  - rewrite py_sort_elem_of, elem_of_List_filter. intros [_ ?]. congruence.
  - rewrite elem_of_List_filter. by rewrite Hc.
Qed.

Lemma final_correct h answers j a :
  NoDup answers →
  py_sort (by_count_desc h) (List.filter (λ a, isCorrect (h a)) answers) !! j
  = Some a →
  (rank_answers scoring_values h answers).1.1.1 a
  = set_score (score_for scoring_values j) (set_rank (Z.of_nat j + 1) (h a)).
Proof.
  intros Hnd Hj. rewrite rank_answers_unfold. simpl.
  rewrite reset_other.
  - rewrite (rank_loop_at _ _ _ _ _ j a); [done| |done].
    by apply py_sort_NoDup, NoDup_List_filter.
  - rewrite elem_of_List_filter.
    apply list_elem_of_lookup_2 in Hj.
    apply py_sort_elem_of, elem_of_List_filter in Hj as [_ Hc].
    rewrite Hc. simpl. intros [_ ?]. done.
Qed.

Lemma final_out h answers :
  (rank_answers scoring_values h answers).1.1.2
  = py_sort (by_count_desc h) (List.filter (λ a, isCorrect (h a)) answers)
    ++ List.filter (λ a, negb (isCorrect (h a))) answers.
Proof. by rewrite rank_answers_unfold. Qed.

Lemma final_ranked h answers :
  (rank_answers scoring_values h answers).1.2
  = length (List.filter (λ a, isCorrect (h a)) answers).
Proof.
  rewrite rank_answers_unfold. simpl.
  by rewrite rank_loop_ranked, py_sort_length.
Qed.

Lemma final_scored h answers :
  (rank_answers scoring_values h answers).2
  = length (List.filter (λ j, (0 <? score_for scoring_values j)%Z)
              (seq 0 (length (List.filter (λ a, isCorrect (h a)) answers)))).
Proof.
  rewrite rank_answers_unfold. simpl.
  by rewrite rank_loop_scored, py_sort_length.
Qed.

(** C4. After [rank_answers], every answer of the list whose
    correctness flag is false has rank 0 and score 0, whatever rank
    and score it carried in the store on input; its flag is still
    false. *)
Theorem rank_answers_incorrect_zero h answers a :
  a ∈ answers → isCorrect (h a) = false →
  let h' := (rank_answers scoring_values h answers).1.1.1 in
  isCorrect (h' a) = false ∧ rank (h' a) = 0 ∧ score (h' a) = 0.
Proof.
  intros Ha Hc h'. subst h'. rewrite final_incorrect by done. by simpl.
Qed.

Lemma sublist_List_filter {A} (f : A → bool) (k l : list A) :
  k `sublist_of` l → List.filter f k `sublist_of` List.filter f l.
Proof.
  induction 1 as [|x k l _ IH|x k l _ IH]; simpl.
  - constructor.
  - destruct (f x); [by constructor|done].
  - destruct (f x); [by constructor|done].
Qed.

(** The ranks in a store: for pairwise distinct references, the first
    [k] references returned are the correct ones, with the ranks
    1, ..., k in this order; a strictly greater count gives a strictly
    smaller rank, equal counts keep the order of the input; the scores
    are those of the table. *)
Lemma ranks_of_distinct_refs h answers :
  NoDup answers →
  let h' := (rank_answers scoring_values h answers).1.1.1 in
  let out := (rank_answers scoring_values h answers).1.1.2 in
  let correct := List.filter (λ a, isCorrect (h a)) answers in
  let k := length correct in
  take k out ≡ₚ correct
  ∧ (λ a, rank (h' a)) <$> take k out = (λ i, Z.of_nat i + 1) <$> seq 0 k
  ∧ (∀ a b, a ∈ correct → b ∈ correct →
       responseCount (h b) < responseCount (h a) →
       rank (h' a) < rank (h' b))
  ∧ (∀ a b, [a; b] `sublist_of` answers →
       isCorrect (h a) = true → isCorrect (h b) = true →
       responseCount (h a) = responseCount (h b) →
       rank (h' a) < rank (h' b))
  ∧ (∀ i a, (i < k)%nat → out !! i = Some a →
       rank (h' a) = Z.of_nat i + 1
       ∧ (∀ s, scoring_values !! i = Some s → score (h' a) = s)
       ∧ ((length scoring_values ≤ i)%nat → score (h' a) = 0)).
Proof.
  intros Hnd h' out correct k.
  set (sorted := py_sort (by_count_desc h) correct).
  assert (out = sorted ++ List.filter (λ a, negb (isCorrect (h a))) answers)
    as Hout by apply final_out.
  assert (length sorted = k) as Hlen by apply py_sort_length.
  assert (take k out = sorted) as Htake.
  { rewrite Hout, <- Hlen. apply take_app_length. }
  assert (∀ j a, sorted !! j = Some a →
            h' a = set_score (score_for scoring_values j)
                     (set_rank (Z.of_nat j + 1) (h a))) as Hat.
  { intros j a Hj. by apply final_correct. }
  assert (StronglySorted (λ x y, by_count_desc h x y = true) sorted) as Hsorted.
  { apply py_sort_sorted;
      [apply by_count_desc_total|apply by_count_desc_trans]. }
  assert (∀ a b, [a; b] `sublist_of` sorted → rank (h' a) < rank (h' b)) as Hpos.
  { intros a b (i & j & Hij & Hi & Hj)%sublist_pair_lookup.
    rewrite (Hat i a Hi), (Hat j b Hj). simpl. lia. }
  rewrite Htake. split; [|split; [|split; [|split]]].
  - apply py_sort_Permutation.
  - apply list_eq. intros i. rewrite !list_lookup_fmap.
    destruct (sorted !! i) as [a|] eqn:Hi; simpl.
    + rewrite lookup_seq_lt by (apply lookup_lt_Some in Hi; lia). simpl.
      by rewrite (Hat i a Hi).
    + rewrite lookup_seq_ge by (apply lookup_ge_None in Hi; lia). done.
  - intros a b Ha Hb Hlt.
    apply (py_sort_elem_of (by_count_desc h)), list_elem_of_lookup_1 in Ha as [i Hi].
    apply (py_sort_elem_of (by_count_desc h)), list_elem_of_lookup_1 in Hb as [j Hj].
    fold sorted in Hi, Hj.
    destruct (Nat.lt_total i j) as [Hij|[->|Hji]].
    + apply Hpos, sublist_pair_lookup. eauto.
    + rewrite Hi in Hj. injection Hj as ->. lia.
    + pose proof (StronglySorted_lookup_lt _ _ Hsorted j i b a Hji Hj Hi) as Hle.
      unfold by_count_desc in Hle. apply Z.leb_le in Hle. lia.
  - intros a b Hsub Ha Hb Heq. apply Hpos, py_sort_stable.
    + apply (sublist_List_filter (λ a, isCorrect (h a))) in Hsub.
      simpl in Hsub. by rewrite Ha, Hb in Hsub.
    + unfold by_count_desc. apply Z.leb_le. lia.
  - intros i a Hik Hia.
    assert (sorted !! i = Some a) as Hi.
    { rewrite Hout, lookup_app_l in Hia by lia. done. }
    rewrite (Hat i a Hi). simpl. unfold score_for.
    split; [done|]. split.
    + intros s Hs.
      pose proof (lookup_lt_Some _ _ _ Hs) as Hlt.
      apply Nat.ltb_lt in Hlt. rewrite Hlt.
      by rewrite nth_lookup, Hs.
    + intros Hge.
      apply Nat.ltb_ge in Hge. by rewrite Hge.
Qed.

(** What [rank_answers] returns for pairwise distinct references. *)
Lemma result_of_distinct_refs h answers :
  NoDup answers →
  ∃ h' out answers_ranked answers_scored,
    rank_answers scoring_values h answers
    = (h', out, answers_ranked, answers_scored)
    ∧ out ≡ₚ answers
    ∧ length out = length answers
    ∧ (∀ a, same_content (h' a) (h a))
    ∧ (∀ a, a ∉ answers → h' a = h a)
    ∧ (let k := length (List.filter (λ a, isCorrect (h a)) answers) in
       (∀ i a, (i < k)%nat → out !! i = Some a →
          isCorrect (h' a) = true ∧ rank (h' a) = Z.of_nat i + 1)
       ∧ drop k out = List.filter (λ a, negb (isCorrect (h a))) answers)
    ∧ answers_ranked = length (List.filter (λ a, isCorrect (h' a)) answers)
    ∧ answers_scored
      = length (List.filter (λ a, isCorrect (h' a) && (0 <? score (h' a)))
                  answers).
Proof.
  intros Hnd.
  pose proof (final_out h answers) as Hout.
  pose proof (final_ranked h answers) as Hranked.
  pose proof (final_scored h answers) as Hscored.
  pose proof (final_content h answers) as Hcontent.
  pose proof (final_other h answers) as Hother.
  pose proof (λ j a, final_correct h answers j a Hnd) as Hat.
  destruct (rank_answers scoring_values h answers) as [[[h' out] r] s].
  simpl in *.
  set (correct := List.filter (λ a, isCorrect (h a)) answers) in *.
  set (incorrect := List.filter (λ a, negb (isCorrect (h a))) answers) in *.
  set (sorted := py_sort (by_count_desc h) correct) in *.
  assert (length sorted = length correct) as Hlen by apply py_sort_length.
  assert (out ≡ₚ answers) as Hperm.
  { rewrite Hout. unfold sorted. rewrite py_sort_Permutation.
    apply filter_partition_Permutation. }
  assert (∀ a, isCorrect (h' a) = isCorrect (h a)) as Hflag.
  { intros a. apply Hcontent. }
  exists h', out, r, s. split; [done|]. split; [done|].
  split; [by apply Permutation_length|].
  split; [done|]. split; [done|]. split; [split|split].
  - intros i a Hi Hia.
    assert (sorted !! i = Some a) as Hsi.
    { rewrite Hout, lookup_app_l in Hia by lia. done. }
    rewrite Hflag, (Hat i a Hsi). simpl. split; [|done].
    apply list_elem_of_lookup_2 in Hsi.
    by apply py_sort_elem_of, elem_of_List_filter in Hsi as [_ ?].
  - rewrite Hout, <- Hlen. apply drop_app_length.
  - rewrite Hranked. f_equal. apply filter_ext. intros a. by rewrite Hflag.
  - rewrite Hscored.
    rewrite <- (filter_length_Permutation _ _ _ Hperm), Hout.
    rewrite List.filter_app, length_app.
    rewrite (filter_all_false _ incorrect), Nat.add_0_r.
    + rewrite <- Hlen. symmetry. apply filter_length_ext_index.
      intros j a Hj. rewrite Hflag, (Hat j a Hj). simpl.
      apply list_elem_of_lookup_2 in Hj.
      apply py_sort_elem_of, elem_of_List_filter in Hj as [_ ->]. done.
    + intros a [_ Ha]%elem_of_List_filter.
      rewrite Hflag. by destruct (isCorrect (h a)).
Qed.

(** *** Lists of answer dicts *)

Lemma objects_lookup (l : list Answer) (a : nat) x :
  l !! a = Some x → objects l a = x.
Proof. intros H. unfold objects. by rewrite nth_lookup, H. Qed.

Lemma objects_refs l : objects l <$> refs l = l.
Proof.
  apply list_eq. intros i. unfold refs. rewrite list_lookup_fmap.
  destruct (l !! i) as [x|] eqn:E.
  - rewrite lookup_seq_lt by (by eapply lookup_lt_Some). simpl.
    by rewrite (objects_lookup l i x).
  - rewrite lookup_seq_ge by (by apply lookup_ge_None). done.
Qed.

Lemma refs_NoDup l : NoDup (refs l).
Proof. apply NoDup_seq. Qed.

Lemma elem_of_refs (l : list Answer) (a : nat) :
  a ∈ refs l ↔ ∃ x, l !! a = Some x.
Proof.
  unfold refs. rewrite elem_of_seq. split.
  - intros [_ H]. by apply lookup_lt_is_Some_2.
  - intros [x H]. apply lookup_lt_Some in H. lia.
Qed.

Lemma refs_sublist (l : list Answer) (a b : nat) x y :
  l !! a = Some x → l !! b = Some y → (a < b)%nat →
  [a; b] `sublist_of` refs l.
Proof.
  intros Ha Hb Hab. apply sublist_pair_lookup. exists a, b.
  split; [done|]. unfold refs.
  rewrite !lookup_seq_lt by (by eapply lookup_lt_Some). done.
Qed.

Lemma filter_length_fmap {A B} (f : B → bool) (g : A → B) (l : list A) :
  length (List.filter f (g <$> l)) = length (List.filter (λ a, f (g a)) l).
Proof.
  induction l as [|x l IH]; csimpl; [done|].
  destruct (f (g x)); simpl; congruence.
Qed.

Lemma correct_refs_length l :
  length (List.filter (λ a, isCorrect (objects l a)) (refs l))
  = length (List.filter isCorrect l).
Proof. by rewrite <- filter_length_fmap, objects_refs. Qed.

(** C3. For every list of answers, [k] of them correct, [rank_answers]
    returns the correct ones first, with the ranks 1, ..., k in this
    order and without repetition; a correct answer with a strictly
    greater response count has a strictly smaller rank, and of two
    correct answers with equal counts the one that comes first in the
    input has the smaller rank; the answer ranked [i + 1] has the score
    at position [i] of the scoring table, and 0 when the table has no
    position [i].  An answer is named by its position in the input. *)
Theorem rank_answers_ranks (l : list Answer) :
  let h' := (rank_answers scoring_values (objects l) (refs l)).1.1.1 in
  let out := (rank_answers scoring_values (objects l) (refs l)).1.1.2 in
  let k := length (List.filter isCorrect l) in
  (λ a, rank (h' a)) <$> take k out = (λ i, Z.of_nat i + 1) <$> seq 0 k
  ∧ (∀ a, a ∈ take k out ↔ ∃ x, l !! a = Some x ∧ isCorrect x = true)
  ∧ NoDup (take k out)
  ∧ (∀ a b x y, l !! a = Some x → l !! b = Some y →
       isCorrect x = true → isCorrect y = true →
       responseCount y < responseCount x →
       rank (h' a) < rank (h' b))
  ∧ (∀ a b x y, l !! a = Some x → l !! b = Some y → (a < b)%nat →
       isCorrect x = true → isCorrect y = true →
       responseCount x = responseCount y →
       rank (h' a) < rank (h' b))
  ∧ (∀ i a, (i < k)%nat → out !! i = Some a →
       rank (h' a) = Z.of_nat i + 1
       ∧ (∀ s, scoring_values !! i = Some s → score (h' a) = s)
       ∧ ((length scoring_values ≤ i)%nat → score (h' a) = 0)).
Proof.
  intros h' out k.
  pose proof (ranks_of_distinct_refs (objects l) (refs l) (refs_NoDup l))
    as (Hperm & Hranks & Hgt & Htie & Hscore).
  rewrite correct_refs_length in Hperm, Hranks, Hscore.
  fold h' out k in Hperm, Hranks, Hgt, Htie, Hscore.
  assert (∀ a, a ∈ List.filter (λ a, isCorrect (objects l a)) (refs l)
               ↔ ∃ x, l !! a = Some x ∧ isCorrect x = true) as Hcorrect.
  { intros a. rewrite elem_of_List_filter, elem_of_refs. split.
    - intros [[x Hx] Hc]. exists x. by rewrite (objects_lookup l a x Hx) in Hc.
    - intros (x & Hx & Hc). rewrite (objects_lookup l a x Hx). eauto. }
  split; [done|]. split; [|split; [|split; [|split; [|done]]]].
  - intros a. by rewrite Hperm.
  - rewrite Hperm. apply NoDup_List_filter, refs_NoDup.
  - intros a b x y Ha Hb Hx Hy Hlt. apply Hgt.
    + apply Hcorrect. eauto.
    + apply Hcorrect. eauto.
    + by rewrite (objects_lookup l a x Ha), (objects_lookup l b y Hb).
  - intros a b x y Ha Hb Hab Hx Hy Heq. apply Htie.
    + by eapply refs_sublist.
    + by rewrite (objects_lookup l a x Ha).
    + by rewrite (objects_lookup l b y Hb).
    + by rewrite (objects_lookup l a x Ha), (objects_lookup l b y Hb).
Qed.

(** C9. On every list of answers (the empty list, a list without
    correct answers and a list without incorrect answers included)
    [rank_answers] returns.  The list it returns holds each answer of the
    input once, so it is a permutation of it and has its length; the
    text, flag and count of every answer are untouched; the correct
    answers come first, in the order of their ranks, then the incorrect
    ones; the ranked count is the number of correct answers and the
    scored count is the number of correct answers of the result whose
    score is positive.  An answer is named by its position in the
    input. *)
Theorem rank_answers_permutation (l : list Answer) :
  ∃ h' out answers_ranked answers_scored,
    rank_answers scoring_values (objects l) (refs l)
    = (h', out, answers_ranked, answers_scored)
    ∧ out ≡ₚ refs l
    ∧ length out = length l
    ∧ (∀ a, same_content (h' a) (objects l a))
    ∧ (let k := length (List.filter isCorrect l) in
       (∀ i a, (i < k)%nat → out !! i = Some a →
          isCorrect (h' a) = true ∧ rank (h' a) = Z.of_nat i + 1)
       ∧ drop k out
         = List.filter (λ a, negb (isCorrect (objects l a))) (refs l))
    ∧ answers_ranked = length (List.filter isCorrect l)
    ∧ answers_scored
      = length (List.filter (λ x, isCorrect x && (0 <? score x)) (h' <$> out)).
Proof.
  destruct (result_of_distinct_refs (objects l) (refs l) (refs_NoDup l))
    as (h' & out & r & s & E & Hperm & Hlen & Hcontent & _ & Horder & Hr & Hs).
  rewrite correct_refs_length in Horder.
  exists h', out, r, s. split; [done|]. split; [done|].
  split; [by rewrite Hlen; unfold refs; rewrite length_seq|].
  split; [done|]. split; [done|]. split.
  - rewrite Hr. rewrite <- (correct_refs_length l).
    f_equal. apply filter_ext. intros a. apply Hcontent.
  - rewrite Hs, filter_length_fmap.
    by apply filter_length_Permutation.
Qed.
End WithScoring.

Lemma rank_answers_incorrect_zero_witness :
  let h' := (rank_answers Sample.scoring Sample.store Sample.refs).1.1.1 in
  isCorrect (h' 1%nat) = false ∧ rank (h' 1%nat) = 0 ∧ score (h' 1%nat) = 0.
Proof.
  apply (rank_answers_incorrect_zero Sample.scoring Sample.store Sample.refs 1%nat);
    [compute_done|reflexivity].
Defined.

(** The scenario of the specification: counts 10, 7, 7, 2 get the ranks
    1, 2, 3, 4 and the scores 100, 80, 60, 0; the tie keeps the input
    order; the incorrect answer is last with rank and score 0. *)
Example rank_answers_sample :
  let '(h', out, answers_ranked, answers_scored) :=
    rank_answers Sample.scoring Sample.store Sample.refs in
  out = [2; 0; 3; 4; 1]%nat
  ∧ h' <$> out
    = [ mkAnswer "Lyon" true 10 1 100;
        mkAnswer "Paris" true 7 2 80;
        mkAnswer " Nice " true 7 3 60;
        mkAnswer "Metz" true 2 4 0;
        mkAnswer "Rome" false 3 0 0 ]
  ∧ answers_ranked = 4%nat ∧ answers_scored = 3%nat.
Proof. vm_compute. done. Qed.

Example rank_answers_empty :
  rank_answers Sample.scoring Sample.store []
  = (Sample.store, [], 0%nat, 0%nat).
Proof. reflexivity. Qed.

Example rank_answers_no_correct :
  (rank_answers Sample.scoring Sample.store [1%nat]).1.1.2 = [1%nat]
  ∧ (rank_answers Sample.scoring Sample.store [1%nat]).1.2 = 0%nat
  ∧ (rank_answers Sample.scoring Sample.store [1%nat]).2 = 0%nat.
Proof. by vm_compute. Qed.

Example rank_answers_no_incorrect :
  (rank_answers Sample.scoring Sample.store [0; 2]%nat).1.1.2 = [2; 0]%nat
  ∧ (rank_answers Sample.scoring Sample.store [0; 2]%nat).1.2 = 2%nat
  ∧ (rank_answers Sample.scoring Sample.store [0; 2]%nat).2 = 2%nat.
Proof. by vm_compute. Qed.

(** References matter: were one object listed twice, both ranks would
    be written into it and the second would stay. *)
Example rank_answers_aliased :
  let h' := (rank_answers Sample.scoring Sample.store [0; 0]%nat).1.1.1 in
  rank (h' 0%nat) = 2.
Proof. reflexivity. Qed.
End RankerProps.

(** ** Eligibility and preparation *)

Module EligibilityProps.
Import Eligibility.

Lemma truthy_true s : PyStr.truthy s = true ↔ s ≠ EmptyString.
Proof. destruct s; simpl; split; congruence. Qed.

Lemma truthy_false s : PyStr.truthy s = false ↔ s = EmptyString.
Proof. destruct s; simpl; split; congruence. Qed.

Lemma input_format_loop_spec top : ∀ acc,
  input_format_loop top acc
  = if forallb (λ a, PyStr.truthy (PyStr.strip (answer a))) top
    then (true, acc ++ (final_answer true <$> top))
    else (false, []).
Proof.
  induction top as [|a top IH]; intros acc; simpl.
  - by rewrite app_nil_r.
  - destruct (PyStr.truthy (PyStr.strip (answer a))); simpl; [|done].
    rewrite IH. destruct (forallb _ top); [|done].
    by rewrite <- app_assoc.
Qed.

Lemma mcq_text_loop_spec l : ∀ acc,
  mcq_text_loop l acc
  = if forallb (λ a, PyStr.truthy (PyStr.strip (answer a))) l
    then Some (acc ++ ((λ a, PyStr.lower (PyStr.strip (answer a))) <$> l))
    else None.
Proof.
  induction l as [|a l IH]; intros acc; simpl.
  - by rewrite app_nil_r.
  - destruct (PyStr.truthy (PyStr.strip (answer a))); simpl; [|done].
    rewrite IH. destruct (forallb _ l); [|done].
    by rewrite <- app_assoc.
Qed.

Lemma forallb_nonempty (l : list Answer) :
  forallb (λ a, PyStr.truthy (PyStr.strip (answer a))) l = true
  ↔ Forall (λ a, PyStr.strip (answer a) ≠ EmptyString) l.
Proof.
  rewrite forallb_forall, Forall_forall.
  split; intros H a Ha.
  - apply truthy_true, H. by apply list_elem_of_In.
  - apply truthy_true, H. by apply list_elem_of_In.
Qed.

Lemma prepare_loop_app questions : ∀ acc,
  prepare_loop questions acc
  = acc ++ omap prepare_one questions.
Proof.
  induction questions as [|q questions IH]; intros acc; simpl.
  - by rewrite app_nil_r.
  - destruct (prepare_one q); rewrite IH; [|done].
    by rewrite <- app_assoc.
Qed.

(** The final set is made of the records [prepare_one] yields, in the
    order of the questions. *)
Lemma prepare_questions_omap questions :
  _prepare_questions_for_final_submission questions
  = omap prepare_one questions.
Proof. apply prepare_loop_app. Qed.

(** A question that is not of type Input yields no record. *)
Lemma prepare_one_not_input q :
  PyStr.lower (questionType q) ≠ "input" → prepare_one q = None.
Proof.
  intros H. unfold prepare_one.
  apply String.eqb_neq in H. by rewrite H.
Qed.

Lemma by_rank_total x y : by_rank x y = true ∨ by_rank y x = true.
Proof. unfold by_rank. rewrite !Z.leb_le. lia. Qed.

Lemma by_rank_trans x y z :
  by_rank x y = true → by_rank y z = true → by_rank x z = true.
Proof. unfold by_rank. rewrite !Z.leb_le. lia. Qed.

Lemma prepare_input_spec all_answers :
  let qualifying := List.filter ranked_correct all_answers in
  let top3 := take 3 (py_sort by_rank qualifying) in
  _prepare_input_question_for_final all_answers
  = if (length qualifying <? 3)%nat then (false, [])
    else if forallb (λ a, PyStr.truthy (PyStr.strip (answer a))) top3
         then (true, final_answer true <$> top3)
         else (false, []).
Proof.
  cbv zeta. unfold _prepare_input_question_for_final.
  destruct (length _ <? 3)%nat; [done|].
  by rewrite input_format_loop_spec.
Qed.

(** C2. For a question of type Input (in any letter case), the
    preparation for final submission accepts it exactly when at least 3
    of its answers are correct with rank > 0 and score > 0 and none of
    the 3 first of them by ascending rank has a text that is empty once
    trimmed.  It then emits those 3 answers, with trimmed text, their
    response count, rank and score, and the correctness flag true, and
    the question yields one final record carrying them.  Otherwise
    nothing is emitted; in particular with only 2 such answers. *)
Theorem input_question_eligibility (q : Question) :
  PyStr.lower (questionType q) = "input" →
  let qualifying :=
    List.filter (λ a, isCorrect a && (0 <? rank a) && (0 <? score a)) (answers q) in
  let sorted := py_sort by_rank qualifying in
  let top3 := take 3 sorted in
  let eligible :=
    (3 ≤ length qualifying)%nat
    ∧ Forall (λ a, PyStr.strip (answer a) ≠ EmptyString) top3 in
  let emitted :=
    (λ a, mkAnswer (PyStr.strip (answer a)) true
            (responseCount a) (rank a) (score a)) <$> top3 in
  sorted ≡ₚ qualifying
  ∧ StronglySorted (λ x y, rank x ≤ rank y) sorted
  ∧ ((_prepare_input_question_for_final (answers q)).1 = true ↔ eligible)
  ∧ (eligible →
       _prepare_input_question_for_final (answers q) = (true, emitted)
       ∧ length emitted = 3%nat
       ∧ ∃ fq, _prepare_questions_for_final_submission [q] = [fq]
               ∧ answers fq = emitted ∧ question fq = question q)
  ∧ (¬ eligible →
       _prepare_input_question_for_final (answers q) = (false, [])
       ∧ _prepare_questions_for_final_submission [q] = [])
  ∧ (length qualifying = 2%nat →
       _prepare_input_question_for_final (answers q) = (false, [])
       ∧ _prepare_questions_for_final_submission [q] = []).
Proof.
  intros Htype qualifying sorted top3 eligible emitted.
  pose proof (prepare_input_spec (answers q)) as Hspec. cbv zeta in Hspec.
  fold ranked_correct in qualifying.
  fold qualifying sorted top3 in Hspec.
  assert (emitted = final_answer true <$> top3) as Hem by done.
  assert (prepare_one q
          = if (_prepare_input_question_for_final (answers q)).1
               && negb (is_empty (_prepare_input_question_for_final (answers q)).2)
            then Some {| _id := None; question := question q;
                         questionType := questionType q;
                         questionCategory := questionCategory q;
                         questionLevel := questionLevel q;
                         timesSkipped := timesSkipped q;
                         timesAnswered := timesAnswered q;
                         answers := (_prepare_input_question_for_final (answers q)).2;
                         _existing_id := None |}
            else None) as Hone.
  { unfold prepare_one, _validate_and_prepare_answers_for_final.
    rewrite Htype. simpl.
    destruct (answers q) as [|a l] eqn:Ea; [done|]. simpl is_empty. cbv iota.
    by destruct (_prepare_input_question_for_final (a :: l)). }
  assert (eligible ↔
          (length qualifying <? 3)%nat = false
          ∧ forallb (λ a, PyStr.truthy (PyStr.strip (answer a))) top3 = true)
    as Hel.
  { unfold eligible. rewrite forallb_nonempty, Nat.ltb_ge. done. }
  assert (length qualifying = length sorted) as Hlen
    by (symmetry; apply py_sort_length).
  assert (¬ eligible →
          _prepare_input_question_for_final (answers q) = (false, [])
          ∧ _prepare_questions_for_final_submission [q] = []) as Hno.
  { intros Hne. rewrite prepare_questions_omap. simpl. rewrite Hone, Hspec.
    destruct (length qualifying <? 3)%nat eqn:E1; [done|].
    destruct (forallb _ top3) eqn:E2; [|done].
    exfalso. apply Hne, Hel. done. }
  split; [apply py_sort_Permutation|]. split.
  { eapply StronglySorted_mono;
      [|apply (py_sort_sorted by_rank by_rank_total by_rank_trans)].
    intros x y. unfold by_rank. by rewrite Z.leb_le. }
  split.
  { rewrite Hel, Hspec.
    destruct (length qualifying <? 3)%nat; [simpl; intuition congruence|].
    destruct (forallb _ top3); simpl; intuition congruence. }
  split; [|split; [done|]].
  - intros Hyes. pose proof Hyes as [Hge _]. apply Hel in Hyes as [E1 E2].
    assert (length emitted = 3%nat) as Hl3.
    { rewrite Hem, length_fmap. unfold top3. rewrite length_take_le; lia. }
    assert (_prepare_input_question_for_final (answers q) = (true, emitted)) as Hp.
    { by rewrite Hspec, E1, E2. }
    split; [done|]. split; [done|].
    rewrite prepare_questions_omap. simpl. rewrite Hone, Hp. simpl.
    destruct emitted as [|e em] eqn:Ee; [done|]. simpl.
    eexists. split; [done|]. done.
  - intros H2. apply Hno. intros [Hge _]. lia.
Qed.

Lemma input_question_eligibility_witness :
  PyStr.lower (questionType Sample.input) = "input"
  ∧ _prepare_input_question_for_final (answers Sample.input)
    = (true, [ mkAnswer "Lyon" true 10 1 100;
               mkAnswer "Paris" true 7 2 80;
               mkAnswer "Nice" true 7 3 60 ]).
Proof.
  split; [reflexivity|].
  pose proof (input_question_eligibility Sample.input eq_refl) as H.
  cbv zeta in H. destruct H as (_ & _ & _ & H & _).
  apply H. split; [vm_compute; lia|].
  vm_compute. repeat constructor; discriminate.
Defined.

Lemma prepare_mcq_spec all_answers :
  _prepare_mcq_question_for_final all_answers
  = if negb (length all_answers =? 4)%nat then (false, [])
    else if negb (length (List.filter isCorrect all_answers) =? 1)%nat
    then (false, [])
    else if negb (forallb (λ a, PyStr.truthy (PyStr.strip (answer a))) all_answers)
    then (false, [])
    else
      let answer_texts :=
        (λ a, PyStr.lower (PyStr.strip (answer a))) <$> all_answers in
      if negb (size (list_to_set answer_texts : gset string)
               =? length answer_texts)%nat
      then (false, [])
      else (true, (λ a, final_answer (isCorrect a) a) <$> all_answers).
Proof.
  unfold _prepare_mcq_question_for_final.
  destruct (negb (length all_answers =? 4)%nat); [done|].
  destruct (negb (length (List.filter isCorrect all_answers) =? 1)%nat); [done|].
  rewrite mcq_text_loop_spec.
  by destruct (forallb _ all_answers).
Qed.

(** C1, as the code has it.  For a question whose type tag is MCQ (in
    any letter case): the MCQ rule, reached through
    [_validate_and_prepare_answers_for_final], accepts it when it has
    exactly 4 answers, exactly 1 of them correct, every trimmed text
    non-empty and the 4 trimmed lower-cased texts pairwise distinct,
    and then returns all 4 answers with trimmed text and with their
    own counts, rank, score and correctness flag; it rejects it when 2
    answers are marked correct.  The preparation step for final
    submission, however, keeps Input questions only: it emits no record
    for the question. *)
Theorem mcq_rule_without_submission (q : Question) :
  PyStr.lower (questionType q) = "mcq" →
  (length (answers q) = 4%nat →
   length (List.filter isCorrect (answers q)) = 1%nat →
   Forall (λ a, PyStr.strip (answer a) ≠ EmptyString) (answers q) →
   NoDup ((λ a, PyStr.lower (PyStr.strip (answer a))) <$> answers q) →
   _validate_and_prepare_answers_for_final q (PyStr.lower (questionType q))
   = (true,
      (λ a, mkAnswer (PyStr.strip (answer a)) (isCorrect a)
              (responseCount a) (rank a) (score a)) <$> answers q))
  ∧ (length (List.filter isCorrect (answers q)) = 2%nat →
     _validate_and_prepare_answers_for_final q (PyStr.lower (questionType q))
     = (false, []))
  ∧ _prepare_questions_for_final_submission [q] = [].
Proof.
  intros Htype.
  assert (_validate_and_prepare_answers_for_final q (PyStr.lower (questionType q))
          = _prepare_mcq_question_for_final (answers q)) as ->.
  { unfold _validate_and_prepare_answers_for_final. by rewrite Htype. }
  rewrite prepare_mcq_spec. split; [|split].
  - intros H4 H1 Hne Hnd. rewrite H4, H1. simpl.
    apply forallb_nonempty in Hne. rewrite Hne. simpl.
    rewrite size_list_to_set by done. by rewrite Nat.eqb_refl.
  - intros H2. rewrite H2. simpl. by destruct (negb _).
  - rewrite prepare_questions_omap. simpl.
    rewrite prepare_one_not_input; [done|]. by rewrite Htype.
Qed.

Lemma mcq_rule_without_submission_witness :
  PyStr.lower (questionType Sample.mcq) = "mcq"
  ∧ _validate_and_prepare_answers_for_final Sample.mcq "mcq"
    = (true, [ mkAnswer "Paris" true 9 1 100;
               mkAnswer "Rome" false 1 0 0;
               mkAnswer "Lyon" false 2 0 0;
               mkAnswer "Metz" false 0 0 0 ])
  ∧ _prepare_questions_for_final_submission [Sample.mcq] = [].
Proof.
  split; [reflexivity|].
  pose proof (mcq_rule_without_submission Sample.mcq eq_refl) as (H & _ & H0).
  split; [|exact H0].
  apply H; [reflexivity|reflexivity| |].
  - vm_compute. repeat constructor; discriminate.
  - compute_done.
Defined.

(** C1 as stated fails: an MCQ question with 4 answers, 1 of them
    correct, and 4 distinct non-empty texts is not emitted by the
    preparation step. *)
Lemma mcq_not_submitted :
  PyStr.lower (questionType Sample.mcq) = "mcq"
  ∧ length (answers Sample.mcq) = 4%nat
  ∧ length (List.filter isCorrect (answers Sample.mcq)) = 1%nat
  ∧ Forall (λ a, PyStr.strip (answer a) ≠ EmptyString) (answers Sample.mcq)
  ∧ NoDup ((λ a, PyStr.lower (PyStr.strip (answer a))) <$> answers Sample.mcq)
  ∧ _prepare_questions_for_final_submission [Sample.mcq] = [].
Proof.
  split; [reflexivity|]. split; [reflexivity|]. split; [reflexivity|].
  split; [vm_compute; repeat constructor; discriminate|].
  split; [compute_done|reflexivity].
Qed.

Example mcq_two_correct_rejected :
  _prepare_mcq_question_for_final (answers Sample.mcq_two_correct) = (false, []).
Proof. reflexivity. Qed.
End EligibilityProps.

(** ** Reconciliation *)

Module ReconcileProps.
Import Reconcile.

Lemma lower_empty s : PyStr.lower s = EmptyString ↔ s = EmptyString.
Proof. destruct s; simpl; split; congruence. Qed.

Lemma question_key_empty q :
  question_key q = EmptyString ↔ PyStr.strip (question q) = EmptyString.
Proof. apply lower_empty. Qed.

(** *** The lookup *)

Lemma build_lookup_app l1 l2 m :
  build_lookup (l1 ++ l2) m = build_lookup l2 (build_lookup l1 m).
Proof.
  revert m. induction l1 as [|e l1 IH]; intros m; simpl; [done|].
  destruct (PyStr.truthy (question_key e)); apply IH.
Qed.

(** The empty key is never inserted. *)
Lemma build_lookup_empty_key l : ∀ m,
  build_lookup l m !! EmptyString = m !! EmptyString.
Proof.
  induction l as [|e l IH]; intros m; simpl; [done|].
  destruct (PyStr.truthy (question_key e)) eqn:E; rewrite IH; [|done].
  apply lookup_insert_ne. intros Hk. by rewrite Hk in E.
Qed.

(** A key that no later record has keeps its entry. *)
Lemma build_lookup_absent l : ∀ m k,
  (∀ e, e ∈ l → question_key e ≠ k) →
  build_lookup l m !! k = m !! k.
Proof.
  induction l as [|e l IH]; intros m k Hk; simpl; [done|].
  assert (∀ e', e' ∈ l → question_key e' ≠ k) as Hl.
  { intros e' He'. apply Hk. by apply list_elem_of_further. }
  destruct (PyStr.truthy (question_key e)); rewrite IH by done; [|done].
  apply lookup_insert_ne, Hk, list_elem_of_here.
Qed.

(** An entry of the lookup is a remote record with that key, and the
    key is not empty. *)
Lemma build_lookup_Some l : ∀ m k e,
  build_lookup l m !! k = Some e →
  m !! k = Some e ∨ (e ∈ l ∧ question_key e = k ∧ k ≠ EmptyString).
Proof.
  induction l as [|x l IH]; intros m k e H; simpl in H; [by left|].
  destruct (PyStr.truthy (question_key x)) eqn:E.
  - apply IH in H as [H|(? & ? & ?)].
    + destruct (decide (question_key x = k)) as [<-|Hne].
      * rewrite lookup_insert_eq in H. injection H as <-.
        right. split; [apply list_elem_of_here|].
        split; [done|]. by apply EligibilityProps.truthy_true.
      * rewrite lookup_insert_ne in H by done. by left.
    + right. split; [by apply list_elem_of_further|done].
  - apply IH in H as [H|(? & ? & ?)]; [by left|].
    right. split; [by apply list_elem_of_further|done].
Qed.

(** The last remote record with a non-empty key is the entry for it. *)
Lemma build_lookup_last l1 e l2 m :
  question_key e ≠ EmptyString →
  (∀ e', e' ∈ l2 → question_key e' ≠ question_key e) →
  build_lookup (l1 ++ e :: l2) m !! question_key e = Some e.
Proof.
  intros Hne Hlast. rewrite build_lookup_app. simpl.
  apply EligibilityProps.truthy_true in Hne. rewrite Hne.
  rewrite build_lookup_absent by done. apply lookup_insert_eq.
Qed.

(** Every remote record with a non-empty key has an entry under it. *)
Lemma build_lookup_is_Some_gen l : ∀ m k,
  k ≠ EmptyString →
  is_Some (m !! k) ∨ (∃ e, e ∈ l ∧ question_key e = k) →
  is_Some (build_lookup l m !! k).
Proof.
  induction l as [|x l IH]; intros m k Hne H; simpl.
  - destruct H as [H|(e & He & _)]; [done|by apply elem_of_nil in He].
  - destruct (PyStr.truthy (question_key x)) eqn:E; apply IH; try done.
    + destruct (decide (question_key x = k)) as [<-|Hk].
      * left. by rewrite lookup_insert_eq.
      * rewrite lookup_insert_ne by done.
        destruct H as [H|(e & He & Hke)]; [by left|].
        apply elem_of_cons in He as [->|He]; [done|]. right. eauto.
    + destruct H as [H|(e & He & Hke)]; [by left|].
      apply elem_of_cons in He as [->|He]; [|right; eauto].
      apply EligibilityProps.truthy_false in E. congruence.
Qed.

Lemma build_lookup_is_Some l m e :
  e ∈ l → question_key e ≠ EmptyString →
  is_Some (build_lookup l m !! question_key e).
Proof. intros He Hne. apply build_lookup_is_Some_gen; [done|]. right. eauto. Qed.

(** *** The three lists *)

Lemma categorize_loop_spec lookup finals : ∀ n u c,
  categorize_loop lookup finals n u c
  = (n ++ List.filter (λ q, is_new (classify lookup q)) finals,
     u ++ omap (as_changed lookup) finals,
     c ++ List.filter (λ q, is_unchanged (classify lookup q)) finals).
Proof.
  induction finals as [|q finals IH]; intros n u c; simpl.
  - by rewrite !app_nil_r.
  - unfold as_changed, classify.
    destruct (lookup !! question_key q) as [e|] eqn:E.
    + destruct (_answers_have_changed q e); rewrite IH; simpl;
        by rewrite <- app_assoc.
    + rewrite IH. simpl. by rewrite <- app_assoc.
Qed.

Lemma categorize_spec finals existing :
  let lookup := build_lookup existing ∅ in
  _categorize_questions_for_submission finals existing
  = (List.filter (λ q, is_new (classify lookup q)) finals,
     omap (as_changed lookup) finals,
     List.filter (λ q, is_unchanged (classify lookup q)) finals).
Proof. apply categorize_loop_spec. Qed.

Lemma buckets_length lookup finals :
  (length (List.filter (λ q, is_new (classify lookup q)) finals)
   + length (omap (as_changed lookup) finals)
   + length (List.filter (λ q, is_unchanged (classify lookup q)) finals)
   = length finals)%nat.
Proof.
  induction finals as [|q finals IH]; csimpl; [done|].
  destruct (as_changed lookup q) as [q'|] eqn:Eq; unfold as_changed in Eq;
    destruct (classify lookup q); simplify_eq; csimpl; lia.
Qed.

(** C5. Reconciliation puts every local final record in exactly one of
    three lists, by the entry that the lookup of remote records, keyed
    by trimmed lower-cased question text, has for the record's own key:
    no entry, the record is new; an entry whose answers differ under
    the normalized comparison, it is changed and goes on with the
    remote record's identifier attached as [_existing_id]; an entry
    whose answers compare equal, it is unchanged.  A record of the
    changed list is the local record, key by key, but for the key
    [_existing_id], which holds the [_id] of the remote record it was
    matched with; the records of the two other lists are the local
    records themselves. *)
Theorem categorize_three_buckets finals existing :
  let lookup := build_lookup existing ∅ in
  (∀ k e, lookup !! k = Some e →
     e ∈ existing ∧ PyStr.lower (PyStr.strip (question e)) = k ∧ k ≠ EmptyString)
  ∧ (∀ e, e ∈ existing → PyStr.lower (PyStr.strip (question e)) ≠ EmptyString →
       is_Some (lookup !! PyStr.lower (PyStr.strip (question e))))
  ∧ (∀ k, lookup !! k = None ↔
       k = EmptyString ∨ ∀ e, e ∈ existing → PyStr.lower (PyStr.strip (question e)) ≠ k)
  ∧ ∃ new_questions updated_questions unchanged_questions,
      _categorize_questions_for_submission finals existing
      = (new_questions, updated_questions, unchanged_questions)
      ∧ new_questions = List.filter (λ q, is_new (classify lookup q)) finals
      ∧ updated_questions = omap (as_changed lookup) finals
      ∧ unchanged_questions
        = List.filter (λ q, is_unchanged (classify lookup q)) finals
      ∧ (length new_questions + length updated_questions
         + length unchanged_questions = length finals)%nat
      ∧ (∀ q, q ∈ new_questions ↔
           q ∈ finals ∧ lookup !! PyStr.lower (PyStr.strip (question q)) = None)
      ∧ (∀ q', q' ∈ updated_questions ↔
           ∃ q e, q ∈ finals
                  ∧ lookup !! PyStr.lower (PyStr.strip (question q)) = Some e
                  ∧ _answers_have_changed q e = true
                  ∧ q' = {| _id := _id q;
                            question := question q;
                            questionType := questionType q;
                            questionCategory := questionCategory q;
                            questionLevel := questionLevel q;
                            timesSkipped := timesSkipped q;
                            timesAnswered := timesAnswered q;
                            answers := answers q;
                            _existing_id := _id e |})
      ∧ (∀ q', q' ∈ updated_questions →
           ∃ q e, q ∈ finals ∧ e ∈ existing
                  ∧ PyStr.lower (PyStr.strip (question e))
                    = PyStr.lower (PyStr.strip (question q))
                  ∧ _answers_have_changed q e = true
                  ∧ _existing_id q' = _id e
                  ∧ _id q' = _id q
                  ∧ question q' = question q
                  ∧ questionType q' = questionType q
                  ∧ questionCategory q' = questionCategory q
                  ∧ questionLevel q' = questionLevel q
                  ∧ timesSkipped q' = timesSkipped q
                  ∧ timesAnswered q' = timesAnswered q
                  ∧ answers q' = answers q)
      ∧ (∀ q, q ∈ unchanged_questions ↔
           q ∈ finals
           ∧ ∃ e, lookup !! PyStr.lower (PyStr.strip (question q)) = Some e
                  ∧ _answers_have_changed q e = false).
Proof.
  intros lookup.
  assert (∀ k e, lookup !! k = Some e →
            e ∈ existing ∧ PyStr.lower (PyStr.strip (question e)) = k
            ∧ k ≠ EmptyString) as Hentry.
  { intros k e H. apply build_lookup_Some in H as [H|H]; [|done].
    by rewrite lookup_empty in H. }
  assert (∀ q', q' ∈ omap (as_changed lookup) finals ↔
            ∃ q e, q ∈ finals
                   ∧ lookup !! PyStr.lower (PyStr.strip (question q)) = Some e
                   ∧ _answers_have_changed q e = true
                   ∧ q' = {| _id := _id q;
                             question := question q;
                             questionType := questionType q;
                             questionCategory := questionCategory q;
                             questionLevel := questionLevel q;
                             timesSkipped := timesSkipped q;
                             timesAnswered := timesAnswered q;
                             answers := answers q;
                             _existing_id := _id e |}) as Hchanged.
  { intros q'. rewrite list_elem_of_omap. unfold as_changed, classify, question_key.
    split.
    - intros (q & Hq & H).
      destruct (lookup !! _) as [e|] eqn:E; [|done].
      destruct (_answers_have_changed q e) eqn:Ec; [|done].
      injection H as <-. exists q, e. by rewrite E.
    - intros (q & e & Hq & E & Ec & ->). exists q. split; [done|].
      by rewrite E, Ec. }
  split; [exact Hentry|split; [|split]].
  - intros e He Hne. by apply build_lookup_is_Some.
  - intros k. split.
    + intros Hnone. destruct (decide (k = EmptyString)) as [|Hk]; [by left|right].
      intros e He Hke.
      assert (is_Some (lookup !! k)) as [x Hx].
      { apply build_lookup_is_Some_gen; [done|]. right. eauto. }
      congruence.
    + intros [->|Habs].
      * unfold lookup. by rewrite build_lookup_empty_key, lookup_empty.
      * unfold lookup. by rewrite build_lookup_absent, lookup_empty.
  - eexists _, _, _. split; [apply categorize_spec|].
    fold lookup. split; [done|]. split; [done|]. split; [done|].
    split; [apply buckets_length|]. split; [|split; [exact Hchanged|split]].
    + intros q. rewrite elem_of_List_filter. unfold classify, question_key.
      destruct (lookup !! _) as [e|]; [|simpl; intuition congruence].
      destruct (_answers_have_changed q e); simpl; intuition congruence.
    + intros q' Hq'. apply Hchanged in Hq' as (q & e & Hq & E & Ec & ->).
      destruct (Hentry _ _ E) as (He & Hk & _).
      exists q, e. simpl. by repeat split.
    + intros q. rewrite elem_of_List_filter. unfold classify, question_key.
      destruct (lookup !! _) as [e|]; simpl.
      * destruct (_answers_have_changed q e) eqn:Ec; simpl.
        -- split; [intros [_ ?]; done|].
           intros [_ (e' & He' & Hc)]. congruence.
        -- split; [intros [? _]; eauto|tauto].
      * split; [intros [_ ?]; done|].
        intros [_ (e' & He' & _)]. done.
Qed.

(** C5 on a sample: of a local record with a stale remote copy and a
    local record with a blank text, the first one is the only changed
    record, and it carries the identifier of the remote copy. *)
Lemma categorize_three_buckets_witness :
  ∃ q',
    (_categorize_questions_for_submission
       [Sample.city_local; Sample.blank_local] [Sample.city_remote_stale]).1.2
    = [q']
    ∧ _existing_id q' = Some "r-city-old"
    ∧ _id q' = None
    ∧ question q' = "Name a French city"
    ∧ answers q' = answers Sample.city_local.
Proof.
  destruct (categorize_three_buckets
              [Sample.city_local; Sample.blank_local] [Sample.city_remote_stale])
    as (_ & _ & _ & n & u & c & Hcat & _ & Hu & _ & _ & _ & _ & Hpin & _).
  assert (∃ q', u = [q']) as [q' ->].
  { rewrite Hu. vm_compute. by eexists. }
  exists q'. rewrite Hcat. split; [done|].
  destruct (Hpin q' (list_elem_of_here _ _))
    as (q & e & Hq & He & Hkey & _ & Hid & Hi & Hquestion & _ & _ & _ & _ & _ & Ha).
  apply list_elem_of_singleton in He. subst e.
  apply elem_of_cons in Hq as [->|Hq].
  - by rewrite Hid, Hi, Hquestion, Ha.
  - apply list_elem_of_singleton in Hq. subst q. by vm_compute in Hkey.
Defined.

Lemma lookup_key_not_empty existing k e :
  build_lookup existing ∅ !! k = Some e → k ≠ EmptyString.
Proof.
  intros H. apply build_lookup_Some in H as [H|(_ & _ & ?)]; [|done].
  by rewrite lookup_empty in H.
Qed.

(** No record of the changed or of the unchanged list has a blank
    question text. *)
Lemma matched_not_blank finals existing q' :
  q' ∈ (_categorize_questions_for_submission finals existing).1.2
  ∨ q' ∈ (_categorize_questions_for_submission finals existing).2 →
  PyStr.strip (question q') ≠ EmptyString.
Proof.
  rewrite categorize_spec. cbv zeta. simpl. intros [H|H] Hb.
  - apply list_elem_of_omap in H as (q0 & _ & H).
    unfold as_changed, classify in H.
    destruct (build_lookup existing ∅ !! question_key q0) as [e|] eqn:E; [|done].
    apply lookup_key_not_empty in E.
    destruct (_answers_have_changed q0 e); [|done].
    injection H as <-. simpl in Hb. by apply question_key_empty in Hb.
  - apply elem_of_List_filter in H as [_ H].
    unfold classify in H.
    destruct (build_lookup existing ∅ !! question_key q') as [e|] eqn:E; [|done].
    apply lookup_key_not_empty in E. by apply question_key_empty in Hb.
Qed.

(** A local record whose question text is blank finds no entry in the
    lookup and is put in the list of new records. *)
Lemma blank_text_classified_new finals existing q :
  q ∈ finals → PyStr.strip (question q) = EmptyString →
  build_lookup existing ∅ !! question_key q = None
  ∧ classify (build_lookup existing ∅) q = New
  ∧ q ∈ (_categorize_questions_for_submission finals existing).1.1.
Proof.
  intros Hq Hblank.
  assert (build_lookup existing ∅ !! question_key q = None) as Hnone.
  { apply question_key_empty in Hblank. rewrite Hblank.
    by rewrite build_lookup_empty_key, lookup_empty. }
  assert (classify (build_lookup existing ∅) q = New) as Hnew.
  { unfold classify. by rewrite Hnone. }
  split; [done|]. split; [done|].
  rewrite categorize_spec. cbv zeta. simpl.
  apply elem_of_List_filter. by rewrite Hnew.
Qed.

(** *** The comparison of answers *)

Lemma key_le_iff x y :
  key_le x y = true ↔
  String.compare (answer x) (answer y) = Lt
  ∨ (answer x = answer y ∧ rank x ≤ rank y).
Proof.
  unfold key_le, String.ltb.
  rewrite orb_true_iff, andb_true_iff, String.eqb_eq, Z.leb_le.
  destruct (String.compare (answer x) (answer y)); intuition congruence.
Qed.

Lemma key_le_total x y : key_le x y = true ∨ key_le y x = true.
Proof.
  rewrite !key_le_iff.
  destruct (String.compare (answer x) (answer y)) eqn:E.
  - apply String.compare_eq_iff in E.
    destruct (Z.le_ge_cases (rank x) (rank y)); [left|right]; right; split;
      (done || lia).
  - by left; left.
  - right; left. by rewrite String.compare_antisym, E.
Qed.

Lemma key_le_trans x y z :
  key_le x y = true → key_le y z = true → key_le x z = true.
Proof.
  rewrite !key_le_iff. intros [H1|[E1 L1]] [H2|[E2 L2]].
  - left. by eapply string_compare_lt_trans.
  - left. by rewrite <- E2.
  - left. by rewrite E1.
  - right. split; [congruence|lia].
Qed.

Lemma key_le_antisym x y :
  key_le x y = true → key_le y x = true →
  answer x = answer y ∧ rank x = rank y.
Proof.
  rewrite !key_le_iff. intros [H1|[E1 L1]] [H2|[E2 L2]].
  - rewrite String.compare_antisym, H2 in H1. done.
  - rewrite E2, string_compare_refl in H1. done.
  - rewrite E1, string_compare_refl in H2. done.
  - split; [done|lia].
Qed.

(** Where the comparison does what C6 says: two answer lists with the
    same normalized answers, in any order, compare equal when no two
    answers of a list share both their normalized text and their
    rank. *)
Lemma answers_unchanged_when_keys_distinct q e :
  normalize_answer_for_comparison <$> answers q
    ≡ₚ normalize_answer_for_comparison <$> answers e →
  (∀ x y, x ∈ normalize_answer_for_comparison <$> answers q →
          y ∈ normalize_answer_for_comparison <$> answers q →
          answer x = answer y → rank x = rank y → x = y) →
  _answers_have_changed q e = false.
Proof.
  intros Hperm Hdistinct. unfold _answers_have_changed.
  pose proof (Permutation_length Hperm) as Hlen.
  rewrite !length_fmap in Hlen. rewrite Hlen, Nat.eqb_refl. simpl.
  rewrite bool_decide_eq_true_2; [done|].
  apply py_sort_unique;
    [apply key_le_total|apply key_le_trans|done|].
  intros x y Hx Hy Hxy Hyx.
  destruct (key_le_antisym x y Hxy Hyx). by apply Hdistinct.
Qed.

(** Case, blanks and order of the answers do not count when the sort
    keys are distinct ... *)
Example answers_reordered_unchanged :
  _answers_have_changed Sample.city_local Sample.city_remote = false.
Proof. by vm_compute. Qed.

(** C6 at its failing input: the remote answers are the local ones in
    another order, with equal flags, ranks, scores and counts, yet the
    comparison reports a change and the record is classified changed.
    The two answers that were swapped have the same normalized text and
    the same rank, so the sort, stable on its key (text, rank), leaves
    them in the order of each list. *)
Theorem answers_reordered_reported_changed :
  answers Sample.tie_remote ≡ₚ answers Sample.tie_local
  ∧ question_key Sample.tie_remote = question_key Sample.tie_local
  ∧ _answers_have_changed Sample.tie_local Sample.tie_remote = true
  ∧ _categorize_questions_for_submission [Sample.tie_local] [Sample.tie_remote]
    = ([], [set_existing_id (Some "r-river") Sample.tie_local], []).
Proof.
  split; [apply perm_swap|]. split; [reflexivity|].
  split; by vm_compute.
Qed.
End ReconcileProps.

(** ** Final submission with updates *)

Module SubmissionProps.
Import Remote Reconcile Submission.

Section WithServer.
Variable Server : Type.
Variable serve : Request → Server → Reply * Server.

Lemma make_request_spec e m data w :
  make_request serve e m data w
  = (match (serve (mkRequest m e data) (server w)).1 with
     | Raised => Exn
     | Replied r => Ret r
     end,
     after serve (mkRequest m e data) w).
Proof.
  unfold make_request, after.
  destruct (serve _ (server w)) as [[|r] s']; done.
Qed.

Lemma get_existing_spec w :
  _get_existing_final_questions serve w
  = (Ret (fetched (serve fetch_request (server w)).1), after serve fetch_request w).
Proof.
  unfold _get_existing_final_questions, try_except, bind.
  rewrite make_request_spec. fold fetch_request.
  destruct (serve fetch_request (server w)).1 as [|r]; simpl; [done|].
  by destruct (is_success_response r).
Qed.

Lemma submit_new_log new_questions w :
  (_submit_new_final_questions serve new_questions w).2
  = after serve (create_request new_questions) w.
Proof.
  unfold _submit_new_final_questions, bind.
  rewrite make_request_spec. fold (create_request new_questions).
  destruct (serve _ (server w)).1 as [|r]; simpl; [done|].
  by destruct (is_success_response r).
Qed.

(** C8. When the fetch of the final collection gives no state (the
    request raises, or its response is not a success, so that
    [_get_existing_final_questions] returns [None]), the submission
    makes exactly one more request: the create call, with every local
    final record in its payload.  No update request is made. *)
Theorem fetch_failure_creates_all final_questions w :
  fetched (serve fetch_request (server w)).1 = None →
  (_get_existing_final_questions serve w).1 = Ret None
  ∧ log (_handle_final_submission_with_updates serve final_questions w).2
    = log w ++ [fetch_request; create_request final_questions].
Proof.
  intros Hnone. split.
  - by rewrite get_existing_spec, Hnone.
  - unfold _handle_final_submission_with_updates, try_except.
    unfold bind at 1. rewrite get_existing_spec, Hnone.
    unfold bind.
    pose proof (submit_new_log final_questions (after serve fetch_request w)) as Hlog.
    destruct (_submit_new_final_questions serve final_questions
                (after serve fetch_request w)) as [[r|] w'];
      simpl in *; subst w'; simpl; by rewrite <- app_assoc.
Qed.

Lemma omap_all_None {A B} (f : A → option B) (l : list A) :
  (∀ a, a ∈ l → f a = None) → omap f l = [].
Proof.
  induction l as [|x l IH]; intros H; csimpl; [done|].
  rewrite (H x) by apply list_elem_of_here.
  apply IH. intros a Ha. apply H. by apply list_elem_of_further.
Qed.

Lemma counterpart_lookup existing q e :
  counterpart existing q e →
  build_lookup existing ∅ !! question_key q = Some e.
Proof.
  intros (Hne & l1 & l2 & -> & Hk & Hlast). rewrite <- Hk.
  apply ReconcileProps.build_lookup_last; rewrite Hk; done.
Qed.

(** When no two remote records share a normalized text, any remote
    record with the text of [q] is the one [q] is compared with. *)
Lemma counterpart_distinct_keys existing q e :
  NoDup (question_key <$> existing) →
  e ∈ existing → question_key e = question_key q → question_key q ≠ EmptyString →
  counterpart existing q e.
Proof.
  intros Hnd He Hk Hne. split; [done|].
  apply list_elem_of_split in He as (l1 & l2 & ->).
  exists l1, l2. split; [done|]. split; [done|].
  intros e' He' Hk'.
  rewrite fmap_app, fmap_cons in Hnd.
  apply NoDup_app in Hnd as (_ & _ & Hnd).
  apply NoDup_cons in Hnd as [Hnotin _].
  apply Hnotin. rewrite Hk, <- Hk'. by apply list_elem_of_fmap_2.
Qed.

Lemma all_unchanged finals existing :
  (∀ q, q ∈ finals →
     ∃ e, counterpart existing q e ∧ _answers_have_changed q e = false) →
  _categorize_questions_for_submission finals existing = ([], [], finals).
Proof.
  intros H. rewrite ReconcileProps.categorize_spec. cbv zeta.
  assert (∀ q, q ∈ finals →
            classify (build_lookup existing ∅) q = Unchanged) as Hc.
  { intros q Hq. destruct (H q Hq) as (e & He & Hsame).
    unfold classify. by rewrite (counterpart_lookup _ _ _ He), Hsame. }
  rewrite filter_all_false, omap_all_None, filter_all_true; [done|..].
  - intros q Hq. by rewrite (Hc q Hq).
  - intros q Hq. unfold as_changed. by rewrite (Hc q Hq).
  - intros q Hq. by rewrite (Hc q Hq).
Qed.

Lemma handle_nothing_to_write finals existing w :
  fetched (serve fetch_request (server w)).1 = Some existing →
  _categorize_questions_for_submission finals existing = ([], [], finals) →
  _handle_final_submission_with_updates serve finals w
  = (Ret {| submitted_count := 0;
            total_processed := Some (length finals);
            success := (0 <? length finals)%nat;
            details := Some {| new_submitted := 0; updated := 0;
                               unchanged := length finals |} |},
     after serve fetch_request w).
Proof.
  intros Hf Hcat.
  unfold _handle_final_submission_with_updates, try_except.
  unfold bind at 1. rewrite get_existing_spec, Hf, Hcat. done.
Qed.

(** C7, as the code has it.  Let the fetch succeed, return the remote
    records and leave the store as it is.  If every local final
    record has a question text that is not empty once trimmed, and
    the remote record that reconciliation compares it with (the last
    remote record with the same normalized text) has answers that
    compare equal, then every record is classified unchanged and the
    submission makes the fetch and no other request: no create call
    and no update call.  A second run in the world the first one
    leaves does the same. *)
Theorem matching_sets_write_nothing finals r w :
  serve fetch_request (server w) = (Replied r, server w) →
  is_success_response r = true →
  (∀ q, q ∈ finals →
     ∃ e, counterpart (extract_questions_from_response r) q e
          ∧ _answers_have_changed q e = false) →
  let run := _handle_final_submission_with_updates serve finals in
  let summary :=
    {| submitted_count := 0;
       total_processed := Some (length finals);
       success := (0 <? length finals)%nat;
       details := Some {| new_submitted := 0; updated := 0;
                          unchanged := length finals |} |} in
  _categorize_questions_for_submission finals
    (extract_questions_from_response r) = ([], [], finals)
  ∧ run w
    = (Ret summary, {| server := server w; log := log w ++ [fetch_request] |})
  ∧ run (run w).2
    = (Ret summary,
       {| server := server w;
          log := log w ++ [fetch_request; fetch_request] |}).
Proof.
  intros Hserve Hok Hall run summary.
  pose proof (all_unchanged _ _ Hall) as Hcat.
  assert (∀ w', server w' = server w →
            run w' = (Ret summary,
                      {| server := server w;
                         log := log w' ++ [fetch_request] |})) as Hrun.
  { intros w' Hw'. unfold run.
    rewrite (handle_nothing_to_write finals
               (extract_questions_from_response r)); [|by rewrite Hw', Hserve; simpl; rewrite Hok|done].
    unfold after. by rewrite Hw', Hserve. }
  split; [done|]. split; [by apply Hrun|].
  rewrite (Hrun w eq_refl). simpl.
  rewrite Hrun by done. simpl. by rewrite <- app_assoc.
Qed.

(** *** The requests a submission can make *)

Lemma only_issues_ret {A} P (a : A) : only_issues P (ret (Server:=Server) a).
Proof. intros w. exists []. by rewrite app_nil_r. Qed.

Lemma only_issues_bind {A B} P (c : M Server A) (k : A → M Server B) :
  only_issues P c → (∀ a, only_issues P (k a)) → only_issues P (bind c k).
Proof.
  intros Hc Hk w. unfold bind.
  destruct (Hc w) as (r1 & E1 & F1).
  destruct (c w) as [[a|] w1]; simpl in E1.
  - destruct (Hk a w1) as (r2 & E2 & F2).
    exists (r1 ++ r2). rewrite E2, E1, app_assoc. split; [done|].
    by apply Forall_app.
  - exists r1. by split.
Qed.

Lemma only_issues_try_except {A} P (c h : M Server A) :
  only_issues P c → only_issues P h → only_issues P (try_except c h).
Proof.
  intros Hc Hh w. unfold try_except.
  destruct (Hc w) as (r1 & E1 & F1).
  destruct (c w) as [[a|] w1]; simpl in E1.
  - exists r1. by split.
  - destruct (Hh w1) as (r2 & E2 & F2).
    exists (r1 ++ r2). rewrite E2, E1, app_assoc. split; [done|].
    by apply Forall_app.
Qed.

Lemma only_issues_make_request (P : Request → Prop) e m data :
  P (mkRequest m e data) → only_issues P (make_request serve e m data).
Proof.
  intros HP w. rewrite make_request_spec. exists [mkRequest m e data].
  split; [done|]. by constructor.
Qed.

Lemma only_issues_impl {A} (P Q : Request → Prop) (c : M Server A) :
  (∀ req, P req → Q req) → only_issues P c → only_issues Q c.
Proof.
  intros HPQ Hc w. destruct (Hc w) as (r & E & F).
  exists r. split; [done|]. eapply Forall_impl; eauto.
Qed.

Lemma try_methods_issues e methods update_payload :
  only_issues
    (λ req, method req ∈ methods ∧ payload req = update_payload)
    (try_methods serve e methods update_payload).
Proof.
  induction methods as [|m methods IH]; cbn [try_methods].
  - apply only_issues_ret.
  - apply only_issues_bind.
    + apply only_issues_try_except; [|apply only_issues_ret].
      apply only_issues_bind.
      * apply only_issues_make_request. split; [apply list_elem_of_here|done].
      * intros r. apply only_issues_ret.
    + intros [|]; [apply only_issues_ret|].
      eapply only_issues_impl; [|apply IH].
      intros req [Hm Hp]. split; [by apply list_elem_of_further|done].
Qed.

Lemma try_endpoints_issues endpoints update_payload :
  only_issues
    (λ req, is_update req = true ∧ payload req = update_payload)
    (try_endpoints serve endpoints update_payload).
Proof.
  induction endpoints as [|e endpoints IH]; cbn [try_endpoints].
  - apply only_issues_ret.
  - apply only_issues_bind; [|intros [|]; [apply only_issues_ret|apply IH]].
    eapply only_issues_impl; [|apply try_methods_issues].
    intros req [Hm Hp]. split; [|done]. unfold is_update.
    apply elem_of_cons in Hm as [->|Hm]; [done|].
    apply list_elem_of_singleton in Hm as ->. done.
Qed.

Lemma update_loop_issues updated_questions : ∀ n,
  only_issues
    (λ req, is_update req = true
            ∧ ∃ q, q ∈ updated_questions ∧ payload req = [q])
    (update_loop serve updated_questions n).
Proof.
  induction updated_questions as [|q rest IH]; intros n; cbn [update_loop].
  - apply only_issues_ret.
  - assert (∀ n, only_issues
              (λ req, is_update req = true
                      ∧ ∃ q0, q0 ∈ q :: rest ∧ payload req = [q0])
              (update_loop serve rest n)) as Hrest.
    { intros n'. eapply only_issues_impl; [|apply IH].
      intros req (Hu & q0 & Hq0 & Hp). split; [done|]. exists q0.
      split; [by apply list_elem_of_further|done]. }
    destruct (_existing_id q) as [question_id|]; [|apply Hrest].
    destruct (PyStr.truthy question_id); [|apply Hrest].
    apply only_issues_bind; [|intros ok; apply Hrest].
    eapply only_issues_impl; [|apply try_endpoints_issues].
    intros req [Hu Hp]. split; [done|]. exists q.
    split; [apply list_elem_of_here|done].
Qed.

(** Every request of a submission is the fetch, a create call, or an
    update call that carries exactly one record of the changed list. *)
Lemma handle_issues final_questions :
  only_issues
    (λ req, req = fetch_request
            ∨ (∃ questions, req = create_request questions)
            ∨ (is_update req = true
               ∧ ∃ existing q,
                   q ∈ (_categorize_questions_for_submission
                          final_questions existing).1.2
                   ∧ payload req = [q]))
    (_handle_final_submission_with_updates serve final_questions).
Proof.
  unfold _handle_final_submission_with_updates.
  apply only_issues_try_except; [|apply only_issues_ret].
  apply only_issues_bind.
  { unfold _get_existing_final_questions.
    apply only_issues_try_except; [|apply only_issues_ret].
    apply only_issues_bind; [apply only_issues_make_request; by left|].
    intros r. destruct (is_success_response r); apply only_issues_ret. }
  assert (∀ qs, only_issues
            (λ req, req = fetch_request
                    ∨ (∃ questions, req = create_request questions)
                    ∨ (is_update req = true
                       ∧ ∃ existing q,
                           q ∈ (_categorize_questions_for_submission
                                  final_questions existing).1.2
                           ∧ payload req = [q]))
            (_submit_new_final_questions serve qs)) as Hsubmit.
  { intros qs. unfold _submit_new_final_questions.
    apply only_issues_bind.
    - apply only_issues_make_request. right. left. by exists qs.
    - intros r. destruct (is_success_response r); apply only_issues_ret. }
  intros [existing|]; [|apply Hsubmit].
  destruct (_categorize_questions_for_submission final_questions existing)
    as [[new_questions updated_questions] unchanged_questions] eqn:Ecat.
  apply only_issues_bind.
  { destruct (Eligibility.is_empty new_questions); [apply only_issues_ret|].
    apply only_issues_bind; [apply Hsubmit|].
    intros r. destruct (success r); apply only_issues_ret. }
  intros submitted1. apply only_issues_bind; [|intros; apply only_issues_ret].
  destruct (Eligibility.is_empty updated_questions); [apply only_issues_ret|].
  apply only_issues_bind.
  - unfold _update_existing_final_questions.
    apply only_issues_bind; [|intros; apply only_issues_ret].
    eapply only_issues_impl; [|apply update_loop_issues].
    intros req (Hu & q & Hq & Hp). right. right. split; [done|].
    exists existing, q. by rewrite Ecat.
  - intros r. destruct (success r); apply only_issues_ret.
Qed.

(** C10. Remote records whose question text is empty or blank are not
    in the lookup, so a local final record whose question text is empty
    once trimmed finds no entry: it is classified new, no record of the
    changed or of the unchanged list has such a text, and no update
    request of the submission carries such a record. *)
Theorem empty_text_always_new finals existing q w :
  q ∈ finals → PyStr.strip (question q) = EmptyString →
  let lookup := build_lookup existing ∅ in
  (∀ k e, lookup !! k = Some e → PyStr.strip (question e) ≠ EmptyString)
  ∧ lookup !! question_key q = None
  ∧ classify lookup q = New
  ∧ (∃ new_questions updated_questions unchanged_questions,
       _categorize_questions_for_submission finals existing
       = (new_questions, updated_questions, unchanged_questions)
       ∧ q ∈ new_questions
       ∧ (∀ q', q' ∈ updated_questions ∨ q' ∈ unchanged_questions →
            PyStr.strip (question q') ≠ EmptyString))
  ∧ ∃ requests,
      log (_handle_final_submission_with_updates serve finals w).2
      = log w ++ requests
      ∧ Forall (λ req, is_update req = true →
                       ∃ q', payload req = [q']
                             ∧ PyStr.strip (question q') ≠ EmptyString) requests.
Proof.
  intros Hq Hblank lookup.
  destruct (ReconcileProps.blank_text_classified_new finals existing q Hq Hblank)
    as (Hnone & Hnew & Hin).
  split; [|split; [done|split; [done|split]]].
  - intros k e H Hb.
    pose proof (ReconcileProps.lookup_key_not_empty _ _ _ H) as Hk.
    apply ReconcileProps.build_lookup_Some in H as [H|(_ & <- & _)].
    + by rewrite lookup_empty in H.
    + by apply ReconcileProps.question_key_empty in Hb.
  - pose proof (ReconcileProps.matched_not_blank finals existing) as Hnb.
    destruct (_categorize_questions_for_submission finals existing)
      as [[new_questions updated_questions] unchanged_questions].
    by exists new_questions, updated_questions, unchanged_questions.
  - destruct (handle_issues finals w) as (requests & Hlog & Hall).
    exists requests. split; [done|].
    eapply Forall_impl; [exact Hall|].
    intros req [->|[[qs ->]|(_ & existing' & q' & Hq' & Hp)]] Hu; [done..|].
    exists q'. split; [done|].
    apply (ReconcileProps.matched_not_blank finals existing'). by left.
Qed.
End WithServer.

Lemma fetch_failure_creates_all_witness :
  fetched (Sample.serve_fetch_down fetch_request []).1 = None
  ∧ log (_handle_final_submission_with_updates Sample.serve_fetch_down
           [Sample.city_local; Sample.blank_local] (Sample.world [])).2
    = [fetch_request; create_request [Sample.city_local; Sample.blank_local]].
Proof.
  split; [reflexivity|].
  apply (fetch_failure_creates_all _ Sample.serve_fetch_down
           [Sample.city_local; Sample.blank_local] (Sample.world [])).
  reflexivity.
Defined.

Lemma empty_text_always_new_witness :
  PyStr.strip (question Sample.blank_local) = EmptyString
  ∧ _categorize_questions_for_submission
      [Sample.blank_local; Sample.city_local]
      [Sample.blank_remote; Sample.city_remote]
    = ([Sample.blank_local], [], [Sample.city_local])
  ∧ classify (build_lookup [Sample.blank_remote; Sample.city_remote] ∅)
      Sample.blank_local = New.
Proof.
  split; [reflexivity|]. split; [by vm_compute|].
  apply (empty_text_always_new _ Sample.serve
           [Sample.blank_local; Sample.city_local]
           [Sample.blank_remote; Sample.city_remote]
           Sample.blank_local
           (Sample.world [Sample.blank_remote; Sample.city_remote]));
    [apply list_elem_of_here|reflexivity].
Defined.

Lemma matching_sets_write_nothing_witness :
  _categorize_questions_for_submission [Sample.city_local] [Sample.city_remote]
  = ([], [], [Sample.city_local])
  ∧ log (_handle_final_submission_with_updates Sample.serve
           [Sample.city_local] (Sample.world [Sample.city_remote])).2
    = [fetch_request].
Proof.
  pose proof (matching_sets_write_nothing _ Sample.serve [Sample.city_local]
                (mkResponse true [Sample.city_remote])
                (Sample.world [Sample.city_remote]) eq_refl eq_refl) as H.
  cbv zeta in H. destruct H as (Hcat & Hrun & _).
  - intros q Hq. apply list_elem_of_singleton in Hq as ->.
    exists Sample.city_remote. split; [|by vm_compute].
    split; [by vm_compute|]. exists [], [].
    split; [reflexivity|]. split; [by vm_compute|].
    intros e' He'. by apply elem_of_nil in He'.
  - split; [exact Hcat|]. by rewrite Hrun.
Defined.

(** C7 as stated fails.  The remote set is the local set, so every
    local record has a remote counterpart with the same normalized text
    and equal answers; the text is blank, the record is classified new
    and a create call is made. *)
Lemma identical_blank_record_created :
  let finals := [Sample.blank_local] in
  let existing := [Sample.blank_local] in
  (∀ q, q ∈ finals →
     ∃ e, e ∈ existing ∧ question_key e = question_key q
          ∧ _answers_have_changed q e = false)
  ∧ _categorize_questions_for_submission finals existing = (finals, [], [])
  ∧ log (_handle_final_submission_with_updates Sample.serve
           finals (Sample.world existing)).2
    = [fetch_request; create_request finals].
Proof.
  split; [|split; by vm_compute].
  intros q Hq. apply list_elem_of_singleton in Hq as ->.
  exists Sample.blank_local. split; [apply list_elem_of_here|].
  split; by vm_compute.
Qed.

(** Two remote records with the same normalized text: the local record
    equals the first but is compared with the last, and an update is
    requested for the last one. *)
Example duplicate_text_last_wins :
  _answers_have_changed Sample.city_local Sample.city_remote = false
  ∧ _categorize_questions_for_submission [Sample.city_local]
      [Sample.city_remote; Sample.city_remote_stale]
    = ([], [set_existing_id (Some "r-city-old") Sample.city_local], [])
  ∧ log (_handle_final_submission_with_updates Sample.serve
           [Sample.city_local]
           (Sample.world [Sample.city_remote; Sample.city_remote_stale])).2
    = [fetch_request;
       {| method := PUT; endpoint := FinalItem "r-city-old";
          payload := [set_existing_id (Some "r-city-old") Sample.city_local] |}].
Proof. repeat split; by vm_compute. Qed.
End SubmissionProps.


(** ** Python string methods *)

Module PyStrProps.
Import PyStr.

Lemma isspace_lower_char c : isspace (lower_char c) = isspace c.
Proof. destruct c as [[] [] [] [] [] [] [] []]; reflexivity. Qed.

Lemma lower_char_idemp c : lower_char (lower_char c) = lower_char c.
Proof. destruct c as [[] [] [] [] [] [] [] []]; reflexivity. Qed.

Lemma lower_idemp s : lower (lower s) = lower s.
Proof.
  induction s as [|c s IH]; simpl; [done|].
  by rewrite lower_char_idemp, IH.
Qed.

Lemma lstrip_lower s : lstrip (lower s) = lower (lstrip s).
Proof.
  induction s as [|c s IH]; simpl; [done|].
  rewrite isspace_lower_char. by destruct (isspace c).
Qed.

Lemma rstrip_lower s : rstrip (lower s) = lower (rstrip s).
Proof.
  induction s as [|c s IH]; simpl; [done|].
  rewrite IH, isspace_lower_char.
  destruct (rstrip s); simpl; [|done].
  by destruct (isspace c).
Qed.

(** Trimming and lower-casing commute. *)
Lemma strip_lower s : strip (lower s) = lower (strip s).
Proof. unfold strip. by rewrite lstrip_lower, rstrip_lower. Qed.

Lemma lstrip_starts_clean s :
  match lstrip s with
  | EmptyString => True
  | String c _ => isspace c = false
  end.
Proof.
  induction s as [|c s IH]; simpl; [done|].
  destruct (isspace c) eqn:E; [done|]. simpl. done.
Qed.

Lemma lstrip_clean s :
  match s with
  | EmptyString => True
  | String c _ => isspace c = false
  end →
  lstrip s = s.
Proof. destruct s as [|c s]; simpl; [done|]. by intros ->. Qed.

Lemma rstrip_starts_clean s :
  match s with
  | EmptyString => True
  | String c _ => isspace c = false
  end →
  match rstrip s with
  | EmptyString => True
  | String c _ => isspace c = false
  end.
Proof.
  destruct s as [|c s]; simpl; [done|]. intros Hc.
  rewrite Hc. by destruct (rstrip s).
Qed.

Lemma rstrip_idemp s : rstrip (rstrip s) = rstrip s.
Proof.
  induction s as [|c s IH]; simpl; [done|].
  destruct (rstrip s) as [|c' r] eqn:E.
  - destruct (isspace c) eqn:Ec; simpl; [done|]. by rewrite Ec.
  - simpl. simpl in IH. by rewrite IH.
Qed.

(** Trimming a trimmed string changes nothing. *)
Lemma strip_idemp s : strip (strip s) = strip s.
Proof.
  unfold strip.
  rewrite (lstrip_clean (rstrip (lstrip s))).
  - apply rstrip_idemp.
  - apply rstrip_starts_clean, lstrip_starts_clean.
Qed.
End PyStrProps.

(** ** The ranker by value *)

Section PySortMore.
Context {A : Type}.

(** A sorted list is left as it is. *)
Lemma py_sort_sorted_id (le : A → A → bool) (l : list A) :
  StronglySorted (λ a b, le a b = true) l → py_sort le l = l.
Proof.
  induction 1 as [|x l Hs IH Hall]; simpl; [done|].
  rewrite IH. destruct l as [|y l']; simpl; [done|].
  apply Forall_cons in Hall as [Hxy _]. by rewrite Hxy.
Qed.

Lemma py_insert_ext (le1 le2 : A → A → bool) x l :
  (∀ a b, le1 a b = le2 a b) → py_insert le1 x l = py_insert le2 x l.
Proof.
  intros H. induction l as [|y l IH]; simpl; [done|].
  by rewrite H, IH.
Qed.

Lemma py_insert_fmap {B} (g : A → B) (le1 : A → A → bool)
    (le2 : B → B → bool) x l :
  (∀ a b, le1 a b = le2 (g a) (g b)) →
  g <$> py_insert le1 x l = py_insert le2 (g x) (g <$> l).
Proof.
  intros H. induction l as [|y l IH]; csimpl; [done|].
  rewrite <- H. destruct (le1 x y); csimpl; [done|]. by rewrite IH.
Qed.

(** Sorting commutes with a map that carries one order to the other. *)
Lemma py_sort_fmap {B} (g : A → B) (le1 : A → A → bool)
    (le2 : B → B → bool) l :
  (∀ a b, le1 a b = le2 (g a) (g b)) →
  g <$> py_sort le1 l = py_sort le2 (g <$> l).
Proof.
  intros H. induction l as [|x l IH]; csimpl; [done|].
  by rewrite (py_insert_fmap g le1 le2), IH.
Qed.
End PySortMore.

Lemma List_filter_fmap {A B} (f : B → bool) (g : A → B) (l : list A) :
  List.filter f (g <$> l) = g <$> List.filter (λ a, f (g a)) l.
Proof.
  induction l as [|x l IH]; csimpl; [done|].
  destruct (f (g x)); csimpl; by rewrite IH.
Qed.

Module RankValuesProps.
Import AnswerRanker QuestionProcessor RankerProps.

Section WithScoring.
Variable scoring_values : list Z.

(** [rank_answers] by value: the correct answers, sorted by descending
    count and numbered, then the incorrect ones, reset, in the order of
    the input. *)
Lemma rank_values_spec (l : list Answer) :
  rank_values scoring_values l
  = (imap (λ i a, with_rank_score (Z.of_nat i + 1) (score_for scoring_values i) a)
       (py_sort count_desc (List.filter isCorrect l))
     ++ (with_rank_score 0 0 <$> List.filter (λ a, negb (isCorrect a)) l),
     length (List.filter isCorrect l),
     length (List.filter (λ j, 0 <? score_for scoring_values j)
               (seq 0 (length (List.filter isCorrect l))))).
Proof.
  unfold rank_values.
  pose proof (final_out scoring_values (objects l) (refs l)) as Hout.
  pose proof (final_ranked scoring_values (objects l) (refs l)) as Hr.
  pose proof (final_scored scoring_values (objects l) (refs l)) as Hs.
  pose proof (λ j a, final_correct scoring_values (objects l) (refs l) j a
                       (refs_NoDup l)) as Hat.
  pose proof (final_incorrect scoring_values (objects l) (refs l)) as Hinc.
  destruct (rank_answers scoring_values (objects l) (refs l))
    as [[[h' out] r] s]. simpl in *.
  rewrite correct_refs_length in Hr, Hs. subst r s out.
  do 2 f_equal.
  change (List.map h') with (fmap (M:=list) h'). rewrite fmap_app. f_equal.
  - assert (py_sort count_desc (List.filter isCorrect l)
            = objects l <$> py_sort (by_count_desc (objects l))
                              (List.filter (λ a, isCorrect (objects l a)) (refs l)))
      as ->.
    { rewrite (py_sort_fmap (objects l) _ count_desc) by done.
      by rewrite <- List_filter_fmap, objects_refs. }
    apply list_eq. intros j. rewrite list_lookup_imap, !list_lookup_fmap.
    destruct (py_sort _ _ !! j) as [a|] eqn:E; simpl; [|done].
    by rewrite (Hat j a E).
  - rewrite <- (objects_refs l) at 2. rewrite List_filter_fmap.
    rewrite <- list_fmap_compose. apply list_fmap_ext.
    intros i a Ha. simpl. apply list_elem_of_lookup_2 in Ha.
    apply elem_of_List_filter in Ha as [Ha Hc].
    apply Hinc; [done|]. by destruct (isCorrect (objects l a)).
Qed.

Lemma scored_bound k :
  (length (List.filter (λ j, (0 <? score_for scoring_values j)%Z) (seq 0 k)) ≤ k
   ∧ length (List.filter (λ j, (0 <? score_for scoring_values j)%Z) (seq 0 k))
     ≤ length scoring_values)%nat.
Proof.
  induction k as [|k [IH1 IH2]]; [simpl; lia|].
  rewrite seq_S, List.filter_app, length_app. simpl.
  destruct (0 <? score_for scoring_values k) eqn:Es; simpl; [|lia].
  assert (k < length scoring_values)%nat as Hk.
  { unfold score_for in Es.
    destruct (k <? length scoring_values)%nat eqn:E; [|done].
    by apply Nat.ltb_lt. }
  split; [lia|].
  assert (length (List.filter (λ j, (0 <? score_for scoring_values j)%Z) (seq 0 k))
          ≤ k)%nat by done.
  lia.
Qed.

Lemma rank_values_ranked_scored (l : list Answer) :
  (rank_values scoring_values l).1.2 = length (List.filter isCorrect l)
  ∧ ((rank_values scoring_values l).2 ≤ (rank_values scoring_values l).1.2)%nat.
Proof.
  rewrite rank_values_spec. simpl. split; [done|].
  apply (scored_bound (length (List.filter isCorrect l))).
Qed.

(** X1. The counts of [rank_answers]: the result has the length of the
    input, the ranked count is the number of correct answers, and the
    scored count exceeds neither the ranked count nor the length of the
    scoring table. *)
Theorem rank_values_counts (l : list Answer) :
  let '(out, answers_ranked, answers_scored) := rank_values scoring_values l in
  length out = length l
  ∧ answers_ranked = length (List.filter isCorrect l)
  ∧ (answers_scored ≤ answers_ranked)%nat
  ∧ (answers_scored ≤ length scoring_values)%nat
  ∧ (answers_ranked ≤ length l)%nat.
Proof.
  rewrite rank_values_spec.
  pose proof (scored_bound (length (List.filter isCorrect l))) as Hb.
  pose proof (filter_partition_Permutation isCorrect l) as Hp.
  apply Permutation_length in Hp. rewrite length_app in Hp.
  split; [|split; [done|lia]].
  rewrite length_app, length_imap, length_fmap, py_sort_length. lia.
Qed.

Lemma with_rank_score_content r s a b :
  same_content a b → with_rank_score r s a = with_rank_score r s b.
Proof.
  intros (H1 & H2 & H3). unfold with_rank_score, set_score, set_rank. simpl.
  by rewrite H1, H2, H3.
Qed.

Lemma Forall2_List_filter {A} (R : A → A → Prop) (f : A → bool) l1 l2 :
  (∀ a b, R a b → f a = f b) →
  Forall2 R l1 l2 → Forall2 R (List.filter f l1) (List.filter f l2).
Proof.
  intros Hf. induction 1 as [|a b l1 l2 Hab _ IH]; simpl; [constructor|].
  rewrite <- (Hf a b Hab). destruct (f a); [by constructor|done].
Qed.

Lemma Forall2_py_insert {A} (R : A → A → Prop) (le : A → A → bool) x y l1 l2 :
  (∀ a b a' b', R a a' → R b b' → le a b = le a' b') →
  R x y → Forall2 R l1 l2 →
  Forall2 R (py_insert le x l1) (py_insert le y l2).
Proof.
  intros Hle Hxy. induction 1 as [|a b l1 l2 Hab Hl IH]; simpl.
  - by repeat constructor.
  - rewrite <- (Hle x a y b Hxy Hab).
    destruct (le x a); by repeat constructor.
Qed.

Lemma Forall2_py_sort {A} (R : A → A → Prop) (le : A → A → bool) l1 l2 :
  (∀ a b a' b', R a a' → R b b' → le a b = le a' b') →
  Forall2 R l1 l2 → Forall2 R (py_sort le l1) (py_sort le l2).
Proof.
  intros Hle. induction 1 as [|a b l1 l2 Hab _ IH]; simpl; [constructor|].
  by apply Forall2_py_insert.
Qed.

Lemma count_desc_content a b a' b' :
  same_content a a' → same_content b b' → count_desc a b = count_desc a' b'.
Proof.
  intros (_ & _ & Ha) (_ & _ & Hb). unfold count_desc. by rewrite Ha, Hb.
Qed.

Lemma imap_with_rank_score_content (f g : nat → Z) l1 l2 :
  Forall2 same_content l1 l2 →
  imap (λ i a, with_rank_score (f i) (g i) a) l1
  = imap (λ i a, with_rank_score (f i) (g i) a) l2.
Proof.
  intros H. revert f g.
  induction H as [|a b l1 l2 Hab _ IH]; intros f g; simpl; [done|].
  rewrite (with_rank_score_content _ _ a b Hab). f_equal.
  apply (IH (f ∘ S) (g ∘ S)).
Qed.

(** X2. The ranks and scores that the answers carry on input do not
    count: two lists whose answers have, position by position, the same
    text, flag and response count are ranked to the same result. *)
Theorem rank_values_forget_old_ranks (l1 l2 : list Answer) :
  Forall2 same_content l1 l2 →
  rank_values scoring_values l1 = rank_values scoring_values l2.
Proof.
  intros H. rewrite !rank_values_spec.
  assert (Forall2 same_content (List.filter isCorrect l1)
            (List.filter isCorrect l2)) as Hc.
  { apply Forall2_List_filter; [|done]. by intros a b (_ & ? & _). }
  assert (Forall2 same_content (List.filter (λ a, negb (isCorrect a)) l1)
            (List.filter (λ a, negb (isCorrect a)) l2)) as Hi.
  { apply Forall2_List_filter; [|done]. intros a b (_ & Hf & _). by rewrite Hf. }
  rewrite (Forall2_length _ _ _ Hc).
  f_equal. f_equal. f_equal.
  - apply imap_with_rank_score_content, Forall2_py_sort; [|done].
    intros. by apply count_desc_content.
  - clear -Hi. induction Hi as [|a b ? ? Hab _ IH]; csimpl; [done|].
    by rewrite (with_rank_score_content _ _ a b Hab), IH.
Qed.

Lemma imap_with_rank_score_idemp (f g : nat → Z) l :
  imap (λ i a, with_rank_score (f i) (g i) a)
    (imap (λ i a, with_rank_score (f i) (g i) a) l)
  = imap (λ i a, with_rank_score (f i) (g i) a) l.
Proof.
  revert f g. induction l as [|a l IH]; intros f g; simpl; [done|].
  f_equal. apply (IH (f ∘ S) (g ∘ S)).
Qed.

Lemma imap_with_rank_score_Forall2 (f g : nat → Z) l :
  Forall2 same_content l (imap (λ i a, with_rank_score (f i) (g i) a) l).
Proof.
  revert f g. induction l as [|a l IH]; intros f g; simpl; constructor.
  - by repeat split.
  - apply (IH (f ∘ S) (g ∘ S)).
Qed.

Lemma StronglySorted_Forall2 {A} (R : A → A → Prop) (P : A → A → Prop) l1 l2 :
  (∀ a b a' b', P a a' → P b b' → R a b → R a' b') →
  Forall2 P l1 l2 → StronglySorted R l1 → StronglySorted R l2.
Proof.
  intros HR H. induction H as [|a a' l1 l2 Ha Hl IH]; intros Hs; [constructor|].
  apply StronglySorted_inv in Hs as [Hs Hall].
  constructor; [by apply IH|].
  clear IH Hs. induction Hl as [|b b' l1 l2 Hb _ IH]; [constructor|].
  apply Forall_cons in Hall as [Hab Hall].
  constructor; [by eapply HR|by apply IH].
Qed.

(** X3. Ranking is idempotent: ranking the list that [rank_answers]
    returned gives this list again, with the same counts. *)
Theorem rank_values_idempotent (l : list Answer) :
  rank_values scoring_values (rank_values scoring_values l).1.1
  = rank_values scoring_values l.
Proof.
  rewrite (rank_values_spec l). simpl.
  set (f := λ (i : nat) a, with_rank_score (Z.of_nat i + 1)
                             (score_for scoring_values i) a).
  set (sorted := py_sort count_desc (List.filter isCorrect l)).
  set (incorrect := List.filter (λ a, negb (isCorrect a)) l).
  assert (∀ a, a ∈ imap f sorted → isCorrect a = true) as Hcorrect.
  { intros a (i & x & -> & Hx)%elem_of_lookup_imap. simpl.
    apply list_elem_of_lookup_2, py_sort_elem_of, elem_of_List_filter in Hx.
    tauto. }
  assert (∀ a, a ∈ with_rank_score 0 0 <$> incorrect → isCorrect a = false)
    as Hincorrect.
  { intros a (x & -> & Hx)%list_elem_of_fmap. simpl.
    apply elem_of_List_filter in Hx as [_ Hx]. by destruct (isCorrect x). }
  assert (List.filter isCorrect (imap f sorted ++ (with_rank_score 0 0 <$> incorrect))
          = imap f sorted) as E1.
  { rewrite List.filter_app, filter_all_true, filter_all_false by done.
    apply app_nil_r. }
  assert (List.filter (λ a, negb (isCorrect a))
            (imap f sorted ++ (with_rank_score 0 0 <$> incorrect))
          = with_rank_score 0 0 <$> incorrect) as E2.
  { rewrite List.filter_app, filter_all_false, filter_all_true; [done|..].
    - intros a Ha. by rewrite (Hincorrect a Ha).
    - intros a Ha. by rewrite (Hcorrect a Ha). }
  assert (py_sort count_desc (imap f sorted) = imap f sorted) as E3.
  { apply py_sort_sorted_id.
    eapply (StronglySorted_Forall2 _ same_content sorted).
    - intros a b a' b' Ha Hb. by rewrite (count_desc_content a b a' b').
    - apply imap_with_rank_score_Forall2.
    - apply py_sort_sorted.
      + intros x y. unfold count_desc. rewrite !Z.leb_le. lia.
      + intros x y z. unfold count_desc. rewrite !Z.leb_le. lia. }
  rewrite rank_values_spec, E1, E2, E3.
  rewrite length_imap.
  replace (length sorted) with (length (List.filter isCorrect l))
    by (symmetry; apply py_sort_length).
  unfold f. rewrite imap_with_rank_score_idemp.
  do 3 f_equal.
  rewrite <- list_fmap_compose. by apply list_fmap_ext.
Qed.
End WithScoring.
Lemma rank_values_forget_old_ranks_witness :
  Forall2 same_content Sample.records SampleRuns.records_reranked
  ∧ rank_values Sample.scoring Sample.records
    = rank_values Sample.scoring SampleRuns.records_reranked.
Proof.
  assert (Forall2 same_content Sample.records SampleRuns.records_reranked)
    as H by (repeat constructor).
  split; [exact H|].
  exact (rank_values_forget_old_ranks Sample.scoring _ _ H).
Defined.
End RankValuesProps.

(** ** The question processor and the batch *)

Module ProcessorProps.
Import AnswerRanker QuestionProcessor RankingService RankValuesProps.

Section WithConfig.
Variable scoring_values : list Z.
Variable validate_question : Question → bool.

Lemma existsb_filter_length {A} (f : A → bool) (l : list A) :
  existsb f l = (0 <? length (List.filter f l))%nat.
Proof.
  induction l as [|x l IH]; simpl; [done|].
  destruct (f x); simpl; [done|]. exact IH.
Qed.

Lemma should_process_iff q :
  _should_process_question q = existsb isCorrect (answers q).
Proof.
  unfold _should_process_question.
  destruct (answers q) as [|a l]; simpl; [done|].
  by destruct (isCorrect a || existsb isCorrect l).
Qed.

Lemma erase_with_rank_score r s a :
  with_rank_score 0 0 (with_rank_score r s a) = with_rank_score 0 0 a.
Proof. done. Qed.

(** The list returned holds the answers of the input, their ranks and
    scores apart. *)
Lemma rank_values_same_answers (l : list Answer) :
  with_rank_score 0 0 <$> (rank_values scoring_values l).1.1
  ≡ₚ with_rank_score 0 0 <$> l.
Proof.
  rewrite rank_values_spec. simpl. rewrite fmap_app.
  rewrite <- (filter_partition_Permutation isCorrect l) at 3.
  rewrite fmap_app. f_equiv.
  - rewrite <- (py_sort_Permutation count_desc (List.filter isCorrect l)) at 2.
    set (sorted := py_sort count_desc (List.filter isCorrect l)).
    apply eq_subrelation; [apply _|].
    apply list_eq. intros i. rewrite !list_lookup_fmap, list_lookup_imap.
    by destruct (sorted !! i).
  - rewrite <- list_fmap_compose. apply eq_subrelation; [apply _|].
    by apply list_fmap_ext.
Qed.

Lemma process_question_counts q :
  existsb isCorrect (answers q) = true →
  (process_question scoring_values q).1.2
  = length (List.filter isCorrect (answers q))
  ∧ (1 ≤ (process_question scoring_values q).1.2)%nat
  ∧ ((process_question scoring_values q).2
     ≤ (process_question scoring_values q).1.2)%nat.
Proof.
  intros E. unfold process_question. rewrite should_process_iff, E.
  pose proof (rank_values_ranked_scored scoring_values (answers q)) as [Hr Hs].
  pose proof (existsb_filter_length isCorrect (answers q)) as He.
  rewrite E in He. symmetry in He. apply Nat.ltb_lt in He.
  destruct (rank_values scoring_values (answers q)) as [[out r] s].
  simpl in *. subst r. repeat split; (done || lia).
Qed.

(** X4. [process_question] leaves a question without correct answer
    (or without answers) as it is and counts nothing; otherwise it
    replaces the answers by the ranked list, which holds the same answers
    up to rank and score, touches no other key, and counts every correct
    answer.  So the ranked count is 0 exactly for the questions it
    skips. *)
Theorem process_question_outcome (q : Question) :
  let '(q', answers_ranked, answers_scored) :=
    process_question scoring_values q in
  (existsb isCorrect (answers q) = false →
     q' = q ∧ answers_ranked = 0%nat ∧ answers_scored = 0%nat)
  ∧ (existsb isCorrect (answers q) = true →
       q' = set_answers (answers q') q
       ∧ with_rank_score 0 0 <$> answers q' ≡ₚ with_rank_score 0 0 <$> answers q
       ∧ answers_ranked = length (List.filter isCorrect (answers q))
       ∧ (1 ≤ answers_ranked)%nat
       ∧ (answers_scored ≤ answers_ranked)%nat)
  ∧ (answers_ranked = 0%nat ↔ existsb isCorrect (answers q) = false).
Proof.
  unfold process_question. rewrite should_process_iff.
  pose proof (rank_values_ranked_scored scoring_values (answers q)) as Hc.
  pose proof (rank_values_same_answers (answers q)) as Hp.
  pose proof (existsb_filter_length isCorrect (answers q)) as He.
  destruct (existsb isCorrect (answers q)) eqn:E; simpl.
  - destruct (rank_values scoring_values (answers q)) as [[out r] s].
    simpl in *. destruct Hc as [-> Hs].
    symmetry in He. apply Nat.ltb_lt in He.
    split; [done|]. split; [|split; [lia|done]].
    intros _. repeat split; [done| |lia..]. done.
  - split; [done|]. split; [done|]. done.
Qed.

Lemma single_item q :
  let item := _process_single_question_in_batch scoring_values validate_question q in
  let pq := (process_question scoring_values q).1.1 in
  (processed item = true ↔
     existsb isCorrect (answers q) = true ∧ validate_question pq = true)
  ∧ (validation_failed item = true ↔
       existsb isCorrect (answers q) = true ∧ validate_question pq = false)
  ∧ (processed item = true →
       processed_question item = Some pq
       ∧ item_answers_ranked item = length (List.filter isCorrect (answers q))
       ∧ (1 ≤ item_answers_ranked item)%nat
       ∧ (item_answers_scored item ≤ item_answers_ranked item)%nat).
Proof.
  cbv zeta. unfold _process_single_question_in_batch.
  pose proof (process_question_counts q) as Ho.
  destruct (answers q) as [|a l] eqn:Ea; simpl Eligibility.is_empty; cbv iota.
  { simpl. intuition congruence. }
  rewrite <- Ea in *.
  destruct (existsb isCorrect (answers q)) eqn:E; simpl negb; cbv iota.
  2: { simpl. intuition congruence. }
  destruct (process_question scoring_values q) as [[pq r] s]. simpl in *.
  destruct (Ho eq_refl) as (-> & ? & ?).
  destruct (validate_question pq); simpl; intuition congruence.
Qed.

Lemma batch_loop_inv questions : ∀ b,
  let b' := batch_loop scoring_values validate_question questions b in
  (processed_count b' + skipped_count b' + validation_failed_count b'
   = processed_count b + skipped_count b + validation_failed_count b
     + length questions)%nat
  ∧ (processed_count b' + length (processed_questions b)
     = processed_count b + length (processed_questions b'))%nat
  ∧ (skipped_count b'
     = skipped_count b
       + length (List.filter (λ q, negb (existsb isCorrect (answers q)))
                   questions))%nat
  ∧ (Forall (λ pq, validate_question pq = true) (processed_questions b) →
     Forall (λ pq, validate_question pq = true) (processed_questions b'))
  ∧ (total_answers_ranked b + processed_count b'
     ≤ total_answers_ranked b' + processed_count b)%nat
  ∧ (total_answers_scored b' + total_answers_ranked b
     ≤ total_answers_scored b + total_answers_ranked b')%nat.
Proof.
  induction questions as [|q rest IH]; intros b; cbv zeta.
  { simpl. repeat split; (done || lia). }
  cbn [batch_loop].
  pose proof (single_item q) as (Hp & Hv & Hitem). cbv zeta in Hp, Hv, Hitem.
  set (item := _process_single_question_in_batch scoring_values
                 validate_question q) in *.
  cbn [List.filter length].
  destruct (processed item) eqn:Ep.
  - destruct (Hitem eq_refl) as (Hq & Hr & Hr1 & Hs).
    destruct (proj1 Hp eq_refl) as [Hc Hval].
    rewrite Hc. simpl negb. cbv iota.
    match goal with |- context [batch_loop _ _ rest ?b0] =>
      specialize (IH b0) end.
    cbv zeta in IH. simpl in IH.
    destruct IH as (I1 & I2 & I3 & I4 & I5 & I6).
    rewrite Hq in *. rewrite length_app in I2. simpl in I2.
    repeat split; try lia.
    intros Hall. apply I4. apply Forall_app. split; [done|].
    by constructor.
  - destruct (validation_failed item) eqn:Ev.
    + destruct (proj1 Hv eq_refl) as [Hc _]. rewrite Hc. simpl negb. cbv iota.
      match goal with |- context [batch_loop _ _ rest ?b0] =>
        specialize (IH b0) end.
      cbv zeta in IH. simpl in IH.
      destruct IH as (I1 & I2 & I3 & I4 & I5 & I6).
      repeat split; (done || lia).
    + assert (existsb isCorrect (answers q) = false) as Hc.
      { destruct (existsb isCorrect (answers q)) eqn:Hc; [|done].
        destruct (validate_question (process_question scoring_values q).1.1) eqn:Hval.
        - destruct Hp as [_ Hp]. by specialize (Hp (conj eq_refl eq_refl)).
        - destruct Hv as [_ Hv]. by specialize (Hv (conj eq_refl eq_refl)). }
      rewrite Hc. simpl negb. cbv iota. cbn [length].
      match goal with |- context [batch_loop _ _ rest ?b0] =>
        specialize (IH b0) end.
      cbv zeta in IH. simpl in IH.
      destruct IH as (I1 & I2 & I3 & I4 & I5 & I6).
      repeat split; (done || lia).
Qed.

(** X5. The batch accounts for every question exactly once: the
    processed, skipped and validation-failed counts add up to the number
    of questions.  The skipped ones are those without a correct answer;
    the list of processed questions has the processed count as its
    length and holds only questions that passed validation; every
    processed question ranks at least one answer, and no more answers
    are scored than ranked. *)
Theorem batch_accounts_for_every_question (questions : list Question) :
  let b := _process_questions_batch scoring_values validate_question questions in
  (processed_count b + skipped_count b + validation_failed_count b
   = length questions)%nat
  ∧ processed_count b = length (processed_questions b)
  ∧ skipped_count b
    = length (List.filter (λ q, negb (existsb isCorrect (answers q))) questions)
  ∧ Forall (λ pq, validate_question pq = true) (processed_questions b)
  ∧ (processed_count b ≤ total_answers_ranked b)%nat
  ∧ (total_answers_scored b ≤ total_answers_ranked b)%nat.
Proof.
  intros b. unfold b, _process_questions_batch.
  match goal with |- context [batch_loop _ _ questions ?b0] =>
    pose proof (batch_loop_inv questions b0) as H end.
  cbv zeta in H. simpl in H.
  destruct H as (I1 & I2 & I3 & I4 & I5 & I6).
  repeat split; try lia. by apply I4.
Qed.
End WithConfig.
End ProcessorProps.

(** ** The readiness summary *)

Module SummaryProps.
Import RankingService.

Lemma prepare_implies_ready q fq :
  Eligibility.prepare_one q = Some fq →
  _validate_question_for_final_submission q = true.
Proof.
  unfold Eligibility.prepare_one, _validate_question_for_final_submission.
  destruct (String.eqb (PyStr.lower (questionType q)) "input") eqn:Et;
    simpl; [|done].
  destruct (answers q) as [|a l] eqn:Ea; simpl Eligibility.is_empty; cbv iota;
    [done|].
  rewrite <- Ea. unfold Eligibility._validate_and_prepare_answers_for_final.
  rewrite Et. rewrite EligibilityProps.prepare_input_spec. cbv zeta.
  unfold _validate_input_question_for_final.
  destruct (length (List.filter Eligibility.ranked_correct (answers q)) <? 3)%nat;
    [done|done].
Qed.

Lemma prepared_le_ready questions :
  (length (Eligibility._prepare_questions_for_final_submission questions)
   ≤ length (List.filter _validate_question_for_final_submission questions))%nat.
Proof.
  rewrite EligibilityProps.prepare_questions_omap.
  induction questions as [|q rest IH]; csimpl; [done|].
  destruct (Eligibility.prepare_one q) as [fq|] eqn:E.
  - rewrite (prepare_implies_ready q fq E). simpl. lia.
  - destruct (_validate_question_for_final_submission q); simpl; lia.
Qed.

Lemma summary_step_counters s q :
  let s1 := summary_step s q in
  total_questions s1 = total_questions s
  ∧ (total_input_questions s1 + non_eligible_questions s1
     = S (total_input_questions s + non_eligible_questions s))%nat
  ∧ (total_mcq_questions s1 + non_eligible_questions s
     ≤ total_mcq_questions s + non_eligible_questions s1)%nat
  ∧ ready_for_final s1
    = (ready_for_final s
       + (if _validate_question_for_final_submission q then 1 else 0))%nat
  ∧ (ready_for_final s1 + needs_more_answers s1 + total_input_questions s
     ≤ ready_for_final s + needs_more_answers s + total_input_questions s1)%nat.
Proof.
  assert (_validate_question_for_final_submission q = true →
          String.eqb (PyStr.lower (questionType q)) "input" = true) as Hvi.
  { unfold _validate_question_for_final_submission.
    by destruct (String.eqb (PyStr.lower (questionType q)) "input"). }
  unfold summary_step. cbv zeta.
  destruct (String.eqb (PyStr.lower (questionType q)) "input") eqn:Ei.
  - destruct (_validate_question_for_final_submission q) eqn:Ev.
    + simpl. repeat split; lia.
    + destruct (_ && _); simpl; repeat split; lia.
  - destruct (_validate_question_for_final_submission q) eqn:Ev.
    { by specialize (Hvi eq_refl). }
    destruct (String.eqb (PyStr.lower (questionType q)) "mcq");
      simpl; repeat split; lia.
Qed.

Lemma summary_fold_inv questions : ∀ s,
  let s' := fold_left summary_step questions s in
  total_questions s' = total_questions s
  ∧ (total_input_questions s' + non_eligible_questions s'
     = total_input_questions s + non_eligible_questions s + length questions)%nat
  ∧ (total_mcq_questions s' + non_eligible_questions s
     ≤ total_mcq_questions s + non_eligible_questions s')%nat
  ∧ ready_for_final s'
    = (ready_for_final s
       + length (List.filter _validate_question_for_final_submission questions))%nat
  ∧ (ready_for_final s' + needs_more_answers s' + total_input_questions s
     ≤ ready_for_final s + needs_more_answers s + total_input_questions s')%nat.
Proof.
  induction questions as [|q rest IH]; intros s; cbv zeta.
  { simpl. repeat split; try lia. }
  cbn [fold_left]. specialize (IH (summary_step s q)). cbv zeta in IH.
  destruct IH as (I1 & I2 & I3 & I4 & I5).
  pose proof (summary_step_counters s q) as (S1 & S2 & S3 & S4 & S5).
  cbn [List.filter length].
  repeat split.
  - congruence.
  - lia.
  - lia.
  - rewrite I4, S4.
    destruct (_validate_question_for_final_submission q); simpl; lia.
  - lia.
Qed.

(** X6. The counters of the readiness summary: every question is either
    an Input question or a non-eligible one; the MCQ questions are among
    the non-eligible ones; the ready and the needs-more questions are
    distinct Input questions; and [ready_for_final] counts the questions
    that [_validate_question_for_final_submission] accepts. *)
Theorem summary_counters (questions : list Question) :
  let s := get_final_submission_summary questions in
  total_questions s = length questions
  ∧ (total_input_questions s + non_eligible_questions s = length questions)%nat
  ∧ (total_mcq_questions s ≤ non_eligible_questions s)%nat
  ∧ ready_for_final s
    = length (List.filter _validate_question_for_final_submission questions)
  ∧ (ready_for_final s + needs_more_answers s ≤ total_input_questions s)%nat.
Proof.
  intros s. unfold s, get_final_submission_summary.
  match goal with |- context [fold_left summary_step questions ?s0] =>
    pose proof (summary_fold_inv questions s0) as H end.
  cbv zeta in H. simpl in H.
  destruct H as (I1 & I2 & I3 & I4 & I5).
  repeat split; lia.
Qed.

(** X7. The summary never undercounts: every question for which the
    preparation emits a final record is counted as ready, so the final
    set is never longer than [ready_for_final].  In particular a summary
    with no ready question means that nothing would be submitted. *)
Theorem prepared_within_ready (questions : list Question) :
  (length (Eligibility._prepare_questions_for_final_submission questions)
   ≤ ready_for_final (get_final_submission_summary questions))%nat
  ∧ (ready_for_final (get_final_submission_summary questions) = 0%nat →
     Eligibility._prepare_questions_for_final_submission questions = []).
Proof.
  assert (ready_for_final (get_final_submission_summary questions)
          = length (List.filter _validate_question_for_final_submission
                      questions)) as Hr.
  { unfold get_final_submission_summary.
    match goal with |- context [fold_left summary_step questions ?s0] =>
      pose proof (summary_fold_inv questions s0) as H end.
    cbv zeta in H. simpl in H. tauto. }
  pose proof (prepared_le_ready questions) as Hle.
  rewrite Hr. split; [done|].
  intros H0. rewrite H0 in Hle.
  destruct (Eligibility._prepare_questions_for_final_submission questions);
    [done|simpl in Hle; lia].
Qed.
End SummaryProps.

(** ** The records prepared for final submission *)

Module PreparedProps.
Import Eligibility EligibilityProps.

Lemma StronglySorted_take {A} (R : A → A → Prop) n (l : list A) :
  StronglySorted R l → StronglySorted R (take n l).
Proof.
  intros H. rewrite <- (take_drop n l) in H.
  by apply StronglySorted_app_1_l in H.
Qed.

(** What a record of the final set is made of. *)
Lemma prepare_one_Some q fq :
  prepare_one q = Some fq →
  let top3 := take 3 (py_sort by_rank (List.filter ranked_correct (answers q))) in
  PyStr.lower (questionType q) = "input"
  ∧ (3 ≤ length (List.filter ranked_correct (answers q)))%nat
  ∧ forallb (λ a, PyStr.truthy (PyStr.strip (answer a))) top3 = true
  ∧ fq = {| _id := None; question := question q;
            questionType := questionType q;
            questionCategory := questionCategory q;
            questionLevel := questionLevel q;
            timesSkipped := timesSkipped q;
            timesAnswered := timesAnswered q;
            answers := final_answer true <$> top3;
            _existing_id := None |}.
Proof.
  intros H top3. unfold prepare_one in H.
  destruct (String.eqb (PyStr.lower (questionType q)) "input") eqn:Et;
    simpl in H; [|done].
  apply String.eqb_eq in Et.
  destruct (is_empty (answers q)); [done|].
  unfold _validate_and_prepare_answers_for_final in H.
  rewrite Et in H. simpl in H.
  rewrite prepare_input_spec in H. cbv zeta in H. fold top3 in H.
  destruct (length (List.filter ranked_correct (answers q)) <? 3)%nat eqn:E3;
    [done|].
  apply Nat.ltb_ge in E3.
  destruct (forallb _ top3) eqn:Ef; [|done].
  simpl in H. destruct (is_empty (final_answer true <$> top3)); [done|].
  simpl in H. by injection H as <-.
Qed.

Lemma top3_facts (l : list Answer) :
  let top3 := take 3 (py_sort by_rank (List.filter ranked_correct l)) in
  (3 ≤ length (List.filter ranked_correct l))%nat →
  length top3 = 3%nat
  ∧ Forall (λ a, a ∈ l ∧ ranked_correct a = true) top3
  ∧ StronglySorted (λ a b, by_rank a b = true) top3.
Proof.
  intros top3 H3. split; [|split].
  - unfold top3. rewrite length_take_le; [done|]. by rewrite py_sort_length.
  - apply Forall_forall. intros a Ha.
    apply (subseteq_take 3), py_sort_elem_of in Ha.
    by apply elem_of_List_filter in Ha.
  - apply StronglySorted_take, (py_sort_sorted by_rank by_rank_total by_rank_trans).
Qed.

Lemma final_answer_idemp c a : final_answer c (final_answer c a) = final_answer c a.
Proof. unfold final_answer. simpl. by rewrite PyStrProps.strip_idemp. Qed.

(** The three answers of a final record pass the filter, are sorted,
    and their texts are trimmed: preparing them again gives them
    back. *)
Lemma prepare_input_final_answers (l : list Answer) :
  let top3 := take 3 (py_sort by_rank (List.filter ranked_correct l)) in
  (3 ≤ length (List.filter ranked_correct l))%nat →
  forallb (λ a, PyStr.truthy (PyStr.strip (answer a))) top3 = true →
  _prepare_input_question_for_final (final_answer true <$> top3)
  = (true, final_answer true <$> top3).
Proof.
  intros top3 H3 Hf.
  destruct (top3_facts l H3) as (Hlen & Hall & Hsorted). fold top3 in Hlen, Hall, Hsorted.
  rewrite prepare_input_spec. cbv zeta.
  assert (List.filter ranked_correct (final_answer true <$> top3)
          = final_answer true <$> top3) as ->.
  { apply filter_all_true. intros a Ha.
    apply list_elem_of_fmap in Ha as (a0 & -> & Ha0).
    rewrite Forall_forall in Hall. destruct (Hall a0 Ha0) as [_ Hrc].
    unfold ranked_correct in *. simpl.
    apply andb_true_iff in Hrc as [Hrc Hs].
    apply andb_true_iff in Hrc as [_ Hr]. by rewrite Hr, Hs. }
  rewrite length_fmap, Hlen. simpl.
  rewrite py_sort_sorted_id.
  2:{ apply StronglySorted_fmap with (R1 := λ a b, by_rank a b = true); [|done].
      intros a b Hab. done. }
  rewrite firstn_all2 by (rewrite length_fmap; lia).
  assert (forallb (λ a, PyStr.truthy (PyStr.strip (answer a)))
            (final_answer true <$> top3) = true) as ->.
  { apply forallb_forall. intros a Ha. apply list_elem_of_In in Ha.
    apply list_elem_of_fmap in Ha as (a0 & -> & Ha0). simpl.
    rewrite PyStrProps.strip_idemp.
    rewrite forallb_forall in Hf. apply Hf. by apply list_elem_of_In. }
  f_equal. rewrite <- list_fmap_compose. apply list_fmap_ext.
  intros i a _. apply final_answer_idemp.
Qed.

Lemma prepare_one_fixed q fq : prepare_one q = Some fq → prepare_one fq = Some fq.
Proof.
  intros H. apply prepare_one_Some in H. cbv zeta in H.
  destruct H as (Ht & H3 & Hf & ->).
  destruct (top3_facts (answers q) H3) as (Hlen & _).
  unfold prepare_one. simpl. rewrite Ht. simpl.
  destruct (final_answer true <$> take 3 _) as [|a l] eqn:El.
  { apply (f_equal length) in El. rewrite length_fmap, Hlen in El. done. }
  simpl is_empty. cbv iota. rewrite <- El.
  unfold _validate_and_prepare_answers_for_final. simpl.
  rewrite (prepare_input_final_answers (answers q) H3 Hf).
  rewrite El. simpl. done.
Qed.

(** X8. Every record of the final set comes from an Input question of
    the list, whose descriptive fields it copies; it has no identifier;
    it carries exactly 3 answers, each one made from an answer of the
    question, marked correct, with a positive rank and a positive score
    and a trimmed, non-empty text, in ascending order of rank.  The
    records keep the order of their questions. *)
Theorem final_records_well_formed (questions : list Question) (fq : Question) :
  fq ∈ _prepare_questions_for_final_submission questions →
  (∃ q, q ∈ questions
        ∧ PyStr.lower (questionType q) = "input"
        ∧ question fq = question q
        ∧ questionType fq = questionType q
        ∧ questionCategory fq = questionCategory q
        ∧ questionLevel fq = questionLevel q
        ∧ timesSkipped fq = timesSkipped q
        ∧ timesAnswered fq = timesAnswered q
        ∧ Forall (λ a, ∃ a0, a0 ∈ answers q
                             ∧ a = mkAnswer (PyStr.strip (answer a0)) true
                                     (responseCount a0) (rank a0) (score a0))
            (answers fq))
  ∧ _id fq = None ∧ _existing_id fq = None
  ∧ length (answers fq) = 3%nat
  ∧ Forall (λ a, isCorrect a = true ∧ 0 < rank a ∧ 0 < score a
                 ∧ answer a ≠ EmptyString
                 ∧ PyStr.strip (answer a) = answer a) (answers fq)
  ∧ StronglySorted (λ a b, rank a ≤ rank b) (answers fq)
  ∧ (question <$> _prepare_questions_for_final_submission questions)
      `sublist_of` (question <$> questions).
Proof.
  intros Hfq. split; [|split; [|split; [|split; [|split; [|split]]]]].
  7:{ rewrite prepare_questions_omap. clear Hfq.
      induction questions as [|q rest IH]; csimpl; [done|].
      destruct (prepare_one q) as [fq'|] eqn:E; csimpl.
      - apply prepare_one_Some in E. cbv zeta in E.
        destruct E as (_ & _ & _ & ->). simpl. by apply sublist_skip.
      - by apply sublist_cons. }
  all: rewrite prepare_questions_omap in Hfq;
    apply list_elem_of_omap in Hfq as (q & Hq & Hone);
    apply prepare_one_Some in Hone; cbv zeta in Hone;
    destruct Hone as (Ht & H3 & Hf & ->);
    destruct (top3_facts (answers q) H3) as (Hlen & Hall & Hsorted); simpl.
  - exists q. repeat (split; [done|]).
    apply Forall_fmap. eapply Forall_impl; [exact Hall|].
    intros a [Ha _]. simpl. by exists a.
  - done.
  - done.
  - by rewrite length_fmap.
  - apply Forall_fmap. apply Forall_forall. intros a Ha. simpl.
    rewrite Forall_forall in Hall. destruct (Hall a Ha) as [_ Hrc].
    unfold ranked_correct in Hrc.
    apply andb_true_iff in Hrc as [Hrc Hs].
    apply andb_true_iff in Hrc as [_ Hr].
    apply Z.ltb_lt in Hr, Hs.
    rewrite forallb_forall in Hf.
    split; [done|]. split; [done|]. split; [done|].
    split; [|apply PyStrProps.strip_idemp].
    apply truthy_true, Hf. by apply list_elem_of_In.
  - apply StronglySorted_fmap with (R1 := λ a b, by_rank a b = true); [|done].
    intros a b Hab. simpl. unfold by_rank in Hab. by apply Z.leb_le.
Qed.

(** X9. Preparing the final set again changes nothing: a record that
    the preparation has emitted is emitted as it is when it is itself
    given to the preparation. *)
Theorem preparation_idempotent (questions : list Question) :
  _prepare_questions_for_final_submission
    (_prepare_questions_for_final_submission questions)
  = _prepare_questions_for_final_submission questions.
Proof.
  rewrite !prepare_questions_omap.
  induction questions as [|q rest IH]; csimpl; [done|].
  destruct (prepare_one q) as [fq|] eqn:E; csimpl; [|done].
  by rewrite (prepare_one_fixed q fq E), IH.
Qed.

Lemma size_list_to_set_le (l : list string) :
  (size (list_to_set l : gset string) ≤ length l)%nat.
Proof.
  induction l as [|x l IH].
  - by rewrite list_to_set_nil, size_empty.
  - rewrite list_to_set_cons, size_union_alt, size_singleton.
    assert (size (list_to_set l ∖ {[x]} : gset string)
            ≤ size (list_to_set l : gset string))%nat
      as Hd by (apply subseteq_size, subseteq_difference_l; done).
    simpl. lia.
Qed.

Lemma size_list_to_set_NoDup (l : list string) :
  size (list_to_set l : gset string) = length l → NoDup l.
Proof.
  induction l as [|x l IH]; intros H; [constructor|].
  rewrite list_to_set_cons in H. simpl in H.
  pose proof (size_list_to_set_le l) as Hle.
  destruct (decide (x ∈ l)) as [Hx|Hx].
  - assert ({[x]} ∪ list_to_set l = (list_to_set l : gset string)) as E.
    { apply subseteq_union_1_L. apply singleton_subseteq_l.
      by apply elem_of_list_to_set. }
    rewrite E in H. lia.
  - constructor; [done|]. apply IH.
    rewrite size_union in H.
    + rewrite size_singleton in H. lia.
    + apply disjoint_singleton_l. by rewrite elem_of_list_to_set.
Qed.

(** X10. The MCQ rule accepts an answer list exactly when it has 4
    answers, 1 of them marked correct, no text that is empty once
    trimmed, and 4 trimmed lower-cased texts that differ from one
    another.  It then returns all 4 answers with trimmed texts and
    their own flags; in every other case it returns no answer at
    all. *)
Theorem mcq_rule_exact (all_answers : list Answer) :
  let accepted :=
    length all_answers = 4%nat
    ∧ length (List.filter isCorrect all_answers) = 1%nat
    ∧ Forall (λ a, PyStr.strip (answer a) ≠ EmptyString) all_answers
    ∧ NoDup ((λ a, PyStr.lower (PyStr.strip (answer a))) <$> all_answers) in
  ((_prepare_mcq_question_for_final all_answers).1 = true ↔ accepted)
  ∧ (accepted →
     _prepare_mcq_question_for_final all_answers
     = (true,
        (λ a, mkAnswer (PyStr.strip (answer a)) (isCorrect a)
                (responseCount a) (rank a) (score a)) <$> all_answers))
  ∧ (¬ accepted → _prepare_mcq_question_for_final all_answers = (false, [])).
Proof.
  intros accepted. rewrite prepare_mcq_spec. cbv zeta.
  destruct (length all_answers =? 4)%nat eqn:E4; simpl.
  2:{ apply Nat.eqb_neq in E4. unfold accepted.
      split; [split; [done|tauto]|]. split; [tauto|done]. }
  apply Nat.eqb_eq in E4.
  destruct (length (List.filter isCorrect all_answers) =? 1)%nat eqn:E1; simpl.
  2:{ apply Nat.eqb_neq in E1. unfold accepted.
      split; [split; [done|tauto]|]. split; [tauto|done]. }
  apply Nat.eqb_eq in E1.
  destruct (forallb _ all_answers) eqn:Ef; simpl.
  2:{ assert (¬ Forall (λ a, PyStr.strip (answer a) ≠ EmptyString) all_answers)
        as Hn by (rewrite <- forallb_nonempty; congruence).
      unfold accepted. split; [split; [done|tauto]|]. split; [tauto|done]. }
  apply forallb_nonempty in Ef.
  destruct (size _ =? length _)%nat eqn:Es; simpl.
  - apply Nat.eqb_eq, size_list_to_set_NoDup in Es.
    unfold accepted. split; [tauto|]. split; [done|tauto].
  - apply Nat.eqb_neq in Es.
    assert (¬ NoDup ((λ a, PyStr.lower (PyStr.strip (answer a))) <$> all_answers))
      as Hn.
    { intros Hnd. apply Es. by rewrite size_list_to_set. }
    unfold accepted. split; [split; [done|tauto]|]. split; [tauto|done].
Qed.
Lemma final_records_well_formed_witness :
  SampleRuns.input_final
  ∈ _prepare_questions_for_final_submission [Sample.mcq; Sample.input]
  ∧ length (answers SampleRuns.input_final) = 3%nat.
Proof.
  assert (SampleRuns.input_final
          ∈ _prepare_questions_for_final_submission [Sample.mcq; Sample.input])
    as H.
  { replace (_prepare_questions_for_final_submission [Sample.mcq; Sample.input])
      with [SampleRuns.input_final] by (vm_compute; reflexivity).
    apply list_elem_of_here. }
  split; [exact H|].
  exact (proj1 (proj2 (proj2 (proj2 (final_records_well_formed _ _ H))))).
Defined.
End PreparedProps.

(** ** The comparison of answers *)

Module ComparisonProps.
Import Reconcile ReconcileProps.

End ComparisonProps.

(** ** The conversation with the final collection *)

Module ConversationProps.
Import Remote Reconcile Submission Attempts SubmissionProps.

Section WithServer.
Variable Server : Type.
Variable serve : Request → Server → Reply * Server.

(** *** Rules for the three judgements *)

Lemma returns_ret {A} (Q : A → Prop) (a : A) :
  Q a → returns (ret (Server:=Server) a) Q.
Proof. intros H w. done. Qed.

Lemma returns_bind {A B} (P : A → Prop) (Q : B → Prop)
    (c : M Server A) (k : A → M Server B) :
  returns c P → (∀ a, P a → returns (k a) Q) → returns (bind c k) Q.
Proof.
  intros Hc Hk w. unfold bind. specialize (Hc w).
  destruct (c w) as [[a|] w1]; simpl in *; [|done]. by apply Hk.
Qed.

Lemma returns_try_except {A} (Q : A → Prop) (c h : M Server A) :
  returns c Q → returns h Q → returns (try_except c h) Q.
Proof.
  intros Hc Hh w. unfold try_except. specialize (Hc w).
  destruct (c w) as [[a|] w1]; simpl in *; [done|]. apply Hh.
Qed.

Lemma returns_impl {A} (P Q : A → Prop) (c : M Server A) :
  (∀ a, P a → Q a) → returns c P → returns c Q.
Proof.
  intros HPQ Hc w. specialize (Hc w).
  destruct (c w).1; [by apply HPQ|done].
Qed.

Lemma never_raises_ret {A} (a : A) : never_raises (ret (Server:=Server) a).
Proof. intros w. by exists a. Qed.

Lemma never_raises_bind {A B} (c : M Server A) (k : A → M Server B) :
  never_raises c → (∀ a, never_raises (k a)) → never_raises (bind c k).
Proof.
  intros Hc Hk w. unfold bind. destruct (Hc w) as [a Ha].
  destruct (c w) as [[a'|] w1]; simpl in Ha; [|done]. apply Hk.
Qed.

Lemma never_raises_try_except {A} (c h : M Server A) :
  never_raises h → never_raises (try_except c h).
Proof.
  intros Hh w. unfold try_except.
  destruct (c w) as [[a|] w1]; [by exists a|apply Hh].
Qed.

Lemma issues_at_most_ret {A} n (a : A) :
  issues_at_most n (ret (Server:=Server) a).
Proof. intros w. exists []. rewrite app_nil_r. simpl. split; [done|lia]. Qed.

Lemma issues_at_most_bind {A B} n1 n2 (c : M Server A) (k : A → M Server B) :
  issues_at_most n1 c → (∀ a, issues_at_most n2 (k a)) →
  issues_at_most (n1 + n2) (bind c k).
Proof.
  intros Hc Hk w. unfold bind.
  destruct (Hc w) as (r1 & E1 & L1).
  destruct (c w) as [[a|] w1]; simpl in E1.
  - destruct (Hk a w1) as (r2 & E2 & L2).
    exists (r1 ++ r2). rewrite E2, E1, app_assoc, length_app. split; [done|lia].
  - exists r1. simpl. split; [done|lia].
Qed.

Lemma issues_at_most_try_except {A} n1 n2 (c h : M Server A) :
  issues_at_most n1 c → issues_at_most n2 h →
  issues_at_most (n1 + n2) (try_except c h).
Proof.
  intros Hc Hh w. unfold try_except.
  destruct (Hc w) as (r1 & E1 & L1).
  destruct (c w) as [[a|] w1]; simpl in E1.
  - exists r1. simpl. split; [done|lia].
  - destruct (Hh w1) as (r2 & E2 & L2).
    exists (r1 ++ r2). rewrite E2, E1, app_assoc, length_app. split; [done|lia].
Qed.

Lemma issues_at_most_make_request e m data :
  issues_at_most 1 (make_request serve e m data).
Proof.
  intros w. rewrite make_request_spec. exists [mkRequest m e data].
  split; [done|]. simpl. lia.
Qed.

Lemma issues_at_most_le {A} n m (c : M Server A) :
  (n ≤ m)%nat → issues_at_most n c → issues_at_most m c.
Proof.
  intros Hle Hc w. destruct (Hc w) as (r & E & L).
  exists r. split; [done|lia].
Qed.

(** *** One update *)

Lemma try_methods_cons e m methods update_payload w :
  try_methods serve e (m :: methods) update_payload w
  = if accepted (serve (mkRequest m e update_payload) (server w)).1
    then (Ret true, after serve (mkRequest m e update_payload) w)
    else try_methods serve e methods update_payload
           (after serve (mkRequest m e update_payload) w).
Proof.
  cbn [try_methods]. unfold bind at 1. unfold try_except. unfold bind at 1.
  rewrite make_request_spec.
  destruct (serve _ (server w)).1 as [|r]; simpl; [done|].
  unfold ret. by destruct (is_success_response r).
Qed.

Lemma try_endpoints_cons e endpoints update_payload w :
  try_endpoints serve (e :: endpoints) update_payload w
  = match try_methods serve e [PUT; PATCH] update_payload w with
    | (Ret true, w') => (Ret true, w')
    | (Ret false, w') => try_endpoints serve endpoints update_payload w'
    | (Exn, w') => (Exn, w')
    end.
Proof.
  cbn [try_endpoints]. unfold bind at 1.
  by destruct (try_methods _ _ _ _ _) as [[[|]|] w'].
Qed.

(** The two nested loops, flattened: the four attempts in turn, up to
    the first one that is accepted. *)
Lemma update_single_unfold question_id update_payload w :
  let r1 := mkRequest PUT (FinalItem question_id) update_payload in
  let r2 := mkRequest PATCH (FinalItem question_id) update_payload in
  let r3 := mkRequest PUT FinalCollection update_payload in
  let r4 := mkRequest PATCH FinalCollection update_payload in
  let w1 := after serve r1 w in
  let w2 := after serve r2 w1 in
  let w3 := after serve r3 w2 in
  let w4 := after serve r4 w3 in
  _update_single_final_question serve question_id update_payload w
  = if accepted (serve r1 (server w)).1 then (Ret true, w1)
    else if accepted (serve r2 (server w1)).1 then (Ret true, w2)
    else if accepted (serve r3 (server w2)).1 then (Ret true, w3)
    else if accepted (serve r4 (server w3)).1 then (Ret true, w4)
    else (Ret false, w4).
Proof.
  cbv zeta. unfold _update_single_final_question.
  rewrite try_endpoints_cons, try_methods_cons.
  destruct (accepted _); [done|].
  rewrite try_methods_cons.
  destruct (accepted _); [done|].
  cbn [try_methods]. unfold ret at 1.
  rewrite try_endpoints_cons, try_methods_cons.
  destruct (accepted _); [done|].
  rewrite try_methods_cons.
  destruct (accepted _); [done|].
  done.
Qed.

(** X12. One update ends with [True] or [False], never with an
    exception.  It makes between 1 and 4 requests, all with the payload
    given: the first ones of PUT and PATCH on the record's own
    endpoint, then PUT and PATCH on the collection endpoint.  It stops
    at once when the first attempt is accepted, it returns [False] only
    after all four attempts, and it does return [False] when the store
    accepts no request. *)
Theorem update_single_attempts (question_id : string)
    (update_payload : list Question) (w : World Server) :
  let attempts := update_attempts question_id update_payload in
  (∃ (n : nat) (b : bool) (w' : World Server),
     _update_single_final_question serve question_id update_payload w
     = (Ret b, w')
     ∧ (1 ≤ n ≤ 4)%nat
     ∧ log w' = log w ++ take n attempts
     ∧ (b = false → n = 4%nat))
  ∧ (accepted (serve (mkRequest PUT (FinalItem question_id) update_payload)
                 (server w)).1 = true →
     _update_single_final_question serve question_id update_payload w
     = (Ret true,
        after serve (mkRequest PUT (FinalItem question_id) update_payload) w))
  ∧ ((∀ req s, accepted (serve req s).1 = false) →
     (_update_single_final_question serve question_id update_payload w).1
     = Ret false).
Proof.
  intros attempts.
  pose proof (update_single_unfold question_id update_payload w) as H.
  cbv zeta in H. split; [|split].
  - rewrite H.
    destruct (accepted _).
    { exists 1%nat, true. eexists. split; [done|]. split; [lia|]. done. }
    destruct (accepted _).
    { exists 2%nat, true. eexists. split; [done|]. split; [lia|].
      simpl. by rewrite <- app_assoc. }
    destruct (accepted _).
    { exists 3%nat, true. eexists. split; [done|]. split; [lia|].
      simpl. by rewrite <- !app_assoc. }
    destruct (accepted _).
    { exists 4%nat, true. eexists. split; [done|]. split; [lia|].
      simpl. by rewrite <- !app_assoc. }
    exists 4%nat, false. eexists. split; [done|]. split; [lia|].
    simpl. by rewrite <- !app_assoc.
  - intros Ha. by rewrite H, Ha.
  - intros Hno. rewrite H. by rewrite !Hno.
Qed.

Lemma update_single_never_raises question_id update_payload :
  never_raises (_update_single_final_question serve question_id update_payload).
Proof.
  intros w. rewrite update_single_unfold. cbv zeta.
  repeat (destruct (accepted _); [by eexists|]). by eexists.
Qed.

Lemma update_single_at_most question_id update_payload :
  issues_at_most 4
    (_update_single_final_question serve question_id update_payload).
Proof.
  intros w. rewrite update_single_unfold. cbv zeta.
  destruct (accepted _); [eexists [_]; simpl; split; [done|lia]|].
  destruct (accepted _);
    [eexists [_; _]; simpl; rewrite <- !app_assoc; split; [done|lia]|].
  destruct (accepted _);
    [eexists [_; _; _]; simpl; rewrite <- !app_assoc; split; [done|lia]|].
  destruct (accepted _);
    eexists [_; _; _; _]; simpl; rewrite <- !app_assoc; (split; [done|lia]).
Qed.

(** *** The update of the changed records *)

Lemma update_loop_never_raises updated_questions : ∀ n,
  never_raises (update_loop serve updated_questions n).
Proof.
  induction updated_questions as [|q rest IH]; intros n; cbn [update_loop].
  - apply never_raises_ret.
  - destruct (_existing_id q) as [question_id|]; [|apply IH].
    destruct (PyStr.truthy question_id); [|apply IH].
    apply never_raises_bind; [apply update_single_never_raises|].
    intros ok. apply IH.
Qed.

Lemma update_loop_returns updated_questions : ∀ n,
  returns (update_loop serve updated_questions n)
    (λ k, (n ≤ k ≤ n + length updated_questions)%nat).
Proof.
  induction updated_questions as [|q rest IH]; intros n; cbn [update_loop].
  - apply returns_ret. simpl. lia.
  - assert (∀ m, (n ≤ m ≤ S n)%nat →
              returns (update_loop serve rest m)
                (λ k, (n ≤ k ≤ n + length (q :: rest))%nat)) as Hrest.
    { intros m Hm. eapply returns_impl; [|apply IH].
      intros k Hk. simpl in *. lia. }
    destruct (_existing_id q) as [question_id|]; [|apply Hrest; lia].
    destruct (PyStr.truthy question_id); [|apply Hrest; lia].
    apply returns_bind with (P := λ _, True).
    + intros w. by destruct (_ w).1.
    + intros [|] _; apply Hrest; lia.
Qed.

Lemma update_loop_at_most updated_questions : ∀ n,
  issues_at_most (4 * length updated_questions)
    (update_loop serve updated_questions n).
Proof.
  induction updated_questions as [|q rest IH]; intros n; cbn [update_loop].
  - apply issues_at_most_ret.
  - assert (∀ m, issues_at_most (4 * length (q :: rest))
                   (update_loop serve rest m)) as Hrest.
    { intros m. eapply issues_at_most_le; [|apply IH]. simpl. lia. }
    destruct (_existing_id q) as [question_id|]; [|apply Hrest].
    destruct (PyStr.truthy question_id); [|apply Hrest].
    replace (4 * length (q :: rest))%nat with (4 + 4 * length rest)%nat
      by (simpl; lia).
    apply issues_at_most_bind; [apply update_single_at_most|].
    intros ok. apply IH.
Qed.

(** *** The submission *)

Lemma submit_new_returns new_questions :
  returns (_submit_new_final_questions serve new_questions)
    (λ r, details r = None ∧ total_processed r = None
          ∧ ((success r = true ∧ submitted_count r = length new_questions)
             ∨ (success r = false ∧ submitted_count r = 0%nat))).
Proof.
  unfold _submit_new_final_questions.
  apply returns_bind with (P := λ _, True).
  - intros w. by destruct (_ w).1.
  - intros r _. destruct (is_success_response r); apply returns_ret; simpl; tauto.
Qed.

Lemma submit_new_at_most new_questions :
  issues_at_most 1 (_submit_new_final_questions serve new_questions).
Proof.
  unfold _submit_new_final_questions.
  replace 1%nat with (1 + 0)%nat by done.
  apply issues_at_most_bind; [apply issues_at_most_make_request|].
  intros r. destruct (is_success_response r); apply issues_at_most_ret.
Qed.

(** What the result of a submission says. *)
Lemma handle_returns final_questions :
  returns (_handle_final_submission_with_updates serve final_questions)
    (λ r, (submitted_count r ≤ length final_questions)%nat
          ∧ (success r = false → submitted_count r = 0%nat)
          ∧ ∀ d, details r = Some d →
                 total_processed r = Some (length final_questions)
                 ∧ (new_submitted d + updated d + unchanged d
                    = length final_questions)%nat
                 ∧ (submitted_count r ≤ new_submitted d + updated d)%nat
                 ∧ (success r = true
                    ↔ (0 < submitted_count r)%nat ∨ (0 < unchanged d)%nat)).
Proof.
  unfold _handle_final_submission_with_updates.
  apply returns_try_except; [|apply returns_ret; simpl; split; [lia|done]].
  apply returns_bind with (P := λ _, True); [intros w; by destruct (_ w).1|].
  intros [existing|] _.
  2:{ eapply returns_impl; [|apply submit_new_returns].
      intros r (Hd & _ & [[Hs Hc]|[Hs Hc]]); rewrite Hc, Hd;
        (split; [lia|]); (split; [congruence|done]). }
  pose proof (ReconcileProps.categorize_spec final_questions existing) as Hcat.
  pose proof (ReconcileProps.buckets_length
                (build_lookup existing ∅) final_questions) as Hlen.
  cbv zeta in Hcat.
  destruct (_categorize_questions_for_submission final_questions existing)
    as [[new_questions updated_questions] unchanged_questions].
  injection Hcat as Hn Hu Hc. rewrite <- Hn, <- Hu, <- Hc in Hlen.
  clear Hn Hu Hc.
  apply returns_bind with (P := λ s1, (s1 ≤ length new_questions)%nat).
  { destruct (Eligibility.is_empty new_questions);
      [apply returns_ret; lia|].
    eapply returns_bind; [apply submit_new_returns|].
    intros r (_ & _ & [[Hs Hc]|[Hs Hc]]); rewrite Hs;
      apply returns_ret; lia. }
  intros s1 Hs1.
  apply returns_bind
    with (P := λ s2, (s2 ≤ s1 + length updated_questions)%nat).
  { destruct (Eligibility.is_empty updated_questions);
      [apply returns_ret; lia|].
    eapply returns_bind.
    - unfold _update_existing_final_questions.
      eapply returns_bind; [apply update_loop_returns|].
      intros k Hk. apply returns_ret with
        (Q := λ r, (submitted_count r ≤ length updated_questions)%nat).
      simpl in *. lia.
    - intros r Hr. simpl in Hr.
      destruct (success r); apply returns_ret; lia. }
  intros s2 Hs2. apply returns_ret. simpl.
  split; [lia|]. split.
  { intros Hf. apply orb_false_iff in Hf as [Hf _].
    apply Nat.ltb_ge in Hf. lia. }
  intros d [= <-]. simpl. split; [done|]. split; [done|]. split; [lia|].
  rewrite orb_true_iff, !Nat.ltb_lt. done.
Qed.

Lemma handle_never_raises final_questions :
  never_raises (_handle_final_submission_with_updates serve final_questions).
Proof.
  unfold _handle_final_submission_with_updates.
  apply never_raises_try_except, never_raises_ret.
Qed.

Lemma starts_with {A B} (c : M Server A) (k : A → M Server B)
    (h : M Server B) (req : Request) (n : nat) :
  (∀ w, ∃ a, c w = (Ret a, after serve req w)) →
  (∀ a, issues_at_most n (k a)) →
  issues_at_most 0 h →
  ∀ w, ∃ requests,
    log (try_except (bind c k) h w).2 = log w ++ req :: requests
    ∧ (length requests ≤ n)%nat.
Proof.
  intros Hc Hk Hh w. unfold try_except, bind.
  destruct (Hc w) as [a ->].
  destruct (Hk a (after serve req w)) as (r1 & E1 & L1).
  destruct (k a (after serve req w)) as [[b|] w1]; simpl in E1.
  - exists r1. simpl. rewrite E1. simpl. by rewrite <- app_assoc.
  - destruct (Hh w1) as (r2 & E2 & L2).
    destruct r2; [|simpl in L2; lia].
    exists r1. rewrite E2, app_nil_r, E1. simpl. by rewrite <- app_assoc.
Qed.

(** The requests of a submission: the fetch, then at most one create
    call and four update calls per record. *)
Lemma handle_log final_questions w :
  ∃ requests,
    log (_handle_final_submission_with_updates serve final_questions w).2
    = log w ++ fetch_request :: requests
    ∧ (length requests ≤ 1 + 4 * length final_questions)%nat.
Proof.
  unfold _handle_final_submission_with_updates.
  apply starts_with; [| |apply issues_at_most_ret].
  { intros w0. rewrite get_existing_spec. by eexists. }
  intros [existing|].
  2:{ eapply issues_at_most_le; [|apply submit_new_at_most]. lia. }
  pose proof (ReconcileProps.categorize_spec final_questions existing) as Hcat.
  pose proof (ReconcileProps.buckets_length
                (build_lookup existing ∅) final_questions) as Hlen.
  cbv zeta in Hcat.
  destruct (_categorize_questions_for_submission final_questions existing)
    as [[new_questions updated_questions] unchanged_questions].
  injection Hcat as -> -> ->.
  apply issues_at_most_bind.
  { destruct (Eligibility.is_empty _); [apply issues_at_most_ret|].
    replace 1%nat with (1 + 0)%nat by done.
    apply issues_at_most_bind; [apply submit_new_at_most|].
    intros r. destruct (success r); apply issues_at_most_ret. }
  intros s1.
  replace (4 * length final_questions)%nat
    with (4 * length final_questions + 0)%nat by lia.
  apply issues_at_most_bind; [|intros; apply issues_at_most_ret].
  destruct (Eligibility.is_empty _); [apply issues_at_most_ret|].
  replace (4 * length final_questions)%nat
    with (4 * length final_questions + 0)%nat by lia.
  apply issues_at_most_bind.
  - unfold _update_existing_final_questions.
    replace (4 * length final_questions)%nat
      with (4 * length final_questions + 0)%nat by lia.
    apply issues_at_most_bind; [|intros; apply issues_at_most_ret].
    eapply issues_at_most_le; [|apply update_loop_at_most]. lia.
  - intros r. destruct (success r); apply issues_at_most_ret.
Qed.

(** The records that travel: every record of a payload is a record of
    the final set, as it is or with an [_existing_id] attached. *)
Lemma handle_payloads final_questions :
  only_issues
    (λ req, Forall (λ q, ∃ fq i, fq ∈ final_questions
                                 ∧ (q = fq ∨ q = set_existing_id i fq))
              (payload req))
    (_handle_final_submission_with_updates serve final_questions).
Proof.
  set (P := λ req : Request,
         Forall (λ q, ∃ fq (i : option string),
                   fq ∈ final_questions ∧ (q = fq ∨ q = set_existing_id i fq))
           (payload req)).
  assert (∀ qs, qs ⊆ final_questions →
            only_issues P (_submit_new_final_questions serve qs)) as Hsubmit.
  { intros qs Hsub. unfold _submit_new_final_questions.
    apply only_issues_bind.
    - apply only_issues_make_request. unfold P. simpl.
      apply Forall_forall. intros q Hq. exists q, None. split; [by apply Hsub|by left].
    - intros r. destruct (is_success_response r); apply only_issues_ret. }
  unfold _handle_final_submission_with_updates.
  apply only_issues_try_except; [|apply only_issues_ret].
  apply only_issues_bind.
  { unfold _get_existing_final_questions.
    apply only_issues_try_except; [|apply only_issues_ret].
    apply only_issues_bind.
    - apply only_issues_make_request. unfold P. simpl. constructor.
    - intros r. destruct (is_success_response r); apply only_issues_ret. }
  intros [existing|]; [|by apply Hsubmit].
  pose proof (ReconcileProps.categorize_spec final_questions existing) as Hcat.
  cbv zeta in Hcat.
  destruct (_categorize_questions_for_submission final_questions existing)
    as [[new_questions updated_questions] unchanged_questions].
  injection Hcat as -> -> ->.
  apply only_issues_bind.
  { destruct (Eligibility.is_empty _); [apply only_issues_ret|].
    apply only_issues_bind.
    - apply Hsubmit. intros q Hq. by apply elem_of_List_filter in Hq as [Hq _].
    - intros r. destruct (success r); apply only_issues_ret. }
  intros submitted1. apply only_issues_bind; [|intros; apply only_issues_ret].
  destruct (Eligibility.is_empty _); [apply only_issues_ret|].
  apply only_issues_bind.
  - unfold _update_existing_final_questions.
    apply only_issues_bind; [|intros; apply only_issues_ret].
    eapply only_issues_impl; [|apply update_loop_issues].
    intros req (_ & q & Hq & Hp). unfold P. rewrite Hp.
    constructor; [|constructor].
    apply list_elem_of_omap in Hq as (fq & Hfq & Has).
    unfold as_changed in Has.
    destruct (classify _ fq) as [|i|]; [done| |done].
    injection Has as <-. exists fq, i. split; [done|by right].
  - intros r. destruct (success r); apply only_issues_ret.
Qed.

(** X13. A submission with updates always ends with a result dict, also
    when a request raises.  Its first request is the fetch of the final
    collection, and it makes at most one more request plus four per
    record.  The result never counts more than the records given, and
    counts none when it reports a failure.  When the result has
    details, its three counts add up to the number of records given,
    which is also its [total_processed]; the records counted as
    submitted are among the new and the changed ones; and the result
    reports a success exactly when a record was submitted or a record
    was found unchanged. *)
Theorem submission_always_reports (final_questions : list Question)
    (w : World Server) :
  ∃ (r : Result) (w' : World Server) (requests : list Request),
    _handle_final_submission_with_updates serve final_questions w = (Ret r, w')
    ∧ log w' = log w ++ fetch_request :: requests
    ∧ (length requests ≤ 1 + 4 * length final_questions)%nat
    ∧ (submitted_count r ≤ length final_questions)%nat
    ∧ (success r = false → submitted_count r = 0%nat)
    ∧ ∀ d, details r = Some d →
           total_processed r = Some (length final_questions)
           ∧ (new_submitted d + updated d + unchanged d
              = length final_questions)%nat
           ∧ (submitted_count r ≤ new_submitted d + updated d)%nat
           ∧ (success r = true
              ↔ (0 < submitted_count r)%nat ∨ (0 < unchanged d)%nat).
Proof.
  destruct (handle_never_raises final_questions w) as [r Hr].
  pose proof (handle_returns final_questions w) as Hret.
  rewrite Hr in Hret.
  destruct (handle_log final_questions w) as (requests & Hlog & Hlen).
  destruct (_handle_final_submission_with_updates serve final_questions w)
    as [o w'] eqn:E. simpl in Hr, Hlog. subst o.
  by exists r, w', requests.
Qed.
Lemma update_loop_skips updated_questions : ∀ n w,
  Forall (λ q, _existing_id q = None ∨ _existing_id q = Some EmptyString)
    updated_questions →
  update_loop serve updated_questions n w = (Ret n, w).
Proof.
  induction updated_questions as [|q rest IH]; intros n w Hall;
    cbn [update_loop]; [done|].
  apply Forall_cons in Hall as [[-> | ->] Hall]; simpl; by apply IH.
Qed.

(** X17. A changed record is updated only through the identifier that
    reconciliation has attached to it.  When none of the records has
    one (the key [_existing_id] is absent, [None] or the empty string),
    the update of the changed records makes no request and reports a
    failure with no record updated. *)
Theorem update_needs_identifier (updated_questions : list Question)
    (w : World Server) :
  Forall (λ q, _existing_id q = None ∨ _existing_id q = Some EmptyString)
    updated_questions →
  _update_existing_final_questions serve updated_questions w
  = (Ret {| submitted_count := 0; total_processed := None;
            success := false; details := None |}, w).
Proof.
  intros Hall. unfold _update_existing_final_questions, bind.
  by rewrite update_loop_skips.
Qed.
End WithServer.

Lemma update_needs_identifier_witness :
  Forall (λ q, _existing_id q = None ∨ _existing_id q = Some EmptyString)
    [Sample.city_local; Sample.tie_local]
  ∧ _update_existing_final_questions Sample.serve
      [Sample.city_local; Sample.tie_local] (Sample.world [Sample.city_remote])
    = (Ret {| submitted_count := 0; total_processed := None;
              success := false; details := None |},
       Sample.world [Sample.city_remote]).
Proof.
  assert (Forall (λ q, _existing_id q = None ∨ _existing_id q = Some EmptyString)
            [Sample.city_local; Sample.tie_local]) as H.
  { repeat constructor; by left. }
  split; [exact H|].
  exact (update_needs_identifier _ Sample.serve _ _ H).
Defined.
End ConversationProps.

(** ** The entry point of the final submission *)

Module FinalSubmissionProps.
Import Remote Reconcile Submission Attempts SubmissionProps ConversationProps.
Import FinalSubmission.

Lemma length_omap_le {A B} (f : A → option B) (l : list A) :
  (length (omap f l) ≤ length l)%nat.
Proof.
  induction l as [|x l IH]; csimpl; [done|].
  destruct (f x); simpl; lia.
Qed.

(** The shape of a record that is sent: it survives the attachment of
    an [_existing_id]. *)
Lemma sent_record_shape questions fq i q :
  fq ∈ Eligibility._prepare_questions_for_final_submission questions →
  q = fq ∨ q = set_existing_id i fq →
  PyStr.lower (questionType q) = "input"
  ∧ length (answers q) = 3%nat
  ∧ Forall (λ a, isCorrect a = true) (answers q).
Proof.
  intros Hfq Hq.
  assert (PyStr.lower (questionType fq) = "input"
          ∧ length (answers fq) = 3%nat
          ∧ Forall (λ a, isCorrect a = true) (answers fq)) as Hshape.
  { rewrite EligibilityProps.prepare_questions_omap in Hfq.
    apply list_elem_of_omap in Hfq as (q0 & _ & Hone).
    apply PreparedProps.prepare_one_Some in Hone. cbv zeta in Hone.
    destruct Hone as (Ht & H3 & _ & ->).
    destruct (PreparedProps.top3_facts (answers q0) H3) as (Hlen & _).
    simpl. split; [done|]. split; [by rewrite length_fmap|].
    apply Forall_fmap, Forall_forall. done. }
  by destruct Hq as [->| ->].
Qed.

Section WithServer.
Variable Server : Type.
Variable serve : Request → Server → Reply * Server.

(** X14. The entry point of the final submission always ends with a
    result dict.  When no question of the list is eligible it makes no
    request at all and reports a failure for all the questions given.
    It never makes more than two requests plus four per question, never
    counts more submitted records than it has prepared, counts none
    when it reports a failure, and every record that it puts in a
    request is of type Input and carries exactly 3 answers, all marked
    correct. *)
Theorem submit_final_questions_safe (questions : list Question)
    (w : World Server) :
  ∃ (r : Result) (w' : World Server) (requests : list Request),
    submit_final_questions serve questions w = (Ret r, w')
    ∧ log w' = log w ++ requests
    ∧ (length requests ≤ 2 + 4 * length questions)%nat
    ∧ (submitted_count r
       ≤ length (Eligibility._prepare_questions_for_final_submission questions))%nat
    ∧ (success r = false → submitted_count r = 0%nat)
    ∧ (Eligibility._prepare_questions_for_final_submission questions = [] →
       w' = w ∧ requests = [] ∧ success r = false
       ∧ total_processed r = Some (length questions))
    ∧ Forall (λ req,
        Forall (λ q, PyStr.lower (questionType q) = "input"
                     ∧ length (answers q) = 3%nat
                     ∧ Forall (λ a, isCorrect a = true) (answers q))
          (payload req)) requests.
Proof.
  unfold submit_final_questions, try_except.
  pose proof (length_omap_le Eligibility.prepare_one questions) as Hle.
  rewrite <- EligibilityProps.prepare_questions_omap in Hle.
  pose proof (sent_record_shape questions) as Hshape.
  destruct (Eligibility._prepare_questions_for_final_submission questions)
    as [|fq0 finals] eqn:Eprep; simpl Eligibility.is_empty; cbv iota.
  { eexists _, w, []. rewrite app_nil_r. simpl.
    repeat split; try done. lia. }
  destruct (handle_never_raises Server serve (fq0 :: finals) w) as [r Hr].
  pose proof (handle_returns Server serve (fq0 :: finals) w) as Hret.
  rewrite Hr in Hret. destruct Hret as (Hcount & Hfail & _).
  destruct (handle_log Server serve (fq0 :: finals) w) as (rest & Hlog & Hlen).
  destruct (handle_payloads Server serve (fq0 :: finals) w)
    as (requests & Hlog' & Hpay).
  destruct (_handle_final_submission_with_updates serve (fq0 :: finals) w)
    as [o w'] eqn:E. simpl in Hr, Hlog, Hlog'. subst o.
  exists r, w', requests. cbn [Eligibility.is_empty]. rewrite E.
  assert (requests = fetch_request :: rest) as Hreq.
  { rewrite Hlog' in Hlog. by apply app_inv_head in Hlog. }
  split; [done|]. split; [done|].
  split; [rewrite Hreq; simpl in *; lia|].
  split; [done|]. split; [done|]. split; [done|].
  eapply Forall_impl; [exact Hpay|].
  intros req Hreq'. eapply Forall_impl; [exact Hreq'|].
  intros q (fq & i & Hfq & Hq). by apply (Hshape fq i q).
Qed.
End WithServer.
End FinalSubmissionProps.

(** ** The run of the service *)

Module RankingRunProps.
Import RankingService RankingRun.

Section WithHandler.
Variable scoring_values : list Z.
Variable validate_question : Question → bool.
Variable Db : Type.
Variable fetch_all_questions : Db → option (list Question) * Db.
Variable bulk_update_questions : list Question → Db → option UpdateResult * Db.
Variable submit_final_questions :
  list Question → Db → option Submission.Result * Db.

Lemma call_spec {A} (c : DbCall) (f : Db → option A * Db) (st : State Db) :
  call Db c f st
  = (match (f (db st)).1 with Some a => Remote.Ret a | None => Remote.Exn end,
     mkState (f (db st)).2 (calls st ++ [c])).
Proof. unfold call. by destruct (f (db st)) as [[a|] d]. Qed.

(** The ranking pass, case by case. *)
Lemma ranking_pass_spec (st : State Db) :
  process_all_questions scoring_values validate_question
    fetch_all_questions bulk_update_questions st
  = let st1 := mkState (fetch_all_questions (db st)).2
                 (calls st ++ [FetchAllQuestions]) in
    match (fetch_all_questions (db st)).1 with
    | None => (Remote.Exn, st1)
    | Some questions =>
        if Eligibility.is_empty questions
        then (Remote.Ret _create_empty_result, st1)
        else
          let b := _process_questions_batch scoring_values validate_question
                     questions in
          let ps := processed_questions b in
          if Eligibility.is_empty ps
          then (Remote.Ret (_combine_results b (mkUpdateResult 0 0)
                              (length questions)), st1)
          else
            let st2 := mkState (bulk_update_questions ps (db st1)).2
                         (calls st1 ++ [BulkUpdateQuestions ps]) in
            match (bulk_update_questions ps (db st1)).1 with
            | None => (Remote.Exn, st2)
            | Some u =>
                (Remote.Ret (_combine_results b u (length questions)), st2)
            end
    end.
Proof.
  unfold process_all_questions, _fetch_questions.
  unfold bind at 1. rewrite call_spec. cbv zeta.
  destruct (fetch_all_questions (db st)).1 as [questions|]; [|done].
  destruct (Eligibility.is_empty questions); [done|].
  unfold bind, _update_processed_questions.
  destruct (Eligibility.is_empty (processed_questions _)); [done|].
  rewrite call_spec.
  by destruct (bulk_update_questions _ _).1.
Qed.

Lemma batch_facts questions :
  let b := _process_questions_batch scoring_values validate_question questions in
  (processed_count b + skipped_count b + validation_failed_count b
   = length questions)%nat
  ∧ processed_count b = length (processed_questions b)
  ∧ (processed_count b ≤ total_answers_ranked b)%nat
  ∧ (total_answers_scored b ≤ total_answers_ranked b)%nat.
Proof.
  intros b. unfold b, _process_questions_batch.
  match goal with |- context [batch_loop _ _ questions ?b0] =>
    pose proof (ProcessorProps.batch_loop_inv scoring_values validate_question
                  questions b0) as H end.
  cbv zeta in H. simpl in H.
  destruct H as (I1 & I2 & _ & _ & I5 & I6).
  repeat split; lia.
Qed.

(** X15. A ranking pass fetches the questions once and then writes back
    at most once: the bulk update, when it takes place, receives
    exactly the questions that the batch has processed, and there is at
    least one.  When the pass returns a result, the processed, the
    skipped and the rejected questions add up to the total; every
    processed question has a ranked answer; no more answers are scored
    than ranked; and without a bulk update the result reports no
    update and no failure. *)
Theorem ranking_pass_accounts (st : State Db) :
  let out := process_all_questions scoring_values validate_question
               fetch_all_questions bulk_update_questions st in
  ∃ new_calls,
    calls out.2 = calls st ++ FetchAllQuestions :: new_calls
    ∧ (new_calls = []
       ∨ ∃ questions,
           (fetch_all_questions (db st)).1 = Some questions
           ∧ processed_questions
               (_process_questions_batch scoring_values validate_question
                  questions) ≠ []
           ∧ new_calls
             = [BulkUpdateQuestions
                  (processed_questions
                     (_process_questions_batch scoring_values validate_question
                        questions))])
    ∧ ∀ r, out.1 = Remote.Ret r →
        (result_processed_count r + result_skipped_count r
         + default 0%nat (result_validation_failed r)
         = result_total_questions r)%nat
        ∧ (result_processed_count r ≤ result_answers_ranked r)%nat
        ∧ (result_answers_scored r ≤ result_answers_ranked r)%nat
        ∧ (new_calls = [] →
           result_updated_count r = 0%nat ∧ result_failed_count r = 0%nat).
Proof.
  intros out. unfold out. rewrite ranking_pass_spec. cbv zeta.
  destruct (fetch_all_questions (db st)).1 as [questions|] eqn:Ef.
  2:{ exists []. simpl. split; [done|]. split; [by left|]. done. }
  destruct (Eligibility.is_empty questions) eqn:Ee.
  { exists []. simpl. split; [done|]. split; [by left|].
    intros r [= <-]. simpl. repeat split; lia. }
  pose proof (batch_facts questions) as (B1 & B2 & B3 & B4).
  destruct (Eligibility.is_empty (processed_questions _)) eqn:Ep.
  { exists []. simpl. split; [done|]. split; [by left|].
    intros r [= <-]. simpl. repeat split; lia. }
  assert (processed_questions
            (_process_questions_batch scoring_values validate_question questions)
          ≠ []) as Hne.
  { intros E. by rewrite E in Ep. }
  eexists [_]. split.
  { destruct (bulk_update_questions _ _).1; simpl; by rewrite <- app_assoc. }
  split; [right; by exists questions|].
  intros r Hr. destruct (bulk_update_questions _ _).1 as [u|]; [|done].
  injection Hr as <-. simpl. repeat split; (lia || done).
Qed.

(** What the rest of the run needs to know of the ranking pass. *)
Lemma ranking_pass_calls (st : State Db) :
  let out := process_all_questions scoring_values validate_question
               fetch_all_questions bulk_update_questions st in
  (calls out.2 = calls st ++ [FetchAllQuestions]
   ∧ ∀ r, out.1 = Remote.Ret r → result_updated_count r = 0%nat)
  ∨ ∃ ps, calls out.2 = calls st ++ [FetchAllQuestions; BulkUpdateQuestions ps].
Proof.
  cbv zeta. rewrite ranking_pass_spec. cbv zeta.
  destruct (fetch_all_questions (db st)).1 as [questions|]; [|by left].
  destruct (Eligibility.is_empty questions).
  { left. split; [done|]. by intros r [= <-]. }
  destruct (Eligibility.is_empty (processed_questions _)).
  { left. split; [done|]. by intros r [= <-]. }
  right. eexists.
  destruct (bulk_update_questions _ _).1; simpl; by rewrite <- app_assoc.
Qed.

(** The run, case by case, from the outcome of the ranking pass. *)
Lemma run_spec (st : State Db) :
  process_all_questions_with_final_submission
    scoring_values validate_question
    fetch_all_questions bulk_update_questions submit_final_questions st
  = match process_all_questions scoring_values validate_question
            fetch_all_questions bulk_update_questions st with
    | (Remote.Exn, st1) => (Remote.Exn, st1)
    | (Remote.Ret rr, st1) =>
        if (0 <? result_updated_count rr)%nat then
          let st2 := mkState (fetch_all_questions (db st1)).2
                       (calls st1 ++ [FetchAllQuestions]) in
          match (fetch_all_questions (db st1)).1 with
          | None => (Remote.Exn, st2)
          | Some qs =>
              let s := get_final_submission_summary qs in
              if (0 <? ready_for_final s)%nat then
                let st3 := mkState (submit_final_questions qs (db st2)).2
                             (calls st2 ++ [SubmitFinalQuestions qs]) in
                match (submit_final_questions qs (db st2)).1 with
                | None => (Remote.Exn, st3)
                | Some fr =>
                    (Remote.Ret
                       {| ranking := rr;
                          final_submitted_count := Submission.submitted_count fr;
                          final_submission_success := Submission.success fr;
                          final_ready_count := ready_for_final s;
                          final_needs_more_count := needs_more_answers s;
                          final_submission_details := Submission.details fr |},
                     st3)
                end
              else
                (Remote.Ret
                   {| ranking := rr;
                      final_submitted_count := 0;
                      final_submission_success := false;
                      final_ready_count := ready_for_final s;
                      final_needs_more_count := needs_more_answers s;
                      final_submission_details := None |},
                 st2)
          end
        else
          (Remote.Ret
             {| ranking := rr;
                final_submitted_count := 0;
                final_submission_success := false;
                final_ready_count := 0;
                final_needs_more_count := 0;
                final_submission_details := None |},
           st1)
    end.
Proof.
  unfold process_all_questions_with_final_submission.
  unfold bind at 1.
  destruct (process_all_questions _ _ _ _ st) as [[rr|] st1]; [|done].
  destruct (0 <? result_updated_count rr)%nat; [|done].
  unfold _fetch_questions. unfold bind at 1. rewrite call_spec. cbv zeta.
  destruct (fetch_all_questions (db st1)).1 as [qs|]; [|done].
  unfold bind.
  destruct (0 <? ready_for_final (get_final_submission_summary qs))%nat;
    [|done].
  rewrite call_spec. simpl.
  by destruct (submit_final_questions _ _).1.
Qed.

(** X16. The whole run talks to the handler in a fixed order: the fetch,
    then at most the bulk update, a second fetch and the final
    submission, each one only after the one before.  The final
    submission is called only after a bulk update, and only with a list
    in which the summary finds a ready question.  When the run returns
    a result, the final submission has been called exactly when the
    result reports a ready question, and then the result also reports
    an update; a result that reports a final success or a submitted
    record has had the final submission called. *)
Theorem run_call_order (st : State Db) :
  let out := process_all_questions_with_final_submission
               scoring_values validate_question
               fetch_all_questions bulk_update_questions
               submit_final_questions st in
  ∃ new_calls,
    calls out.2 = calls st ++ FetchAllQuestions :: new_calls
    ∧ (new_calls = []
       ∨ ∃ ps,
           new_calls = [BulkUpdateQuestions ps]
           ∨ new_calls = [BulkUpdateQuestions ps; FetchAllQuestions]
           ∨ ∃ qs,
               new_calls = [BulkUpdateQuestions ps; FetchAllQuestions;
                            SubmitFinalQuestions qs]
               ∧ (0 < ready_for_final (get_final_submission_summary qs))%nat)
    ∧ ∀ r, out.1 = Remote.Ret r →
        ((∃ qs, SubmitFinalQuestions qs ∈ new_calls)
         ↔ (0 < final_ready_count r)%nat)
        ∧ ((0 < final_ready_count r)%nat →
           (0 < result_updated_count (ranking r))%nat)
        ∧ (final_submission_success r = true →
           ∃ qs, SubmitFinalQuestions qs ∈ new_calls)
        ∧ ((0 < final_submitted_count r)%nat →
           ∃ qs, SubmitFinalQuestions qs ∈ new_calls).
Proof.
  intros out. unfold out. clear out. rewrite run_spec.
  pose proof (ranking_pass_calls st) as Hpass. cbv zeta in Hpass.
  destruct (process_all_questions _ _ _ _ st) as [[rr|] st1] eqn:Epass;
    simpl in Hpass.
  2:{ destruct Hpass as [[Hc _]|[ps Hc]].
      - exists []. simpl. split; [done|]. split; [by left|]. done.
      - exists [BulkUpdateQuestions ps]. simpl. split; [done|].
        split; [right; exists ps; by left|]. done. }
  destruct (0 <? result_updated_count rr)%nat eqn:Eu.
  2:{ apply Nat.ltb_ge in Eu.
      assert (∃ new_calls,
                calls st1 = calls st ++ FetchAllQuestions :: new_calls
                ∧ (new_calls = [] ∨ ∃ ps, new_calls = [BulkUpdateQuestions ps]))
        as (new_calls & Hc & Hshape).
      { destruct Hpass as [[Hc _]|[ps Hc]]; [exists []|eexists [_]]; eauto. }
      exists new_calls. simpl. split; [done|]. split.
      { destruct Hshape as [->|[ps ->]]; [by left|right; exists ps; by left]. }
      intros r [= <-]. simpl.
      assert (¬ ∃ qs, SubmitFinalQuestions qs ∈ new_calls) as Hno.
      { intros [qs Hin]. destruct Hshape as [->|[ps ->]].
        - by apply elem_of_nil in Hin.
        - by apply list_elem_of_singleton in Hin. }
      split; [split; [tauto|lia]|]. split; [lia|]. split; [done|lia]. }
  apply Nat.ltb_lt in Eu.
  destruct Hpass as [[_ H0]|[ps Hc]].
  { specialize (H0 rr eq_refl). lia. }
  cbv zeta.
  destruct (fetch_all_questions (db st1)).1 as [updated_questions|].
  2:{ exists [BulkUpdateQuestions ps; FetchAllQuestions]. simpl.
      rewrite Hc, <- app_assoc. split; [done|].
      split; [right; exists ps; right; by left|]. done. }
  destruct (0 <? ready_for_final (get_final_submission_summary updated_questions))%nat
    eqn:Er.
  - apply Nat.ltb_lt in Er.
    exists [BulkUpdateQuestions ps; FetchAllQuestions;
            SubmitFinalQuestions updated_questions].
    split.
    { destruct (submit_final_questions _ _).1; simpl;
        rewrite Hc, <- !app_assoc; done. }
    split; [right; exists ps; right; right; by exists updated_questions|].
    intros r Hr.
    assert (∃ qs, SubmitFinalQuestions qs
                  ∈ [BulkUpdateQuestions ps; FetchAllQuestions;
                     SubmitFinalQuestions updated_questions]) as Hin.
    { exists updated_questions. apply list_elem_of_further, list_elem_of_further,
        list_elem_of_here. }
    destruct (submit_final_questions _ _).1 as [fr|]; [|done].
    injection Hr as <-. simpl. repeat split; (done || lia).
  - apply Nat.ltb_ge in Er.
    exists [BulkUpdateQuestions ps; FetchAllQuestions]. simpl.
    rewrite Hc, <- app_assoc. split; [done|].
    split; [right; exists ps; right; by left|].
    intros r [= <-]. simpl.
    assert (¬ ∃ qs, SubmitFinalQuestions qs
                    ∈ [BulkUpdateQuestions ps; FetchAllQuestions]) as Hno.
    { intros [qs Hin].
      apply elem_of_cons in Hin as [?|Hin]; [done|].
      by apply list_elem_of_singleton in Hin. }
    split; [split; [tauto|lia]|]. split; [lia|]. split; [done|lia].
Qed.
End WithHandler.
End RankingRunProps.
